(** * Verification of the NNUE training pipeline ([scripts/nnue/train_nnue.py])

    A shallow embedding of the trainer: the feature encoder, the two-layer
    model with its in-place update, the Huber loss, the binary weight writer,
    the sample loader, the game-wise splitter and the early-stopping loop;
    and of the decisions of the piece exporter
    ([scripts/export_chess_standard.py]).

    Conventions of the embedding.
    - A Python [float] is an IEEE-754 binary64 value: Rocq's primitive
      [float], whose operations are the hardware ones.
    - A Python [int] is a [Z].
    - A Python [str] is a [string]; its characters are the code points
      below 256.
    - A raised exception is the [Err] case of [result]; code that mutates
      an object before it may raise returns the mutated state next to the
      result. *)

From Stdlib Require Import ZArith Uint63 Floats Ascii String List Bool Lia.
From Stdlib.Strings Require Import Byte.
From Stdlib Require Import Permutation Sorted.
From stdpp Require Import base list gmap strings sorting.

Local Open Scope Z_scope.

(** ** Exceptions and results *)

Inductive py_exn : Type :=
| ValueError
| KeyError
| IndexError
| OverflowError
| StructError
| FileNotFoundError
| IsADirectoryError
| RuntimeError.

Inductive result (A : Type) : Type :=
| Ok (a : A)
| Err (e : py_exn).

Arguments Ok {A} a.
Arguments Err {A} e.

#[global] Instance result_ret : MRet result := @Ok.

#[global] Instance result_bind : MBind result := fun A B k r =>
  match r with
  | Ok a => k a
  | Err e => Err e
  end.

#[global] Instance py_exn_eq_dec : EqDecision py_exn.
Proof. solve_decision. Defined.

#[global] Instance result_eq_dec {A} `{EqDecision A} : EqDecision (result A).
Proof. solve_decision. Defined.

Definition of_option {A} (e : py_exn) (o : option A) : result A :=
  match o with
  | Some a => Ok a
  | None => Err e
  end.

(** ** Huber loss (lines 189-200) *)

Module Huber.

Local Open Scope float_scope.

Definition huber_loss (error delta : float) : float :=
  let abs_err := abs error in
  if abs_err <=? delta then 0.5 * error * error
  else delta * (abs_err - 0.5 * delta).

Definition huber_grad (error delta : float) : float :=
  let abs_err := abs error in
  if abs_err <=? delta then error
  else if 0 <? error then delta else - delta.

End Huber.

(** ** Characters and strings

    The predicates of [str] used by the encoder, on the code points below
    256. [isdigit] also holds of the superscript digits (178, 179, 185), which
    [int] rejects; the upper-case letters are A-Z and the Latin-1 capitals. *)

Module PyStr.

Definition code (c : ascii) : Z := Z.of_N (N_of_ascii c).

Definition between (lo hi n : Z) : bool := (lo <=? n) && (n <=? hi).

Definition isspace (c : ascii) : bool :=
  let n := code c in
  between 9 13 n || between 28 32 n || (n =? 133) || (n =? 160).

Definition isdigit (c : ascii) : bool :=
  let n := code c in
  between 48 57 n || (n =? 178) || (n =? 179) || (n =? 185).

Definition int_of_char (c : ascii) : result Z :=
  let n := code c in
  if between 48 57 n then Ok (n - 48) else Err ValueError.

Definition isupper (c : ascii) : bool :=
  let n := code c in
  between 65 90 n || between 192 214 n || between 216 222 n.

Definition lower (c : ascii) : ascii :=
  if isupper c then ascii_of_N (Z.to_N (code c + 32)) else c.

(** [s.split()]: the maximal runs of characters that are not white space. *)
Fixpoint split_ws_aux (cur : list ascii) (s : list ascii) : list (list ascii) :=
  match s with
  | [] => match cur with [] => [] | _ => [rev cur] end
  | c :: s' =>
      if isspace c then
        match cur with
        | [] => split_ws_aux [] s'
        | _ => rev cur :: split_ws_aux [] s'
        end
      else split_ws_aux (c :: cur) s'
  end.

Definition split_ws (s : list ascii) : list (list ascii) := split_ws_aux [] s.

(** [s.split(sep)] for a one-character separator: always at least one
    segment. *)
Fixpoint split_on_aux (sep : ascii) (cur : list ascii) (s : list ascii)
  : list (list ascii) :=
  match s with
  | [] => [rev cur]
  | c :: s' =>
      if Ascii.eqb c sep then rev cur :: split_on_aux sep [] s'
      else split_on_aux sep (c :: cur) s'
  end.

Definition split_on (sep : ascii) (s : list ascii) : list (list ascii) :=
  split_on_aux sep [] s.

End PyStr.

(** ** Feature encoder (lines 18-25, 99-126) *)

Module Features.

Import PyStr.

(** [PIECE_TYPE_INDEX[key]], a [KeyError] off the six keys. *)
Definition PIECE_TYPE_INDEX (key : ascii) : result Z :=
  if Ascii.eqb key "p" then Ok 0
  else if Ascii.eqb key "n" then Ok 1
  else if Ascii.eqb key "b" then Ok 2
  else if Ascii.eqb key "r" then Ok 3
  else if Ascii.eqb key "q" then Ok 4
  else if Ascii.eqb key "k" then Ok 5
  else Err KeyError.

Definition feature_index (piece_char : ascii) (file_idx rank_idx : Z) : result Z :=
  let white := isupper piece_char in
  type_index ← PIECE_TYPE_INDEX (lower piece_char);
  let color_offset := if white then 0 else 6 in
  let square_index :=
    if white then rank_idx * 8 + file_idx
    else (7 - rank_idx) * 8 + file_idx in
  Ok ((color_offset + type_index) * 64 + square_index).

(** The first three statements of [fen_to_features]: the board field and its
    rank segments. *)
Definition board_ranks (fen : string) : result (list (list ascii)) :=
  board ← of_option IndexError (head (split_ws (list_ascii_of_string fen)));
  let ranks := split_on "/" board in
  if (Z.of_nat (length ranks) =? 8) then Ok ranks else Err ValueError.

(** The inner loop over one rank's characters, threading [file_idx] and the
    list [features] appended to. *)
Fixpoint encode_rank (rank_idx : Z) (rank_text : list ascii)
  (file_idx : Z) (features : list Z) : result (Z * list Z) :=
  match rank_text with
  | [] => Ok (file_idx, features)
  | char :: rest =>
      if isdigit char then
        d ← int_of_char char;
        encode_rank rank_idx rest (file_idx + d) features
      else
        idx ← feature_index char file_idx rank_idx;
        encode_rank rank_idx rest (file_idx + 1) (features ++ [idx])
  end.

(** The outer loop, [for fen_rank, rank_text in enumerate(ranks)]. *)
Fixpoint encode_ranks (fen_rank : Z) (ranks : list (list ascii))
  (features : list Z) : result (list Z) :=
  match ranks with
  | [] => Ok features
  | rank_text :: rest =>
      let rank_idx := 7 - fen_rank in
      '(_, features') ← encode_rank rank_idx rank_text 0 features;
      encode_ranks (fen_rank + 1) rest features'
  end.

Definition fen_to_features (fen : string) : result (list Z) :=
  ranks ← board_ranks fen;
  encode_ranks 0 ranks [].

(** *** The encoding rule as the specification words it

    A piece is a colour and a type; a placement is a piece with the file and
    the rank of its square. [spec_index] is the rule
    [(colorOffset + pieceTypeIndex) * 64 + squareIndex]. *)

Inductive color : Type := White | Black.

Inductive piece_type : Type := Pawn | Knight | Bishop | Rook | Queen | King.

Definition color_offset (c : color) : Z :=
  match c with White => 0 | Black => 6 end.

Definition piece_type_index (p : piece_type) : Z :=
  match p with
  | Pawn => 0 | Knight => 1 | Bishop => 2 | Rook => 3 | Queen => 4 | King => 5
  end.

Definition square_index (c : color) (file rank : Z) : Z :=
  match c with
  | White => rank * 8 + file
  | Black => (7 - rank) * 8 + file
  end.

Record placement : Type := Placement {
  pl_color : color;
  pl_type : piece_type;
  pl_file : Z;
  pl_rank : Z
}.

Definition spec_index (p : placement) : Z :=
  (color_offset (pl_color p) + piece_type_index (pl_type p)) * 64
  + square_index (pl_color p) (pl_file p) (pl_rank p).

Definition piece_letters : list (ascii * (color * piece_type)) :=
  [ ("P"%char, (White, Pawn)); ("N"%char, (White, Knight));
    ("B"%char, (White, Bishop)); ("R"%char, (White, Rook));
    ("Q"%char, (White, Queen)); ("K"%char, (White, King));
    ("p"%char, (Black, Pawn)); ("n"%char, (Black, Knight));
    ("b"%char, (Black, Bishop)); ("r"%char, (Black, Rook));
    ("q"%char, (Black, Queen)); ("k"%char, (Black, King)) ].

Definition piece_of_char (c : ascii) : option (color * piece_type) :=
  snd <$> find (fun e => Ascii.eqb (fst e) c) piece_letters.

Definition is_decimal (c : ascii) : bool := between 48 57 (code c).

Definition digit_value (c : ascii) : Z := code c - 48.

(** A character of a well-formed rank: a decimal digit or a piece letter. *)
Definition char_ok (c : ascii) : bool :=
  is_decimal c || bool_decide (is_Some (piece_of_char c)).

(** The number of squares a rank text describes. *)
Fixpoint width (text : list ascii) : Z :=
  match text with
  | [] => 0
  | c :: rest => (if is_decimal c then digit_value c else 1) + width rest
  end.

Definition rank_ok (text : list ascii) : bool :=
  forallb char_ok text && (width text <=? 8).

Fixpoint rank_placements (rank : Z) (text : list ascii) (file : Z)
  : list placement :=
  match text with
  | [] => []
  | c :: rest =>
      match piece_of_char c with
      | Some (col, ty) =>
          Placement col ty file rank :: rank_placements rank rest (file + 1)
      | None => rank_placements rank rest (file + digit_value c)
      end
  end.

Fixpoint board_placements (fen_rank : Z) (ranks : list (list ascii))
  : list placement :=
  match ranks with
  | [] => []
  | text :: rest =>
      rank_placements (7 - fen_rank) text 0 ++ board_placements (fen_rank + 1) rest
  end.

(** The piece characters of a board: those that are not digits. *)
Definition piece_count (ranks : list (list ascii)) : nat :=
  length (filter (fun c => isdigit c = false) (concat ranks)).

End Features.

(** ** Lists as Python uses them *)

Module PyList.

(** [range(n)] as indices. *)
Definition range (n : Z) : list nat := seq 0 (Z.to_nat n).

(** The position an [int] subscript denotes in a list of length [n]:
    negative subscripts count from the end. *)
Definition py_norm (n : nat) (i : Z) : option nat :=
  if 0 <=? i then
    (if i <? Z.of_nat n then Some (Z.to_nat i) else None)
  else
    (if - Z.of_nat n <=? i then Some (Z.to_nat (Z.of_nat n + i)) else None).

(** [l[i]] for an [int] subscript. *)
Definition py_index {A} (l : list A) (i : Z) : result A :=
  of_option IndexError (j ← py_norm (length l) i; l !! j).

(** [l[i]] for a subscript drawn from a [range]. *)
Definition at_index {A} (l : list A) (i : nat) : result A :=
  of_option IndexError (l !! i).

(** A [for] loop whose body may raise: the first exception ends it. *)
Fixpoint for_each {X S} (xs : list X) (body : X -> S -> result S) (s : S)
  : result S :=
  match xs with
  | [] => Ok s
  | x :: rest => s' ← body x s; for_each rest body s'
  end.

(** A [for] loop over an object mutated in place: when the body raises, the
    object stays as the iterations before left it. *)
Fixpoint for_each_st {X S} (xs : list X) (body : X -> S -> S * result unit)
  (s : S) : S * result unit :=
  match xs with
  | [] => (s, Ok ())
  | x :: rest =>
      match body x s with
      | (s', Ok _) => for_each_st rest body s'
      | (s', Err e) => (s', Err e)
      end
  end.

(** [float(n)] for the length of a list (below [2^63]). *)
Definition float_of_len (n : nat) : float :=
  PrimFloat.of_uint63 (Uint63.of_Z (Z.of_nat n)).

(** [l[:c]] for an [int] bound. *)
Definition py_take {A} (c : Z) (l : list A) : list A :=
  if c <? 0 then take (length l - Z.to_nat (- c)) l else take (Z.to_nat c) l.

End PyList.

(** ** The model (lines 129-186) *)

Module Model.

Import PyList Huber.

Local Open Scope float_scope.

Definition RELU_CAP : float := 127.

Record NnueModel : Type := {
  input_size : Z;
  hidden_size : Z;
  w1 : list (list float);
  b1 : list float;
  w2 : list float;
  b2 : float
}.

Definition set_w1 (v : list (list float)) (m : NnueModel) : NnueModel :=
  {| input_size := input_size m; hidden_size := hidden_size m;
     w1 := v; b1 := b1 m; w2 := w2 m; b2 := b2 m |}.

Definition set_b1 (v : list float) (m : NnueModel) : NnueModel :=
  {| input_size := input_size m; hidden_size := hidden_size m;
     w1 := w1 m; b1 := v; w2 := w2 m; b2 := b2 m |}.

Definition set_w2 (v : list float) (m : NnueModel) : NnueModel :=
  {| input_size := input_size m; hidden_size := hidden_size m;
     w1 := w1 m; b1 := b1 m; w2 := v; b2 := b2 m |}.

Definition set_b2 (v : float) (m : NnueModel) : NnueModel :=
  {| input_size := input_size m; hidden_size := hidden_size m;
     w1 := w1 m; b1 := b1 m; w2 := w2 m; b2 := v |}.

(** [for i in range(hidden_size): hidden[i] += row[i]] *)
Definition add_row (hs : Z) (row hidden : list float) : result (list float) :=
  for_each (range hs)
    (fun i hidden =>
       h ← at_index hidden i;
       r ← at_index row i;
       Ok (<[i := h + r]> hidden))
    hidden.

(** The bounded activation of unit [i]: clamps at 0 and at the cap leave the
    unit inactive. *)
Definition activate (i : nat) (st : list float * list bool)
  : result (list float * list bool) :=
  let '(hidden, active) := st in
  value ← at_index hidden i;
  if value <=? 0 then Ok (<[i := 0]> hidden, active)
  else if RELU_CAP <=? value then Ok (<[i := RELU_CAP]> hidden, active)
  else Ok (hidden, <[i := true]> active).

Definition forward (m : NnueModel) (features : list Z)
  : result (float * list float * list bool) :=
  hidden ← for_each features
    (fun idx hidden => row ← py_index (w1 m) idx; add_row (hidden_size m) row hidden)
    (b1 m);
  '(hidden, active) ← for_each (range (hidden_size m)) activate
    (hidden, replicate (Z.to_nat (hidden_size m)) false);
  output ← for_each (range (hidden_size m))
    (fun i output =>
       h ← at_index hidden i;
       if negb (h =? 0) then
         w ← at_index (w2 m) i; Ok (output + h * w)
       else Ok output)
    (b2 m);
  Ok (output, hidden, active).

(** [self.w2[i] -= lr * grad * hidden[i]] under its guard. *)
Definition update_w2 (lr grad : float) (hidden : list float) (i : nat)
  (m : NnueModel) : NnueModel * result unit :=
  match hidden !! i with
  | None => (m, Err IndexError)
  | Some h =>
      if negb (h =? 0) then
        match w2 m !! i with
        | None => (m, Err IndexError)
        | Some w => (set_w2 (<[i := w - lr * grad * h]> (w2 m)) m, Ok ())
        end
      else (m, Ok ())
  end.

(** [self.w1[idx][i] -= step]: the rows of [w1] are distinct objects (the
    constructor and the snapshot copy build each row anew), so the update
    of one row shows in no other. *)
Definition update_w1 (i : nat) (step : float) (idx : Z) (m : NnueModel)
  : NnueModel * result unit :=
  match py_norm (length (w1 m)) idx with
  | None => (m, Err IndexError)
  | Some j =>
      match w1 m !! j with
      | None => (m, Err IndexError)
      | Some row =>
          match row !! i with
          | None => (m, Err IndexError)
          | Some v => (set_w1 (<[j := <[i := v - step]> row]> (w1 m)) m, Ok ())
          end
      end
  end.

(** The body of the second loop of [train_sample]. *)
Definition update_hidden_unit (lr grad : float) (w2_snapshot : list float)
  (active : list bool) (features : list Z) (i : nat) (m : NnueModel)
  : NnueModel * result unit :=
  match active !! i with
  | None => (m, Err IndexError)
  | Some false => (m, Ok ())
  | Some true =>
      match w2_snapshot !! i with
      | None => (m, Err IndexError)
      | Some ws =>
          let g := grad * ws in
          if g =? 0 then (m, Ok ())
          else
            match b1 m !! i with
            | None => (m, Err IndexError)
            | Some b =>
                for_each_st features (update_w1 i (lr * g))
                  (set_b1 (<[i := b - lr * g]> (b1 m)) m)
            end
      end
  end.

Definition train_sample (m : NnueModel) (features : list Z)
  (label lr delta : float) : NnueModel * result float :=
  match forward m features with
  | Err e => (m, Err e)
  | Ok (output, hidden, active) =>
      let error := output - label in
      let grad := huber_grad error delta in
      let w2_snapshot := w2 m in
      match for_each_st (range (hidden_size m)) (update_w2 lr grad hidden) m with
      | (m1, Err e) => (m1, Err e)
      | (m1, Ok _) =>
          let m2 := set_b2 (b2 m1 - lr * grad) m1 in
          match
            for_each_st (range (hidden_size m2))
              (update_hidden_unit lr grad w2_snapshot active features) m2
          with
          | (m3, Err e) => (m3, Err e)
          | (m3, Ok _) => (m3, Ok (huber_loss error delta))
          end
      end
  end.

Definition predict (m : NnueModel) (features : list Z) : result float :=
  '(output, _, _) ← forward m features; Ok output.

End Model.

(** ** The weight file (lines 11-13, 203-228) *)

Module Snnue.

Import PyList.

(** *** [struct.pack]

    ["<H"] takes an integer of 16 bits and fails on any other; ["<f"] rounds
    the double to binary32 (to nearest, ties to even) and fails when a finite
    double rounds to an infinity. The embedding has one NaN, written as the
    quiet NaN [0x7fc00000]. *)

Definition byte_of_Z (z : Z) : byte :=
  default "000"%byte (Byte.of_N (Z.to_N (z mod 256))).

Definition Z_of_byte (b : byte) : Z := Z.of_N (Byte.to_N b).

Definition le_bytes2 (v : Z) : list byte :=
  [byte_of_Z v; byte_of_Z (v / 256)].

Definition le_bytes4 (v : Z) : list byte :=
  [byte_of_Z v; byte_of_Z (v / 256); byte_of_Z (v / 65536);
   byte_of_Z (v / 16777216)].

Definition pack_H (v : Z) : result (list byte) :=
  if (0 <=? v) && (v <=? 65535) then Ok (le_bytes2 v) else Err StructError.

Definition pack_HHHH (a b c d : Z) : result (list byte) :=
  ba ← pack_H a; bb ← pack_H b; bc ← pack_H c; bd ← pack_H d;
  Ok (ba ++ bb ++ bc ++ bd).

(** The binary32 value a double rounds to. *)
Definition f32_of_float (x : float) : result spec_float :=
  match Prim2SF x with
  | S754_finite s m e =>
      match binary_round 24 128 s m e with
      | S754_infinity _ => Err OverflowError
      | r => Ok r
      end
  | sf => Ok sf
  end.

Definition sign_bit (s : bool) : Z := if s then 2147483648 else 0.

(** The IEEE-754 bit pattern of a binary32 value. *)
Definition bits_of_f32 (sf : spec_float) : Z :=
  match sf with
  | S754_zero s => sign_bit s
  | S754_infinity s => sign_bit s + 2139095040
  | S754_nan => 2143289344
  | S754_finite s m e =>
      if Z.pos m <? 8388608 then sign_bit s + Z.pos m
      else sign_bit s + (e + 150) * 8388608 + (Z.pos m - 8388608)
  end.

Definition pack_f (x : float) : result (list byte) :=
  sf ← f32_of_float x; Ok (le_bytes4 (bits_of_f32 sf)).

(** *** Reading the bytes back *)

Definition f32_of_bits (b : Z) : spec_float :=
  let s := 2147483648 <=? b in
  let ex := (b / 8388608) mod 256 in
  let frac := b mod 8388608 in
  if ex =? 0 then
    match frac with
    | Z.pos m => S754_finite s m (-149)
    | _ => S754_zero s
    end
  else if ex =? 255 then
    (if frac =? 0 then S754_infinity s else S754_nan)
  else
    match frac + 8388608 with
    | Z.pos m => S754_finite s m (ex - 150)
    | _ => S754_nan
    end.

Definition Z_of_le_bytes4 (b0 b1 b2 b3 : byte) : Z :=
  Z_of_byte b0 + 256 * Z_of_byte b1 + 65536 * Z_of_byte b2
  + 16777216 * Z_of_byte b3.

(** The bytes as consecutive 4-byte little-endian floats; [None] when the
    length is no multiple of 4. *)
Fixpoint decode_f32s (bs : list byte) : option (list spec_float) :=
  match bs with
  | [] => Some []
  | b0 :: b1 :: b2 :: b3 :: rest =>
      tl ← decode_f32s rest;
      Some (f32_of_bits (Z_of_le_bytes4 b0 b1 b2 b3) :: tl)
  | _ => None
  end.

(** *** [write_snnue] *)

Definition MAGIC : list byte := ["S"; "N"; "N"; "1"]%byte.
Definition VERSION : Z := 1.
Definition FLAGS : Z := 0.

(** One [handle.write(struct.pack("<f", float(value)))]: the buffer holds what
    was written before a failing [pack]. *)
Definition write_f (value : float) (buf : list byte) : list byte * result unit :=
  match pack_f value with
  | Ok bs => (buf ++ bs, Ok ())
  | Err e => (buf, Err e)
  end.

Definition write_floats (values : list float) (buf : list byte)
  : list byte * result unit :=
  for_each_st values write_f buf.

Definition write_header (input_size hidden_size : Z) (buf : list byte)
  : list byte * result unit :=
  match pack_HHHH input_size hidden_size VERSION FLAGS with
  | Ok bs => (buf ++ bs, Ok ())
  | Err e => (buf, Err e)
  end.

Definition and_then {S} (c1 c2 : S -> S * result unit) (s : S)
  : S * result unit :=
  match c1 s with
  | (s', Ok _) => c2 s'
  | (s', Err e) => (s', Err e)
  end.

Definition float_count (input_size hidden_size : Z) : Z :=
  input_size * hidden_size + hidden_size + hidden_size + 1.

Definition byte_length (input_size hidden_size : Z) : Z :=
  12 + float_count input_size hidden_size * 4.

(** [handle.tell() != byte_length] after the last write. *)
Definition check_length (input_size hidden_size : Z) (buf : list byte)
  : list byte * result unit :=
  if Z.of_nat (length buf) =? byte_length input_size hidden_size
  then (buf, Ok ()) else (buf, Err ValueError).

(** [handle.write(data)] *)
Definition write_bytes (data : list byte) (buf : list byte)
  : list byte * result unit :=
  (buf ++ data, Ok ()).

(** The body of the [with] block, on the bytes of the file opened empty. *)
Definition write_body (input_size hidden_size : Z) (w1 : list (list float))
  (b1 w2 : list float) (b2 : float) : list byte * result unit :=
  and_then (write_bytes MAGIC)
    (and_then (write_header input_size hidden_size)
       (and_then (for_each_st w1 write_floats)
          (and_then (write_floats b1)
             (and_then (write_floats w2)
                (and_then (write_f b2)
                   (check_length input_size hidden_size))))))
    [].

(** The regular files of the disk, by path. The directory tree is not
    modelled: the disk is taken to let the directory of the path be made and
    the file be opened, but for the two failures [write_snnue] checks. *)
Abbreviation disk := (gmap string (list byte)).

(** [os.path.dirname(path)] is empty exactly when [path] has no slash. *)
Definition has_dirname (path : string) : bool :=
  existsb (Ascii.eqb "/") (list_ascii_of_string path).

Definition names_directory (path : string) : bool :=
  match last (list_ascii_of_string path) with
  | Some c => Ascii.eqb c "/"
  | None => true
  end.

(** [os.makedirs] fails on an empty directory name and [open] on a path that
    names a directory; past these, the file holds whatever the block wrote,
    also when the block raised. *)
Definition write_snnue (fs : disk) (path : string) (input_size hidden_size : Z)
  (w1 : list (list float)) (b1 w2 : list float) (b2 : float)
  : disk * result unit :=
  if negb (has_dirname path) then (fs, Err FileNotFoundError)
  else if names_directory path then (fs, Err IsADirectoryError)
  else
    let '(buf, r) := write_body input_size hidden_size w1 b1 w2 b2 in
    (<[path := buf]> fs, r).

End Snnue.

(** ** The random generator

    [random.Random] is the interpreter's, not the repository's: the generator
    is an interface, with the one law the shuffle relies on. [shuffle] is the
    library's loop over it. *)

Module PyRandom.

Class Generator : Type := {
  rng : Type;
  (** [random.Random(seed)] *)
  Random : Z -> rng;
  (** [rng.random()] *)
  rng_random : rng -> float * rng;
  (** [rng._randbelow(n)] *)
  randbelow : rng -> nat -> nat * rng
}.

Class GeneratorLaws (G : Generator) : Prop := {
  randbelow_lt : forall (g : rng) (n : nat), (0 < n)%nat -> (fst (randbelow g n) < n)%nat
}.

(** [x[i], x[j] = x[j], x[i]] *)
Definition swap {A} (x : list A) (i j : nat) : list A :=
  match x !! i, x !! j with
  | Some a, Some b => <[j := a]> (<[i := b]> x)
  | _, _ => x
  end.

(** [for i in reversed(range(1, len(x))): j = randbelow(i + 1); swap], from
    index [i] down to 1. *)
Fixpoint shuffle_from `{Generator} {A} (i : nat) (x : list A) (g : rng)
  : list A * rng :=
  match i with
  | O => (x, g)
  | S i' =>
      let '(j, g') := randbelow g (S i) in
      shuffle_from i' (swap x i j) g'
  end.

Definition shuffle `{Generator} {A} (x : list A) (g : rng) : list A * rng :=
  shuffle_from (length x - 1) x g.

End PyRandom.

(** ** The sample loader (lines 239-333) *)

Module Loader.

Import PyList PyRandom.

Local Open Scope float_scope.

(** A JSON number. *)
Inductive number : Type :=
| PyInt (z : Z)
| PyFloat (f : float).

(** [float(v)]: an integer is rounded to the nearest double, and one too
    large for a double is an [OverflowError]. *)
Definition py_float (v : number) : result float :=
  match v with
  | PyFloat f => Ok f
  | PyInt z =>
      match binary_normalize prec emax z 0 false with
      | S754_infinity _ => Err OverflowError
      | sf => Ok (SF2Prim sf)
      end
  end.

(** A parsed line of the dataset ([json.loads] is the interpreter's): a
    field is [None] when the key is absent (or, under [get], null);
    [row_timeoutNearby] is the truth value of its field. *)
Record Row : Type := {
  row_gameId : option Z;
  row_runId : option string;
  row_timeoutNearby : bool;
  row_evalCp : option number;
  row_mateIn : option number;
  row_fen : option string;
  row_evalCp16 : option number
}.

Record Sample : Type := {
  features : list Z;
  label : float;
  label16 : option float;
  gameId : Z
}.

Record Skipped : Type := {
  timeoutGame : Z;
  timeoutNearby : Z;
  mate : Z;
  missingTimeoutSummary : Z
}.

Record LabelStats : Type := {
  stat_min : float;
  stat_max : float;
  stat_sum : float;
  stat_sumSq : float;
  stat_mean : option float;
  stat_std : option float
}.

(** The files beside the dataset, as the loader reads them:
    [run_summary run_id] is what [load_timeout_map_for_run] returns, and
    [annotated run_id game_id] is [None] when the annotated file is missing
    and else the value of [meta.engineColor], if any. *)
Record Files : Type := {
  run_summary : string -> option (gmap Z Z);
  annotated : string -> Z -> option (option string)
}.

Record LoadState : Type := {
  samples : list Sample;
  skipped : Skipped;
  label_stats : LabelStats;
  cache : gmap (string * Z) string;
  timeout_cache : gmap string (gmap Z Z)
}.

Definition load_engine_color (files : Files) (run_id : string) (game_id : Z)
  (cache : gmap (string * Z) string)
  : result (string * gmap (string * Z) string) :=
  match cache !! (run_id, game_id) with
  | Some c => Ok (c, cache)
  | None =>
      match annotated files run_id game_id with
      | None => Err FileNotFoundError
      | Some engine_color =>
          match engine_color with
          | Some c =>
              if String.eqb c "w" || String.eqb c "b"
              then Ok (c, <[(run_id, game_id) := c]> cache)
              else Err ValueError
          | None => Err ValueError
          end
      end
  end.

(** [float(x) if engine_color == "w" else -float(x)] *)
Definition signed_label (engine_color : string) (x : number) : result float :=
  if String.eqb engine_color "w" then py_float x
  else f ← py_float x; Ok (- f).

(** [min(a, b)] and [max(a, b)] keep [a] unless [b] is strictly beyond it. *)
Definition py_min (a b : float) : float := if b <? a then b else a.
Definition py_max (a b : float) : float := if a <? b then b else a.

Definition count_skip (bucket : nat) (s : Skipped) : Skipped :=
  match bucket with
  | 0%nat => {| timeoutGame := timeoutGame s + 1; timeoutNearby := timeoutNearby s;
            mate := mate s; missingTimeoutSummary := missingTimeoutSummary s |}
  | 1%nat => {| timeoutGame := timeoutGame s; timeoutNearby := timeoutNearby s + 1;
            mate := mate s; missingTimeoutSummary := missingTimeoutSummary s |}
  | 2%nat => {| timeoutGame := timeoutGame s; timeoutNearby := timeoutNearby s;
            mate := mate s + 1; missingTimeoutSummary := missingTimeoutSummary s |}
  | _ => {| timeoutGame := timeoutGame s; timeoutNearby := timeoutNearby s;
            mate := mate s; missingTimeoutSummary := missingTimeoutSummary s + 1 |}
  end.

Definition skip (bucket : nat) (st : LoadState) : LoadState :=
  {| samples := samples st; skipped := count_skip bucket (skipped st);
     label_stats := label_stats st; cache := cache st;
     timeout_cache := timeout_cache st |}.

Definition add_label (l : float) (s : LabelStats) : LabelStats :=
  {| stat_min := py_min (stat_min s) l; stat_max := py_max (stat_max s) l;
     stat_sum := stat_sum s + l; stat_sumSq := stat_sumSq s + l * l;
     stat_mean := stat_mean s; stat_std := stat_std s |}.

(** The look-up of the game's timeout count, with the per-run cache filled
    on first use; [None] is the [missingTimeoutSummary] skip. *)
Definition game_timeout (files : Files) (timeout_map : option (gmap Z Z))
  (run_id : string) (game_id : Z) (tc : gmap string (gmap Z Z))
  : gmap string (gmap Z Z) * option Z :=
  match timeout_map with
  | None =>
      let tc' :=
        match tc !! run_id with
        | Some _ => tc
        | None => <[run_id := default ∅ (run_summary files run_id)]> tc
        end in
      let summary := default ∅ (tc' !! run_id) in
      if bool_decide (summary = ∅) then (tc', None)
      else (tc', Some (default 0%Z (summary !! game_id)))
  | Some tm => (tc, Some (default 0%Z (tm !! game_id)))
  end.

(** The tail of the loop body, from [load_engine_color] on: the sample of an
    accepted row. *)
Definition make_sample (files : Files) (row : Row) (run_id : string)
  (game_id : Z) (eval_cp : number) (cache : gmap (string * Z) string)
  : result (Sample * gmap (string * Z) string) :=
  '(engine_color, cache') ← load_engine_color files run_id game_id cache;
  label ← signed_label engine_color eval_cp;
  fen ← of_option KeyError (row_fen row);
  features ← Features.fen_to_features fen;
  label16 ← match row_evalCp16 row with
            | None => Ok None
            | Some e16 => l ← signed_label engine_color e16; Ok (Some l)
            end;
  Ok ({| features := features; label := label; label16 := label16;
         gameId := game_id |}, cache').

(** One iteration of the loop over the lines; the flag is the [break]. *)
Definition load_row (files : Files) (timeout_map : option (gmap Z Z))
  (max_samples : option Z) (row : Row) (st : LoadState)
  : result (LoadState * bool) :=
  game_id ← of_option KeyError (row_gameId row);
  match row_runId row with
  | None => Err ValueError
  | Some run_id =>
      if String.eqb run_id "" then Err ValueError
      else
        let '(tc, gt) := game_timeout files timeout_map run_id game_id
                           (timeout_cache st) in
        let st := {| samples := samples st; skipped := skipped st;
                     label_stats := label_stats st; cache := cache st;
                     timeout_cache := tc |} in
        match gt with
        | None => Ok (skip 3 st, false)
        | Some t =>
            if negb (t =? 0)%Z then Ok (skip 0 st, false)
            else if row_timeoutNearby row then Ok (skip 1 st, false)
            else
              match row_evalCp row, row_mateIn row with
              | Some eval_cp, None =>
                  '(sample, cache') ←
                    make_sample files row run_id game_id eval_cp (cache st);
                  let samples' := samples st ++ [sample] in
                  let st' := {| samples := samples'; skipped := skipped st;
                                label_stats := add_label (label sample) (label_stats st);
                                cache := cache'; timeout_cache := tc |} in
                  let full :=
                    match max_samples with
                    | Some n => negb (n =? 0)%Z && (n <=? Z.of_nat (length samples'))%Z
                    | None => false
                    end in
                  Ok (st', full)
              | _, _ => Ok (skip 2 st, false)
              end
        end
  end.

Fixpoint load_rows (files : Files) (timeout_map : option (gmap Z Z))
  (max_samples : option Z) (rows : list Row) (st : LoadState)
  : result LoadState :=
  match rows with
  | [] => Ok st
  | row :: rest =>
      '(st', stop) ← load_row files timeout_map max_samples row st;
      if (stop : bool) then Ok st' else load_rows files timeout_map max_samples rest st'
  end.

Definition initial_state : LoadState :=
  {| samples := [];
     skipped := {| timeoutGame := 0; timeoutNearby := 0; mate := 0;
                   missingTimeoutSummary := 0 |};
     label_stats := {| stat_min := infinity; stat_max := neg_infinity;
                       stat_sum := 0; stat_sumSq := 0;
                       stat_mean := None; stat_std := None |};
     cache := ∅; timeout_cache := ∅ |}.

Definition finish_stats (total : nat) (s : LabelStats) : LabelStats :=
  let mean := stat_sum s / float_of_len total in
  let variance := stat_sumSq s / float_of_len total - mean * mean in
  {| stat_min := stat_min s; stat_max := stat_max s; stat_sum := stat_sum s;
     stat_sumSq := stat_sumSq s; stat_mean := Some mean;
     stat_std := Some (sqrt (py_max variance 0)) |}.

(** [rows] are the parsed non-blank lines of the dataset, in file order. *)
Definition load_samples `{Generator} (rows : list Row) (files : Files)
  (timeout_map : option (gmap Z Z)) (max_samples : option Z) (seed : Z)
  : result (list Sample * Skipped * LabelStats) :=
  let g := Random seed in
  st ← load_rows files timeout_map max_samples rows initial_state;
  let shuffled := fst (shuffle (samples st) g) in
  let total := length shuffled in
  if (total =? 0)%nat then Err RuntimeError
  else Ok (shuffled, skipped st, finish_stats total (label_stats st)).

End Loader.

(** ** The splitter (lines 336-344) *)

Module Split.

Import PyList PyRandom Loader.

(** The order in which a [set] of integers is iterated is the interpreter's
    business: any order of the distinct elements. *)
Class SetOrder : Type := {
  set_iter : list Z -> list Z
}.

Class SetOrderLaws (O : SetOrder) : Prop := {
  set_iter_NoDup : forall l : list Z, NoDup (set_iter l);
  set_iter_elem : forall (l : list Z) (x : Z), x ∈ set_iter l <-> x ∈ l
}.

(** [sorted] on integers. *)
Definition sorted (l : list Z) : list Z := merge_sort Z.le l.

(** [int(x)]: truncation toward zero; an infinity or a NaN has no integer. *)
Definition py_int_of_float (x : float) : result Z :=
  match Prim2SF x with
  | S754_zero _ => Ok 0
  | S754_infinity _ => Err OverflowError
  | S754_nan => Err ValueError
  | S754_finite s m e =>
      let a := if 0 <=? e then Z.pos m * 2 ^ e else Z.pos m / 2 ^ (- e) in
      Ok (if s then - a else a)
  end.

(** The literal [0.9]: the double nearest to it. *)
Definition nine_tenths : float := 0x1.ccccccccccccdp-1%float.

(** [int(len(games) * 0.9)] *)
Definition cutoff_of (n : nat) : result Z :=
  py_int_of_float (float_of_len n * nine_tenths)%float.

Definition in_games (games : list Z) (s : Sample) : bool :=
  bool_decide (gameId s ∈ games).

Definition split_by_game `{Generator} `{SetOrder} (samples : list Sample)
  (seed : Z) : result (list Sample * list Sample) :=
  let g := Random seed in
  let games := sorted (set_iter (gameId <$> samples)) in
  let games := fst (shuffle games g) in
  cutoff ← cutoff_of (length games);
  let train_games := py_take cutoff games in
  let train := filter (fun s => in_games train_games s = true) samples in
  let val := filter (fun s => in_games train_games s = false) samples in
  Ok (train, val).

End Split.

(** ** The training loop (lines 347-416) *)

Module Trainer.

Import PyList PyRandom Loader Model Huber.

Local Open Scope float_scope.

Definition evaluate (model : NnueModel) (samples : list Sample) (delta : float)
  : result float :=
  match samples with
  | [] => Ok 0
  | _ =>
      total ← for_each samples
        (fun sample total =>
           pred ← predict model (features sample);
           Ok (total + huber_loss (pred - label sample) delta))
        0;
      Ok (total / float_of_len (length samples))
  end.

(** The inner loop of an epoch: [total_loss += model.train_sample(...)]. An
    exception ends the run, so the model it leaves is not kept. *)
Fixpoint train_pass (model : NnueModel) (train : list Sample)
  (lr delta : float) (total_loss : float) : result (NnueModel * float) :=
  match train with
  | [] => Ok (model, total_loss)
  | sample :: rest =>
      match train_sample model (features sample) (label sample) lr delta with
      | (model', Ok loss) => train_pass model' rest lr delta (total_loss + loss)
      | (_, Err e) => Err e
      end
  end.

(** The training half of an epoch: the pass and [train_loss]. *)
Definition train_epoch (train : list Sample) (lr delta : float)
  (model : NnueModel) : result (NnueModel * float) :=
  '(model', total_loss) ← train_pass model train lr delta 0;
  Ok (model', total_loss / float_of_len (Nat.max 1 (length train))).

(** The snapshot tuple and its restoration. *)
Definition Snapshot : Type :=
  list (list float) * list float * list float * float.

Definition take_snapshot (m : NnueModel) : Snapshot :=
  (w1 m, b1 m, w2 m, b2 m).

Definition restore_snapshot (s : Snapshot) (m : NnueModel) : NnueModel :=
  let '(sw1, sb1, sw2, sb2) := s in
  {| input_size := input_size m; hidden_size := hidden_size m;
     w1 := sw1; b1 := sb1; w2 := sw2; b2 := sb2 |}.

(** *** The loop over the epochs

    The loop itself, over any learner: [P] the live parameters, [S] their
    snapshots. *)

Section Loop.

Context {P S : Type}.
Variable learn_epoch : P -> result (P * float).
Variable validation_loss : P -> result float.
Variable snapshot : P -> S.
Variable restore : S -> P -> P.
Variables patience minEpochs : Z.

Record LoopState : Type := {
  model : P;
  history : list (Z * float * float);
  best_val : float;
  best_epoch : Z;
  best_snapshot : option S;
  patience_left : Z
}.

Definition loop_start (m : P) : LoopState :=
  {| model := m; history := []; best_val := infinity; best_epoch := 0;
     best_snapshot := None; patience_left := patience |}.

(** The body of [for epoch in range(epochs)]; the flag is the [break]. *)
Definition epoch_step (epoch : Z) (st : LoopState) : result (LoopState * bool) :=
  '(m, train_loss) ← learn_epoch (model st);
  val_loss ← validation_loss m;
  let history' := history st ++ [(epoch + 1, train_loss, val_loss)%Z] in
  if val_loss <? best_val st then
    Ok ({| model := m; history := history'; best_val := val_loss;
           best_epoch := (epoch + 1)%Z; best_snapshot := Some (snapshot m);
           patience_left := patience |}, false)
  else if (minEpochs <=? epoch + 1)%Z then
    let left := (patience_left st - 1)%Z in
    Ok ({| model := m; history := history'; best_val := best_val st;
           best_epoch := best_epoch st; best_snapshot := best_snapshot st;
           patience_left := left |}, (left <=? 0)%Z)
  else
    Ok ({| model := m; history := history'; best_val := best_val st;
           best_epoch := best_epoch st; best_snapshot := best_snapshot st;
           patience_left := patience_left st |}, false).

(** The loop from a list of epoch numbers; the flag tells an early stop. *)
Fixpoint run_epochs (epochs : list Z) (st : LoopState) : result (LoopState * bool) :=
  match epochs with
  | [] => Ok (st, false)
  | epoch :: rest =>
      '(st', stop) ← epoch_step epoch st;
      if (stop : bool) then Ok (st', true) else run_epochs rest st'
  end.

(** [if best_snapshot is not None: model... = best_snapshot] *)
Definition final_model (st : LoopState) : P :=
  match best_snapshot st with
  | Some s => restore s (model st)
  | None => model st
  end.

Definition training_loop (epochs : Z) (m : P) : result (LoopState * bool) :=
  run_epochs (Z.of_nat <$> range epochs) (loop_start m).

End Loop.

End Trainer.

(** ** The run (lines 14-15, 129-140, 369-421) *)

Module Pipeline.

Import PyList PyRandom Loader Split Model Trainer Snnue.

Local Open Scope float_scope.

Definition INPUT_SIZE : Z := 768.
Definition HIDDEN_SIZE : Z := 64.

(** The literal [0.01]. *)
Definition one_hundredth : float := 0x1.47ae147ae147bp-7.

(** [[(rng.random() * 2 - 1) * 0.01 for _ in range(n)]] *)
Fixpoint draw_weights `{Generator} (n : nat) (g : rng) : list float * rng :=
  match n with
  | O => ([], g)
  | S n' =>
      let '(r, g1) := rng_random g in
      let '(rest, g2) := draw_weights n' g1 in
      ((r * 2 - 1) * one_hundredth :: rest, g2)
  end.

Fixpoint draw_rows `{Generator} (rows n : nat) (g : rng)
  : list (list float) * rng :=
  match rows with
  | O => ([], g)
  | S rows' =>
      let '(row, g1) := draw_weights n g in
      let '(rest, g2) := draw_rows rows' n g1 in
      (row :: rest, g2)
  end.

(** [NnueModel.__init__] *)
Definition init_model `{Generator} (input_size hidden_size seed : Z) : NnueModel :=
  let g := Random seed in
  let '(rows, g1) := draw_rows (Z.to_nat input_size) (Z.to_nat hidden_size) g in
  let '(out, _) := draw_weights (Z.to_nat hidden_size) g1 in
  {| input_size := input_size; hidden_size := hidden_size;
     w1 := rows; b1 := replicate (Z.to_nat hidden_size) 0; w2 := out; b2 := 0 |}.

Record Args : Type := {
  arg_out : string;
  arg_epochs : Z;
  arg_lr : float;
  arg_huberDelta : float;
  arg_minEpochs : Z;
  arg_patience : Z;
  arg_seed : Z;
  arg_maxSamples : option Z
}.

(** What the run reads: the parsed dataset, the summary file ([None] when it
    is missing, else what [load_timeout_map] returns) and the files under the
    analysis root. *)
Record Inputs : Type := {
  in_rows : list Row;
  in_summary : option (option (gmap Z Z));
  in_files : Files
}.

(** What the run leaves in its report, with the parameters written. *)
Record Outcome : Type := {
  out_samples : list Sample;
  out_train : list Sample;
  out_val : list Sample;
  out_history : list (Z * float * float);
  out_best_epoch : Z;
  out_best_val : float;
  out_stopped_early : bool;
  out_model : NnueModel
}.

(** The part of [main] between the split and the restoration: the model
    built from the seed, and the loop over the epochs. *)
Definition fit `{Generator} (args : Args) (train val : list Sample)
  : result (LoopState (P := NnueModel) (S := Snapshot) * bool) :=
  training_loop
    (train_epoch train (arg_lr args) (arg_huberDelta args))
    (fun m => evaluate m val (arg_huberDelta args))
    take_snapshot (arg_patience args) (arg_minEpochs args)
    (arg_epochs args)
    (init_model INPUT_SIZE HIDDEN_SIZE (arg_seed args)).

(** [main] up to the report: the digest and the sizes it prints are
    functions of the bytes left at [arg_out]. *)
Definition main `{Generator} `{SetOrder} (args : Args) (inputs : Inputs)
  (fs : disk) : disk * result Outcome :=
  match in_summary inputs with
  | None => (fs, Err FileNotFoundError)
  | Some timeout_map =>
      match load_samples (in_rows inputs) (in_files inputs) timeout_map
              (arg_maxSamples args) (arg_seed args) with
      | Err e => (fs, Err e)
      | Ok (samples, _, _) =>
          match split_by_game samples (arg_seed args) with
          | Err e => (fs, Err e)
          | Ok (train, val) =>
              match fit args train val with
              | Err e => (fs, Err e)
              | Ok (st, stopped) =>
                  let m := final_model restore_snapshot st in
                  match write_snnue fs (arg_out args) INPUT_SIZE HIDDEN_SIZE
                          (w1 m) (b1 m) (w2 m) (b2 m) with
                  | (fs', Err e) => (fs', Err e)
                  | (fs', Ok _) =>
                      (fs', Ok {| out_samples := samples; out_train := train;
                                  out_val := val; out_history := history st;
                                  out_best_epoch := best_epoch st;
                                  out_best_val := best_val st;
                                  out_stopped_early := stopped;
                                  out_model := m |})
                  end
              end
          end
      end
  end.

End Pipeline.

(** ** The digest of the weight file (lines 231-236) *)

Module Digest.

Import Snnue.

(** [hashlib.sha256] is the interpreter's: a hash object is an interface,
    with the law its documentation gives, that feeding two pieces one after
    the other is feeding their concatenation. *)
Class Hash : Type := {
  hasher : Type;
  (** [hashlib.sha256()] *)
  sha256 : hasher;
  (** [digest.update(chunk)] *)
  update : hasher -> list byte -> hasher;
  (** [digest.hexdigest()] *)
  hexdigest : hasher -> string
}.

Class HashLaws (H : Hash) : Prop := {
  update_app : forall (d : hasher) (a b : list byte),
    update (update d a) b = update d (a ++ b)
}.

Definition CHUNK : nat := Z.to_nat 8192.

(** [handle.read(n)] on what is left of the file: the bytes read and the
    bytes left. *)
Definition read (n : nat) (rest : list byte) : list byte * list byte :=
  (take n rest, drop n rest).

(** [for chunk in iter(lambda: handle.read(8192), b""): digest.update(chunk)],
    for at most [fuel] reads; [None] when they do not suffice. *)
Fixpoint read_chunks `{Hash} (fuel : nat) (rest : list byte) (digest : hasher)
  : option hasher :=
  match fuel with
  | O => None
  | S fuel' =>
      let '(chunk, rest') := read CHUNK rest in
      match chunk with
      | [] => Some digest
      | _ => read_chunks fuel' rest' (update digest chunk)
      end
  end.

(** [open] fails on a path that names no file. *)
Definition sha256_file `{Hash} (fuel : nat) (fs : disk) (path : string)
  : option (result string) :=
  match fs !! path with
  | None => Some (Err FileNotFoundError)
  | Some content => d ← read_chunks fuel content sha256; Some (Ok (hexdigest d))
  end.

End Digest.

(** ** The timeout summaries (lines 73-96) *)

Module Summary.

Import PyList Loader Split.

(** A value [json.load] returns; the items of an object are its members in
    the order of the document, of which a [dict] keeps, for each key, the
    last. *)
#[warnings="-register-all"]
Inductive json : Type :=
| JNull
| JBool (b : bool)
| JNumber (n : number)
| JString (s : string)
| JArray (items : list json)
| JObject (members : list (string * json)).

(** The exceptions of the reader: those of the trainer and two more. *)
Inductive exn : Type :=
| AttributeError
| TypeError
| Builtin (e : py_exn).

Inductive outcome (A : Type) : Type :=
| Return (a : A)
| Raise (e : exn).

Arguments Return {A} a.
Arguments Raise {A} e.

#[global] Instance outcome_ret : MRet outcome := @Return.

#[global] Instance outcome_bind : MBind outcome := fun A B k r =>
  match r with
  | Return a => k a
  | Raise e => Raise e
  end.

Definition of_result {A} (r : result A) : outcome A :=
  match r with
  | Ok a => Return a
  | Err e => Raise (Builtin e)
  end.

(** [int] applied to a [str] is the interpreter's parser. *)
Class IntParser : Type := {
  int_of_str : string -> result Z
}.

(** The member a [dict] built from the members keeps for [key]. *)
Definition member (key : string) (members : list (string * json)) : option json :=
  snd <$> last (filter (fun kv => kv.1 = key) members).

(** [value.get(key)]: [None] for a key the dict has not; only a dict has a
    [get]. *)
Definition py_get (key : string) (value : json) : outcome json :=
  match value with
  | JObject members => Return (default JNull (member key members))
  | _ => Raise AttributeError
  end.

(** [int(value)] *)
Definition py_int `{IntParser} (value : json) : outcome Z :=
  match value with
  | JBool b => Return (if b then 1 else 0)
  | JNumber (PyInt z) => Return z
  | JNumber (PyFloat f) => of_result (py_int_of_float f)
  | JString s => of_result (int_of_str s)
  | JNull | JArray _ | JObject _ => Raise TypeError
  end.

Definition is_null (value : json) : bool :=
  match value with JNull => true | _ => false end.

(** The body of the loop over the entries. In the assignment
    [timeout_map[int(game_id)] = int(timeout_moves)] the right-hand side is
    evaluated first. *)
Definition add_entry `{IntParser} (entry : json) (timeout_map : gmap Z Z)
  : outcome (gmap Z Z) :=
  game_id ← py_get "gameId" entry;
  timeout_moves ← py_get "timeoutMoves" entry;
  if is_null game_id || is_null timeout_moves then Return timeout_map
  else
    moves ← py_int timeout_moves;
    key ← py_int game_id;
    Return (<[key := moves]> timeout_map).

Fixpoint add_entries `{IntParser} (entries : list json) (timeout_map : gmap Z Z)
  : outcome (gmap Z Z) :=
  match entries with
  | [] => Return timeout_map
  | entry :: rest =>
      timeout_map' ← add_entry entry timeout_map;
      add_entries rest timeout_map'
  end.

(** [load_timeout_map], from the parsed document. *)
Definition load_timeout_map `{IntParser} (data : json)
  : outcome (option (gmap Z Z)) :=
  entries ← py_get "timeoutMovesPerGame" data;
  match entries with
  | JArray items => timeout_map ← add_entries items ∅; Return (Some timeout_map)
  | _ => Return None
  end.

(** [load_timeout_map_for_run]: [summary run_id] is the parsed summary of
    the run, [None] when the file does not exist. *)
Definition load_timeout_map_for_run `{IntParser} (summary : string -> option json)
  (run_id : string) : outcome (option (gmap Z Z)) :=
  match summary run_id with
  | None => Return None
  | Some data =>
      timeout_map ← load_timeout_map data;
      match timeout_map with
      | None => Return None
      | Some m => Return (Some m)
      end
  end.

End Summary.

(** ** The piece exporter ([scripts/export_chess_standard.py])

    The scene is Blender's; the script is embedded over what it reads of it:
    the collections with their names and objects, and the objects with their
    names and types. Two references denote the same object when their
    identities agree. *)

Module Exporter.

Import PyStr PyList.

Definition PIECE_TYPES : list string :=
  ["king"; "queen"; "rook"; "bishop"; "knight"; "pawn"]%string.

(** [l.index(x)] *)
Fixpoint py_list_index (x : string) (l : list string) : result nat :=
  match l with
  | [] => Err ValueError
  | y :: rest =>
      if String.eqb y x then Ok O else i ← py_list_index x rest; Ok (S i)
  end.

(** Lines 59-63, on [sys.argv]. *)
Definition sys_argv_after_double_dash (sys_argv : list string)
  : result (list string) :=
  if bool_decide ("--"%string ∈ sys_argv) then
    i ← py_list_index "--" sys_argv;
    Ok (drop (i + 1) sys_argv)
  else Ok [].

Record Object : Type := {
  obj_id : nat;
  obj_name : string;
  obj_type : string
}.

Record Collection : Type := {
  coll_name : string;
  coll_objects : list Object
}.

(** [bpy.data] *)
Record BlendData : Type := {
  data_collections : list Collection;
  data_objects : list Object
}.

(** [s.lower()] *)
Definition str_lower (s : string) : string :=
  string_of_list_ascii (lower <$> list_ascii_of_string s).

Fixpoint starts_with (sub s : list ascii) : bool :=
  match sub, s with
  | [], _ => true
  | _ :: _, [] => false
  | a :: sub', b :: s' => Ascii.eqb a b && starts_with sub' s'
  end.

Fixpoint occurs_in (sub s : list ascii) : bool :=
  starts_with sub s ||
  match s with
  | [] => false
  | _ :: s' => occurs_in sub s'
  end.

(** [sub in s] *)
Definition contains (sub s : string) : bool :=
  occurs_in (list_ascii_of_string sub) (list_ascii_of_string s).

(** [a == b] on objects *)
Definition same_object (a b : Object) : bool := Nat.eqb (obj_id a) (obj_id b).

(** The inner function of [find_piece_objects]. *)
Definition add_candidate (piece : string) (obj : Object)
  (candidates : gmap string (list Object)) : result (gmap string (list Object)) :=
  if negb (String.eqb (obj_type obj) "MESH") then Ok candidates
  else
    listed ← of_option KeyError (candidates !! piece);
    if existsb (same_object obj) listed then Ok candidates
    else Ok (<[piece := listed ++ [obj]]> candidates).

(** [for piece in PIECE_TYPES: if piece in name: body(piece)] *)
Definition for_pieces_in (name : string)
  (body : string -> gmap string (list Object) -> result (gmap string (list Object)))
  (candidates : gmap string (list Object)) : result (gmap string (list Object)) :=
  for_each PIECE_TYPES
    (fun piece c => if contains piece name then body piece c else Ok c)
    candidates.

Definition find_piece_objects (data : BlendData)
  : result (gmap string (list Object)) :=
  let candidates : gmap string (list Object) :=
    list_to_map ((fun piece => (piece, [])) <$> PIECE_TYPES) in
  candidates ← for_each (data_collections data)
    (fun collection c =>
       for_pieces_in (str_lower (coll_name collection))
         (fun piece c => for_each (coll_objects collection) (add_candidate piece) c)
         c)
    candidates;
  for_each (data_objects data)
    (fun obj c =>
       for_pieces_in (str_lower (obj_name obj)) (fun piece c => add_candidate piece obj c) c)
    candidates.

(** *** The manifest (lines 129-136) *)

Definition quote : string := String "034"%char EmptyString.
Definition newline : string := String "010"%char EmptyString.

(** ["\n".join(lines)] *)
Fixpoint join (sep : string) (lines : list string) : string :=
  match lines with
  | [] => EmptyString
  | [l] => l
  | l :: rest => (l ++ sep ++ join sep rest)%string
  end.

Definition manifest_line (idx : nat) (piece : string) : string :=
  ("  " ++ quote ++ piece ++ quote ++ ": " ++ quote ++ piece ++ ".glb" ++ quote
   ++ (if (Z.of_nat idx <? Z.of_nat (length PIECE_TYPES) - 1)%Z then "," else ""))%string.

(** The text [write_manifest] writes to [manifest.json]. *)
Definition manifest_text : string :=
  let lines := ["{"%string] ++ imap manifest_line PIECE_TYPES in
  let lines := lines ++ ["}"%string] in
  (join newline lines ++ newline)%string.

(** *** The run of the script (lines 12-41)

    What the run does to the scene is Blender's business; what it decides
    is which files it exports and what it writes as the manifest. *)

(** [any(piece_objects.values())] *)
Definition any_candidates (piece_objects : gmap string (list Object)) : bool :=
  bool_decide (map_Exists (fun _ objects => objects ≠ []) piece_objects).

(** The loop over [PIECE_TYPES]: the files exported, in order. *)
Definition exported_files (piece_objects : gmap string (list Object))
  : list string :=
  omap (fun piece_type =>
          match default [] (piece_objects !! piece_type) with
          | [] => None
          | _ => Some (piece_type ++ ".glb")%string
          end)
       PIECE_TYPES.

(** [main], from the scene of the file opened: the files exported and the
    text of the manifest. *)
Definition main (blend_exists : bool) (data : BlendData)
  : result (list string * string) :=
  if negb blend_exists then Err FileNotFoundError
  else
    piece_objects ← find_piece_objects data;
    if negb (any_candidates piece_objects) then Err RuntimeError
    else Ok (exported_files piece_objects, manifest_text).

End Exporter.

(** * Part II: the properties *)

(** * Facts about the Huber loss *)

Module HuberFacts.

Import Huber.

Local Open Scope float_scope.

(** No double is both below and above zero. *)
Lemma ltb_zero_asym (x : float) : (x <? 0) = true -> (0 <? x) = false.
Proof.
  rewrite !ltb_spec. change (Prim2SF 0) with (S754_zero false).
  destruct (Prim2SF x) as [s|s| |s m e]; try destruct s; cbn; congruence.
Qed.

(** C7. Inside the band [|error| <= delta] the gradient is the error and the
    loss is [0.5 * error * error]; outside it the gradient is [delta] for a
    positive error and [-delta] for a negative one, and the loss is
    [delta * (|error| - 0.5 * delta)]. With [delta = 100]: error 50 gives 50,
    error 150 gives 100, error -150 gives -100. *)
Theorem huber_band (error delta : float) :
  ((abs error <=? delta) = true ->
     huber_grad error delta = error /\
     huber_loss error delta = 0.5 * error * error) /\
  ((abs error <=? delta) = false ->
     ((0 <? error) = true -> huber_grad error delta = delta) /\
     ((error <? 0) = true -> huber_grad error delta = - delta) /\
     huber_loss error delta = delta * (abs error - 0.5 * delta)) /\
  huber_grad 50 100 = 50 /\
  huber_grad 150 100 = 100 /\
  huber_grad (-150) 100 = -100.
Proof.
  unfold huber_grad, huber_loss. split; [|split].
  - intros ->. split; reflexivity.
  - intros ->. repeat split.
    + intros ->. reflexivity.
    + intros H. rewrite (ltb_zero_asym _ H). reflexivity.
  - repeat split; vm_compute; reflexivity.
Qed.

(** The band at a concrete pair: error 150 and delta 100 lie outside it. *)
Lemma huber_band_witness :
  (abs 150 <=? 100) = false /\ huber_grad 150 100 = 100 /\
  huber_loss 150 100 = 100 * (abs 150 - 0.5 * 100).
Proof.
  split; [reflexivity|].
  destruct (huber_band 150 100) as (_ & Hout & _).
  destruct (Hout eq_refl) as (Hpos & _ & Hloss).
  split; [apply Hpos; reflexivity | exact Hloss].
Defined.

End HuberFacts.

(** * Facts about the feature encoder *)

Module FeaturesFacts.

Import PyStr Features.

#[local] Arguments piece_of_char : simpl never.
#[local] Arguments is_decimal : simpl never.
#[local] Arguments isdigit : simpl never.
#[local] Arguments char_ok : simpl never.
#[local] Arguments digit_value : simpl never.
#[local] Arguments int_of_char : simpl never.
#[local] Arguments feature_index : simpl never.

(** What the encoder reads off one character, as a check that runs. *)
Definition char_check (c : ascii) : bool :=
  match piece_of_char c with
  | Some (col, ty) =>
      negb (isdigit c) && negb (is_decimal c)
      && Bool.eqb (isupper c) (match col with White => true | Black => false end)
      && bool_decide (PIECE_TYPE_INDEX (lower c) = Ok (piece_type_index ty))
  | None =>
      bool_decide (PIECE_TYPE_INDEX (lower c) = Err KeyError)
      && (negb (is_decimal c)
          || (isdigit c && bool_decide (int_of_char c = Ok (digit_value c))
              && (0 <=? digit_value c)))
  end.

Lemma char_check_all (c : ascii) : char_check c = true.
Proof. destruct c as [[] [] [] [] [] [] [] []]; vm_compute; reflexivity. Qed.

Lemma piece_char_facts (c : ascii) (col : color) (ty : piece_type) :
  piece_of_char c = Some (col, ty) ->
  isdigit c = false /\ is_decimal c = false /\
  forall file rank,
    feature_index c file rank = Ok (spec_index (Placement col ty file rank)).
Proof.
  intros Hp. pose proof (char_check_all c) as Hc. unfold char_check in Hc.
  rewrite Hp in Hc.
  apply andb_prop in Hc as [Hc Hidx]. apply andb_prop in Hc as [Hc Hup].
  apply andb_prop in Hc as [Hd Hdec].
  apply negb_true_iff in Hd, Hdec. apply bool_decide_eq_true in Hidx.
  apply Bool.eqb_prop in Hup.
  repeat split; [done..|]. intros file rank.
  unfold feature_index. rewrite Hidx, Hup. cbn.
  unfold spec_index; cbn. destruct col; reflexivity.
Qed.

Lemma decimal_char_facts (c : ascii) :
  is_decimal c = true ->
  isdigit c = true /\ int_of_char c = Ok (digit_value c) /\
  0 <= digit_value c /\ piece_of_char c = None.
Proof.
  intros Hd. pose proof (char_check_all c) as Hc. unfold char_check in Hc.
  destruct (piece_of_char c) as [[col ty]|] eqn:Hp.
  - rewrite Hd in Hc. rewrite andb_false_r in Hc. discriminate.
  - apply andb_prop in Hc as [_ Hc]. rewrite Hd in Hc. cbn in Hc.
    apply andb_prop in Hc as [Hc Hnn]. apply andb_prop in Hc as [Hdig Hint].
    apply bool_decide_eq_true in Hint. apply Z.leb_le in Hnn. done.
Qed.

Lemma char_ok_cases (c : ascii) :
  char_ok c = true ->
  is_decimal c = true \/ exists col ty, piece_of_char c = Some (col, ty).
Proof.
  unfold char_ok. intros H. apply orb_prop in H as [H|H]; [by left|right].
  apply bool_decide_eq_true in H. destruct H as [[col ty] H]. eauto.
Qed.

Lemma width_nonneg (text : list ascii) :
  forallb char_ok text = true -> 0 <= width text.
Proof.
  induction text as [|c text IH]; cbn; [lia|]. intros H.
  apply andb_prop in H as [Hc Ht]. specialize (IH Ht).
  destruct (is_decimal c) eqn:Hd; [|lia].
  destruct (decimal_char_facts c Hd) as (_ & _ & ? & _). lia.
Qed.

(** The inner loop appends the indices of the rank's placements. *)
Lemma encode_rank_spec (rank : Z) (text : list ascii) :
  forall file feats,
    forallb char_ok text = true ->
    encode_rank rank text file feats
    = Ok (file + width text, feats ++ (spec_index <$> rank_placements rank text file)).
Proof.
  induction text as [|c text IH]; intros file feats H;
    cbn [encode_rank rank_placements width].
  - cbn. by rewrite Z.add_0_r, app_nil_r.
  - cbn in H. apply andb_prop in H as [Hc Ht].
    destruct (char_ok_cases c Hc) as [Hd|(col & ty & Hp)].
    + destruct (decimal_char_facts c Hd) as (Hdig & Hint & _ & Hnp).
      rewrite Hdig, Hint, Hnp, Hd. cbn. rewrite IH by done.
      do 2 f_equal. lia.
    + destruct (piece_char_facts c col ty Hp) as (Hdig & Hnd & Hidx).
      rewrite Hdig, Hidx, Hp, Hnd. cbn. rewrite IH by done.
      rewrite <- app_assoc. cbn. do 2 f_equal. lia.
Qed.

Lemma encode_ranks_spec (ranks : list (list ascii)) :
  forall fen_rank feats,
    forallb rank_ok ranks = true ->
    encode_ranks fen_rank ranks feats
    = Ok (feats ++ (spec_index <$> board_placements fen_rank ranks)).
Proof.
  induction ranks as [|text ranks IH]; intros k feats H; cbn.
  - by rewrite app_nil_r.
  - cbn in H. apply andb_prop in H as [Hr Hrs].
    unfold rank_ok in Hr. apply andb_prop in Hr as [Hc _].
    rewrite encode_rank_spec by done. cbn. rewrite IH by done.
    by rewrite fmap_app, app_assoc.
Qed.

(** Where the placements of a rank lie. *)
Lemma rank_placements_bounds (rank : Z) (text : list ascii) :
  forall file p,
    forallb char_ok text = true ->
    p ∈ rank_placements rank text file ->
    pl_rank p = rank /\ file <= pl_file p < file + width text.
Proof.
  induction text as [|c text IH]; intros file p H Hin; cbn in *.
  - by apply elem_of_nil in Hin.
  - apply andb_prop in H as [Hc Ht]. pose proof (width_nonneg text Ht).
    destruct (char_ok_cases c Hc) as [Hd|(col & ty & Hp)].
    + destruct (decimal_char_facts c Hd) as (_ & _ & Hnn & Hnp).
      rewrite Hnp in Hin. rewrite Hd. apply IH in Hin as [? ?]; [|done]. lia.
    + destruct (piece_char_facts c col ty Hp) as (_ & Hnd & _).
      rewrite Hp in Hin. rewrite Hnd. apply elem_of_cons in Hin as [->|Hin].
      * cbn. lia.
      * apply IH in Hin as [? ?]; [|done]. lia.
Qed.

Definition square (p : placement) : Z * Z := (pl_rank p, pl_file p).

Lemma rank_placements_NoDup (rank : Z) (text : list ascii) :
  forall file,
    forallb char_ok text = true ->
    NoDup (square <$> rank_placements rank text file).
Proof.
  induction text as [|c text IH]; intros file H; cbn in *.
  - constructor.
  - apply andb_prop in H as [Hc Ht].
    destruct (piece_of_char c) as [[col ty]|] eqn:Hp; [|by apply IH].
    cbn. constructor; [|by apply IH].
    intros Hin. apply list_elem_of_fmap in Hin as (p & Heq & Hin).
    apply rank_placements_bounds in Hin as [? ?]; [|done].
    unfold square in Heq. cbn in Heq. injection Heq as _ Hf. lia.
Qed.

Lemma board_placements_bounds (ranks : list (list ascii)) :
  forall fen_rank p,
    forallb rank_ok ranks = true ->
    p ∈ board_placements fen_rank ranks ->
    7 - fen_rank - Z.of_nat (length ranks) < pl_rank p <= 7 - fen_rank
    /\ 0 <= pl_file p < 8.
Proof.
  induction ranks as [|text ranks IH]; intros k p H Hin; cbn in *.
  - by apply elem_of_nil in Hin.
  - apply andb_prop in H as [Hr Hrs]. unfold rank_ok in Hr.
    apply andb_prop in Hr as [Hc Hw]. apply Z.leb_le in Hw.
    apply elem_of_app in Hin as [Hin|Hin].
    + apply rank_placements_bounds in Hin as [? ?]; [|done]. lia.
    + apply IH in Hin as [? ?]; [|done]. lia.
Qed.

Lemma board_placements_NoDup (ranks : list (list ascii)) :
  forall fen_rank,
    forallb rank_ok ranks = true ->
    NoDup (square <$> board_placements fen_rank ranks).
Proof.
  induction ranks as [|text ranks IH]; intros k H; cbn in *.
  - constructor.
  - apply andb_prop in H as [Hr Hrs]. unfold rank_ok in Hr.
    apply andb_prop in Hr as [Hc Hw].
    rewrite fmap_app. apply NoDup_app. split; [by apply rank_placements_NoDup|].
    split; [|by apply IH].
    intros sq Hin1 Hin2.
    apply list_elem_of_fmap in Hin1 as (p & -> & Hin1).
    apply list_elem_of_fmap in Hin2 as (q & Heq & Hin2).
    apply rank_placements_bounds in Hin1 as [? ?]; [|done].
    apply board_placements_bounds in Hin2 as [? ?]; [|done].
    unfold square in Heq. injection Heq as Hr _. lia.
Qed.

(** On the board, the index tells the square. *)
Lemma spec_index_range (p : placement) :
  0 <= pl_rank p < 8 -> 0 <= pl_file p < 8 -> 0 <= spec_index p < 768.
Proof.
  destruct p as [col ty f r]; cbn. intros ? ?. unfold spec_index; cbn.
  destruct col, ty; cbn; lia.
Qed.

Lemma spec_index_square (p q : placement) :
  0 <= pl_rank p < 8 -> 0 <= pl_file p < 8 ->
  0 <= pl_rank q < 8 -> 0 <= pl_file q < 8 ->
  spec_index p = spec_index q -> square p = square q.
Proof.
  destruct p as [c1 t1 f1 r1], q as [c2 t2 f2 r2]; cbn.
  unfold spec_index, square; cbn. intros ? ? ? ? Heq.
  destruct c1, t1, c2, t2; cbn in Heq; f_equal; lia.
Qed.

Lemma NoDup_fmap_through {A B C} (f : A -> B) (key : A -> C) (l : list A) :
  (forall x y, x ∈ l -> y ∈ l -> f x = f y -> key x = key y) ->
  NoDup (key <$> l) -> NoDup (f <$> l).
Proof.
  induction l as [|a l IH]; intros Hf Hk; cbn in *; [constructor|].
  apply NoDup_cons in Hk as [Hna Hk]. constructor.
  - intros Hin. apply list_elem_of_fmap in Hin as (y & Heq & Hin).
    apply Hna. apply list_elem_of_fmap. exists y. split; [|done].
    apply Hf; [left | by right | done].
  - apply IH; [|done]. intros x y Hx Hy. apply Hf; by right.
Qed.

Lemma piece_count_placements (ranks : list (list ascii)) :
  forall fen_rank,
    forallb rank_ok ranks = true ->
    piece_count ranks = length (board_placements fen_rank ranks).
Proof.
  assert (Hrank : forall rank text file,
    forallb char_ok text = true ->
    length (filter (fun c => isdigit c = false) text)
    = length (rank_placements rank text file)).
  { intros rank text. induction text as [|c text IH]; intros file H; [done|].
    cbn in H. apply andb_prop in H as [Hc Ht]. cbn [rank_placements].
    destruct (char_ok_cases c Hc) as [Hd|(col & ty & Hp)].
    - destruct (decimal_char_facts c Hd) as (Hdig & _ & _ & Hnp).
      rewrite Hnp. rewrite filter_cons_False by congruence. by apply IH.
    - destruct (piece_char_facts c col ty Hp) as (Hdig & _ & _).
      rewrite Hp. rewrite filter_cons_True by done. cbn. f_equal. by apply IH. }
  unfold piece_count.
  induction ranks as [|text ranks IH]; intros k H; [done|].
  cbn in H. apply andb_prop in H as [Hr Hrs]. unfold rank_ok in Hr.
  apply andb_prop in Hr as [Hc _]. cbn.
  rewrite filter_app, !length_app. f_equal; [by apply Hrank | by apply IH].
Qed.

(** C2, as amended. When the board field splits into 8 ranks, each made of
    decimal digits and piece letters and describing at most 8 squares, the
    encoder returns one index per piece character; the indices are those of
    the rule [(colorOffset + pieceTypeIndex) * 64 + squareIndex] at the
    pieces' squares, they lie in [0, 768), and no index occurs twice. *)
Theorem fen_to_features_valid (fen : string) (ranks : list (list ascii)) :
  board_ranks fen = Ok ranks ->
  forallb rank_ok ranks = true ->
  exists feats,
    fen_to_features fen = Ok feats /\
    feats = spec_index <$> board_placements 0 ranks /\
    length feats = piece_count ranks /\
    Forall (fun i => 0 <= i < 768) feats /\
    NoDup feats.
Proof.
  intros Hb Hok. exists (spec_index <$> board_placements 0 ranks).
  assert (Hlen : length ranks = 8%nat).
  { unfold board_ranks in Hb.
    destruct (of_option _ _) as [board|]; [|discriminate]. cbn in Hb.
    destruct (Z.eqb_spec (Z.of_nat (length (split_on "/" board))) 8);
      [|discriminate].
    injection Hb as <-. lia. }
  assert (Hin : forall p, p ∈ board_placements 0 ranks ->
                          0 <= pl_rank p < 8 /\ 0 <= pl_file p < 8).
  { intros p Hp. apply board_placements_bounds in Hp as [? ?]; [|done]. lia. }
  split; [|split; [done|split; [|split]]].
  - unfold fen_to_features. rewrite Hb. cbn.
    by rewrite encode_ranks_spec.
  - rewrite length_fmap. symmetry. by apply piece_count_placements.
  - apply Forall_fmap, Forall_forall. intros p Hp.
    destruct (Hin p Hp). by apply spec_index_range.
  - apply (NoDup_fmap_through _ square); [|by apply board_placements_NoDup].
    intros p q Hp Hq. destruct (Hin p Hp), (Hin q Hq).
    by apply spec_index_square.
Qed.

(** The starting position: 32 features. *)
Lemma fen_to_features_valid_witness :
  exists feats,
    fen_to_features "rnbqkbnr/pppppppp/8/8/8/8/PPPPPPPP/RNBQKBNR w KQkq - 0 1"
    = Ok feats /\ length feats = 32%nat /\ NoDup feats.
Proof.
  destruct (fen_to_features_valid
              "rnbqkbnr/pppppppp/8/8/8/8/PPPPPPPP/RNBQKBNR w KQkq - 0 1"
              (split_on "/" (list_ascii_of_string "rnbqkbnr/pppppppp/8/8/8/8/PPPPPPPP/RNBQKBNR")))
    as (feats & Hf & _ & Hl & _ & Hnd); [reflexivity | reflexivity |].
  exists feats. split; [exact Hf|]. split; [exact Hl | exact Hnd].
Defined.

(** C2 as stated fails on strings of 8 segments: a rank wider than 8 squares
    gives the index 768 or the same index twice, and a letter that names no
    piece raises [KeyError]. *)
Lemma fen_to_features_counterexample :
  (exists ranks, board_ranks "8/8/8/8/8/8/8/8k" = Ok ranks) /\
  fen_to_features "8/8/8/8/8/8/8/8k" = Ok [768] /\
  ~ Forall (fun i => 0 <= i < 768) [768] /\
  (exists ranks, board_ranks "8/8/8/8/8/8/P7/8P" = Ok ranks) /\
  fen_to_features "8/8/8/8/8/8/P7/8P" = Ok [8; 8] /\
  ~ NoDup [8; 8] /\
  (exists ranks, board_ranks "8/8/8/8/8/8/8/7x" = Ok ranks) /\
  fen_to_features "8/8/8/8/8/8/8/7x" = Err KeyError.
Proof.
  split; [eexists; reflexivity|]. split; [reflexivity|]. split.
  { intros H. apply Forall_cons in H as [H _]. lia. }
  split; [eexists; reflexivity|]. split; [reflexivity|]. split.
  { intros H. apply NoDup_cons in H as [H _]. apply H. left. }
  split; [eexists; reflexivity|]. reflexivity.
Qed.

End FeaturesFacts.

(** * Facts about loops *)

Module PyListFacts.

Import PyList.

(** A relation every iteration keeps, and that composes, holds across a
    loop that mutates in place, whether or not it raised. *)
Lemma for_each_st_rel {X S} (R : S -> S -> Prop) (xs : list X)
  (body : X -> S -> S * result unit) :
  (forall s, R s s) ->
  (forall s1 s2 s3, R s1 s2 -> R s2 s3 -> R s1 s3) ->
  (forall x s s' r, x ∈ xs -> body x s = (s', r) -> R s s') ->
  forall s s' r, for_each_st xs body s = (s', r) -> R s s'.
Proof.
  intros Hrefl Htrans. induction xs as [|x xs IH]; intros Hbody s s' r Hrun.
  - cbn in Hrun. injection Hrun as <- _. apply Hrefl.
  - cbn in Hrun. destruct (body x s) as [s1 [u|e]] eqn:Hb.
    + apply (Htrans _ s1).
      * eapply Hbody; [left|exact Hb].
      * eapply IH; [|exact Hrun]. intros y t t' r' Hy. apply Hbody. by right.
    + injection Hrun as <- _. eapply Hbody; [left|exact Hb].
Qed.

Lemma py_norm_lt (n : nat) (i : Z) (j : nat) :
  py_norm n i = Some j -> (j < n)%nat.
Proof.
  unfold py_norm. repeat case_match; intros [= <-]; lia.
Qed.

Lemma py_norm_nonneg (n : nat) (i : Z) (j : nat) :
  0 <= i -> py_norm n i = Some j -> i = Z.of_nat j.
Proof.
  unfold py_norm. intros Hi. repeat case_match; intros [= <-]; lia.
Qed.

End PyListFacts.

(** * The frame of a training step *)

Module ModelFacts.

Import PyList PyListFacts Model Huber.

Local Open Scope float_scope.

(** The entry [w[j][i]], if there is one. *)
Definition cell (w : list (list float)) (j i : nat) : option float :=
  row ← w !! j; row !! i.

(** Row [j] is one a feature of the list denotes. *)
Definition addressed (n : nat) (features : list Z) (j : nat) : Prop :=
  exists f, f ∈ features /\ py_norm n f = Some j.

(** What a step may not touch, given the sample's features and the hidden
    values and flags of the forward pass; shapes included. *)
Record frame (features : list Z) (hidden : list float) (active : list bool)
  (m m' : NnueModel) : Prop := {
  fr_input_size : input_size m' = input_size m;
  fr_hidden_size : hidden_size m' = hidden_size m;
  fr_rows_length : length (w1 m') = length (w1 m);
  fr_row_length : forall j, length <$> (w1 m' !! j) = length <$> (w1 m !! j);
  fr_b1_length : length (b1 m') = length (b1 m);
  fr_w2_length : length (w2 m') = length (w2 m);
  fr_rows : forall j, ~ addressed (length (w1 m)) features j ->
                      w1 m' !! j = w1 m !! j;
  fr_columns : forall i j, active !! i ≠ Some true ->
                           cell (w1 m') j i = cell (w1 m) j i;
  fr_b1 : forall i, active !! i ≠ Some true -> b1 m' !! i = b1 m !! i;
  fr_w2 : forall i h, hidden !! i = Some h -> (h =? 0) = true ->
                      w2 m' !! i = w2 m !! i
}.

Section Frame.

Variable features : list Z.
Variable hidden : list float.
Variable active : list bool.

Abbreviation Fr := (frame features hidden active).

Lemma frame_refl (m : NnueModel) : Fr m m.
Proof. by constructor. Qed.

Lemma frame_trans (m1 m2 m3 : NnueModel) : Fr m1 m2 -> Fr m2 m3 -> Fr m1 m3.
Proof.
  intros [? ? L ? ? ? R1 C1 B1 W1] [? ? ? ? ? ? R2 C2 B2 W2].
  constructor; intros; try congruence.
  - rewrite R2, R1; [done..|]. by rewrite L.
  - by rewrite C2, C1.
  - by rewrite B2, B1.
  - by erewrite W2, W1.
Qed.

Lemma update_w2_frame (lr grad : float) (i : nat) (m m' : NnueModel)
  (r : result unit) :
  update_w2 lr grad hidden i m = (m', r) -> Fr m m'.
Proof.
  unfold update_w2. destruct (hidden !! i) as [h|] eqn:Hh;
    [|intros [= <- _]; apply frame_refl].
  destruct (h =? 0) eqn:Hz; cbn; [intros [= <- _]; apply frame_refl|].
  destruct (w2 m !! i) as [w|]; intros [= <- _]; [|apply frame_refl].
  constructor; cbn; try done.
  - by rewrite length_insert.
  - intros i' h' Hh' Hz'. apply list_lookup_insert_ne. intros ->. congruence.
Qed.

Lemma set_b2_frame (v : float) (m : NnueModel) : Fr m (set_b2 v m).
Proof. by constructor. Qed.

Lemma update_w1_frame (i : nat) (step : float) (idx : Z) (m m' : NnueModel)
  (r : result unit) :
  active !! i = Some true -> idx ∈ features ->
  update_w1 i step idx m = (m', r) -> Fr m m'.
Proof.
  intros Hact Hidx. unfold update_w1.
  destruct (py_norm (length (w1 m)) idx) as [j|] eqn:Hj;
    [|intros [= <- _]; apply frame_refl].
  destruct (w1 m !! j) as [row|] eqn:Hrow; [|intros [= <- _]; apply frame_refl].
  destruct (row !! i) as [v|] eqn:Hv; intros [= <- _]; [|apply frame_refl].
  constructor; cbn; try done.
  - by rewrite length_insert.
  - intros j'. destruct (decide (j = j')) as [<-|Hne].
    + rewrite list_lookup_insert_eq by (by eapply lookup_lt_Some).
      rewrite Hrow. cbn. by rewrite length_insert.
    + by rewrite list_lookup_insert_ne.
  - intros j' Hna. apply list_lookup_insert_ne. intros ->.
    apply Hna. by exists idx.
  - intros i' j' Hi'. unfold cell. destruct (decide (j = j')) as [<-|Hne].
    + rewrite list_lookup_insert_eq by (by eapply lookup_lt_Some).
      rewrite Hrow. cbn. apply list_lookup_insert_ne. intros ->. congruence.
    + by rewrite list_lookup_insert_ne.
Qed.

Lemma update_hidden_unit_frame (lr grad : float) (w2_snapshot : list float)
  (i : nat) (m m' : NnueModel) (r : result unit) :
  update_hidden_unit lr grad w2_snapshot active features i m = (m', r) ->
  Fr m m'.
Proof.
  unfold update_hidden_unit.
  destruct (active !! i) as [[|]|] eqn:Hact;
    [|intros [= <- _]; apply frame_refl..].
  destruct (w2_snapshot !! i) as [ws|]; [|intros [= <- _]; apply frame_refl].
  destruct (grad * ws =? 0); [intros [= <- _]; apply frame_refl|].
  destruct (b1 m !! i) as [b|]; [|intros [= <- _]; apply frame_refl].
  intros Hrun. eapply frame_trans; [|eapply for_each_st_rel; [..|exact Hrun]].
  - constructor; cbn; try done.
    + by rewrite length_insert.
    + intros i' Hi'. apply list_lookup_insert_ne. intros ->. congruence.
  - apply frame_refl.
  - apply frame_trans.
  - intros idx s s' r' Hin. by apply update_w1_frame.
Qed.

Lemma train_loops_frame (lr grad : float) (hs : Z) (m m1 m3 : NnueModel)
  (r1 r3 : result unit) :
  for_each_st (range hs) (update_w2 lr grad hidden) m = (m1, r1) ->
  for_each_st (range (hidden_size (set_b2 (b2 m1 - lr * grad) m1)))
    (update_hidden_unit lr grad (w2 m) active features)
    (set_b2 (b2 m1 - lr * grad) m1) = (m3, r3) ->
  Fr m m1 /\ Fr m m3.
Proof.
  intros H1 H3.
  assert (Fr m m1) as F1.
  { eapply for_each_st_rel; [apply frame_refl|apply frame_trans| |exact H1].
    intros i s s' r _. apply update_w2_frame. }
  split; [done|]. eapply frame_trans; [exact F1|].
  eapply frame_trans; [apply set_b2_frame|].
  eapply for_each_st_rel; [apply frame_refl|apply frame_trans| |exact H3].
  intros i s s' r _. apply update_hidden_unit_frame.
Qed.

End Frame.

(** The model a step leaves, whether it returned or raised, against the one
    it started from. *)
Lemma train_sample_frames (m : NnueModel) (features : list Z)
  (label lr delta : float) :
  match forward m features with
  | Err _ => (train_sample m features label lr delta).1 = m
  | Ok (_, hidden, active) =>
      frame features hidden active m (train_sample m features label lr delta).1
  end.
Proof.
  unfold train_sample.
  destruct (forward m features) as [[[output hidden] active]|e]; [|done].
  set (grad := huber_grad (output - label) delta).
  destruct (for_each_st _ (update_w2 lr grad hidden) m) as [m1 [u|e]] eqn:H1.
  - destruct (for_each_st _ _ (set_b2 _ m1)) as [m3 r3] eqn:H3.
    destruct (train_loops_frame _ _ _ _ _ _ _ _ _ _ _ H1 H3) as [_ F3].
    by destruct r3.
  - cbn. eapply for_each_st_rel; [apply frame_refl|apply frame_trans| |exact H1].
    intros i s s' r _. apply update_w2_frame.
Qed.

(** ** The flags of the forward pass *)

#[local] Arguments RELU_CAP : simpl never.

(** The clamp of the activation loop and the flag it leaves. *)
Definition clamp (z : float) : float :=
  if z <=? 0 then 0 else if RELU_CAP <=? z then RELU_CAP else z.

Definition unclamped (z : float) : bool :=
  negb (z <=? 0) && negb (RELU_CAP <=? z).

(** The sums of the first loop of [forward]: [b1] plus the rows of the
    features. *)
Definition accumulate (m : NnueModel) (features : list Z) : result (list float) :=
  for_each features
    (fun idx hidden => row ← py_index (w1 m) idx; add_row (hidden_size m) row hidden)
    (b1 m).

Lemma for_each_app {X S} (xs ys : list X) (body : X -> S -> result S) (s : S) :
  for_each (xs ++ ys) body s = (s' ← for_each xs body s; for_each ys body s').
Proof.
  revert s. induction xs as [|x xs IH]; intros s; cbn; [done|].
  destruct (body x s); cbn; [apply IH|done].
Qed.

(** ** The activation loop *)

Lemma seq_snoc (n : nat) : seq 0 (S n) = seq 0 n ++ [n].
Proof. by rewrite seq_S. Qed.

Lemma activate_loop (pre : list float) (act0 : list bool) (n : nat) :
  forall hidden active,
    for_each (seq 0 n) activate (pre, act0) = Ok (hidden, active) ->
    (n <= length pre)%nat /\ length hidden = length pre /\
    length active = length act0 /\
    (forall i, hidden !! i
               = if decide (i < n)%nat then clamp <$> pre !! i else pre !! i) /\
    (forall i, active !! i
               = if decide (i < n)%nat then
                   match pre !! i with
                   | Some z => (fun a => unclamped z || a) <$> act0 !! i
                   | None => act0 !! i
                   end
                 else act0 !! i).
Proof.
  induction n as [|n IH]; intros hidden active.
  - cbn. intros [= <- <-]. repeat split; try done; lia.
  - rewrite seq_snoc, for_each_app.
    destruct (for_each (seq 0 n) activate (pre, act0)) as [[h1 a1]|] eqn:Hn;
      [|discriminate].
    destruct (IH h1 a1 eq_refl) as (Hle & Hlh & Hla & Hh & Ha).
    cbn [mbind result_bind for_each activate]. unfold at_index.
    pose proof (Hh n) as Hhn. rewrite decide_False in Hhn by lia.
    destruct (pre !! n) as [z|] eqn:Hz; rewrite Hhn; cbn; [|discriminate].
    apply lookup_lt_Some in Hz as Hlt.
    assert (forall i : nat,
              (if decide (i < S n)%nat then clamp <$> pre !! i else pre !! i)
              = if decide (i = n) then Some (clamp z)
                else if decide (i < n)%nat then clamp <$> pre !! i else pre !! i)
      as Hsplit.
    { intros i. destruct (decide (i = n)) as [->|Hne].
      - rewrite decide_True by lia. by rewrite Hz.
      - destruct (decide (i < n)%nat); [rewrite decide_True by lia|
          rewrite decide_False by lia]; done. }
    assert (forall i : nat,
              (if decide (i < S n)%nat then
                 match pre !! i with
                 | Some z => (fun a => unclamped z || a) <$> act0 !! i
                 | None => act0 !! i
                 end
               else act0 !! i)
              = if decide (i = n) then (fun a => unclamped z || a) <$> act0 !! n
                else a1 !! i) as Hsplit'.
    { intros i. destruct (decide (i = n)) as [->|Hne].
      - rewrite decide_True by lia. by rewrite Hz.
      - rewrite Ha. destruct (decide (i < n)%nat); [rewrite decide_True by lia|
          rewrite decide_False by lia]; done. }
    pose proof (Ha n) as Han. rewrite decide_False in Han by lia.
    unfold clamp in Hsplit. unfold unclamped in Hsplit'.
    destruct (z <=? 0) eqn:H0; [|destruct (RELU_CAP <=? z) eqn:H1];
      cbn; intros Heq; injection Heq as <- <-; (split; [lia|]);
      rewrite ?length_insert; (split; [done|]); (split; [done|]); split; intros i;
      rewrite ?Hsplit, ?Hsplit'; cbn [negb andb orb];
      destruct (decide (i = n)) as [->|Hne];
      rewrite ?list_lookup_insert_ne by done;
      rewrite ?list_lookup_insert_eq by lia; try done.
    + rewrite Han. by destruct (act0 !! n).
    + rewrite Han. by destruct (act0 !! n).
    + rewrite <- Han. destruct (a1 !! n) eqn:E.
      * rewrite list_lookup_insert_eq; [done|]. by eapply lookup_lt_Some.
      * pose proof E as E'. apply lookup_ge_None in E'. by rewrite list_insert_ge, E.
Qed.

Lemma ltb_leb (x y : float) : (x <? y) = true -> (x <=? y) = true.
Proof.
  rewrite ltb_spec, leb_spec. unfold SFltb, SFleb.
  by destruct (SFcompare (Prim2SF x) (Prim2SF y)) as [[| |]|].
Qed.

(** A clamped value is neither below zero nor above the cap, and a unit
    left inactive holds zero or the cap. *)
Lemma clamp_bounds (z : float) :
  (clamp z <? 0) = false /\ (RELU_CAP <? clamp z) = false /\
  (unclamped z = false -> clamp z = 0 \/ clamp z = RELU_CAP) /\
  (unclamped z = true -> clamp z = z).
Proof.
  unfold clamp, unclamped.
  destruct (z <=? 0) eqn:H0; [|destruct (RELU_CAP <=? z) eqn:H1]; cbn.
  - repeat split; try done. by left.
  - repeat split; try done. by right.
  - split; [|split; [|done]].
    + destruct (z <? 0) eqn:E; [|done]. apply ltb_leb in E. congruence.
    + destruct (RELU_CAP <? z) eqn:E; [|done]. apply ltb_leb in E. congruence.
Qed.

Lemma forward_stages (m : NnueModel) (features : list Z)
  (output : float) (hidden : list float) (active : list bool) :
  forward m features = Ok (output, hidden, active) ->
  exists pre,
    accumulate m features = Ok pre /\
    for_each (range (hidden_size m)) activate
      (pre, replicate (Z.to_nat (hidden_size m)) false) = Ok (hidden, active).
Proof.
  unfold forward. fold (accumulate m features).
  destruct (accumulate m features) as [pre|]; [|discriminate]. cbn.
  destruct (for_each (range (hidden_size m)) activate _) as [[h a]|] eqn:Hact;
    [|discriminate]. cbn.
  destruct (for_each (range (hidden_size m)) _ (b2 m)); [|discriminate].
  cbn. intros [= _ <- <-]. by exists pre.
Qed.

Lemma SFcompare_Eq_sym (x y : spec_float) :
  SFcompare x y = Some Eq -> SFcompare y x = Some Eq.
Proof.
  destruct x as [sx|sx| |sx mx ex], y as [sy|sy| |sy my ey]; cbn;
    try (destruct sx); try (destruct sy); try done.
  all: destruct (Z.compare_spec ex ey) as [->|?|?]; try done;
    rewrite Z.compare_refl;
    change (Pos.compare_cont Eq mx my) with (Pos.compare mx my);
    change (Pos.compare_cont Eq my mx) with (Pos.compare my mx);
    destruct (Pos.compare mx my) eqn:H; try done;
    apply Pos.compare_eq in H as ->; by rewrite Pos.compare_refl.
Qed.

(** Doubles that compare equal are at most each other. *)
Lemma eqb_leb (x y : float) :
  (x =? y) = true -> (x <=? y) = true /\ (y <=? x) = true.
Proof.
  rewrite FloatAxioms.eqb_spec, !leb_spec. unfold SFeqb, SFleb.
  destruct (SFcompare (Prim2SF x) (Prim2SF y)) as [[| |]|] eqn:H; try done.
  by rewrite (SFcompare_Eq_sym _ _ H).
Qed.

(** The flags [forward] returns: a unit is flagged active exactly when its
    hidden value is neither at or below zero nor at or above the cap. *)
Lemma forward_flags (m : NnueModel) (features : list Z)
  (output : float) (hidden : list float) (active : list bool) :
  forward m features = Ok (output, hidden, active) ->
  forall i : nat,
    active !! i = Some true <->
    (i < Z.to_nat (hidden_size m))%nat /\
    exists h, hidden !! i = Some h /\
              (h <=? 0) = false /\ (RELU_CAP <=? h) = false.
Proof.
  intros Hrun i. apply forward_stages in Hrun as (pre & _ & Hact).
  apply activate_loop in Hact as (Hle & _ & _ & Hh & Ha).
  rewrite (Hh i), (Ha i).
  destruct (decide (i < Z.to_nat (hidden_size m))%nat) as [Hi|Hi];
    [|rewrite (proj1 (lookup_replicate_None _ _ _)) by lia;
      split; [done|intros [? _]; lia]].
  destruct (lookup_lt_is_Some_2 pre i ltac:(lia)) as [z Hz]. rewrite Hz.
  rewrite lookup_replicate_2 by done. cbn [fmap option_fmap option_map].
  rewrite orb_false_r.
  destruct (clamp_bounds z) as (_ & _ & Hoff & Hon).
  unfold unclamped in *. split.
  - intros [= Hu]. split; [done|]. exists (clamp z). split; [done|].
    rewrite (Hon Hu). apply andb_true_iff in Hu as [H0 H1].
    by destruct (z <=? 0), (RELU_CAP <=? z).
  - intros (_ & h & [= <-] & H0 & H1). f_equal.
    destruct (negb (z <=? 0) && negb (RELU_CAP <=? z)) eqn:Hu; [done|].
    destruct (Hoff eq_refl) as [Hc|Hc]; rewrite Hc in H0, H1; discriminate.
Qed.

(** C4. One training step leaves unchanged every row of [w1] that no
    feature of the sample denotes (for the non-negative features of a sample:
    every row whose index is not in the list), every [b1] entry and every
    [w1] column of a unit that was not active, and every [w2] entry of a unit
    whose hidden value is zero; it resizes nothing. The active units are
    those whose hidden value is neither at or below zero nor at or above the
    cap: a unit that holds zero, or the cap, is not active. A step that
    raises in the forward pass changes nothing at all. *)
Theorem train_sample_frame (m : NnueModel) (features : list Z)
  (label lr delta : float) :
  let m' := (train_sample m features label lr delta).1 in
  match forward m features with
  | Err _ => m' = m
  | Ok (_, hidden, active) =>
      (forall j : nat,
         (forall f, f ∈ features -> py_norm (length (w1 m)) f ≠ Some j) ->
         w1 m' !! j = w1 m !! j) /\
      (Forall (fun f => 0 <= f)%Z features ->
       forall j : nat, Z.of_nat j ∉ features -> w1 m' !! j = w1 m !! j) /\
      (forall i : nat, active !! i ≠ Some true ->
         b1 m' !! i = b1 m !! i /\
         forall j : nat, cell (w1 m') j i = cell (w1 m) j i) /\
      (forall (i : nat) (h : float), hidden !! i = Some h -> (h =? 0) = true ->
         w2 m' !! i = w2 m !! i) /\
      input_size m' = input_size m /\ hidden_size m' = hidden_size m /\
      length (w1 m') = length (w1 m) /\
      (forall j : nat, length <$> (w1 m' !! j) = length <$> (w1 m !! j)) /\
      length (b1 m') = length (b1 m) /\ length (w2 m') = length (w2 m) /\
      (forall i : nat,
         active !! i = Some true <->
         (i < Z.to_nat (hidden_size m))%nat /\
         exists h, hidden !! i = Some h /\
                   (h <=? 0) = false /\ (RELU_CAP <=? h) = false) /\
      (forall (i : nat) (h : float),
         hidden !! i = Some h ->
         (h =? 0) = true \/ (h =? RELU_CAP) = true ->
         active !! i ≠ Some true /\
         b1 m' !! i = b1 m !! i /\
         forall j : nat, cell (w1 m') j i = cell (w1 m) j i)
  end.
Proof.
  intros m'. subst m'. pose proof (train_sample_frames m features label lr delta) as H.
  pose proof (forward_flags m features) as Hflags.
  destruct (forward m features) as [[[output hidden] active]|e]; [|done].
  specialize (Hflags output hidden active eq_refl).
  destruct H as [? ? ? ? ? ? Hrows Hcols Hb1 Hw2].
  assert (forall (i : nat) (h : float),
            hidden !! i = Some h ->
            (h =? 0) = true \/ (h =? RELU_CAP) = true ->
            active !! i ≠ Some true) as Hoff.
  { intros i h Hh Hsat Hact. apply Hflags in Hact as (_ & h' & Hh' & H0 & H1).
    rewrite Hh in Hh'. injection Hh' as <-.
    destruct Hsat as [Hz|Hc].
    - apply eqb_leb in Hz as [Hz _]. congruence.
    - apply eqb_leb in Hc as [_ Hc]. congruence. }
  split; [intros j Hj; apply Hrows; intros (f & Hf & Hn); by apply (Hj f)|].
  split.
  { intros Hnn j Hj. apply Hrows. intros (f & Hf & Hn).
    rewrite Forall_forall in Hnn. apply py_norm_nonneg in Hn; [|by apply Hnn].
    by subst f. }
  split; [intros i Hi; split; [by apply Hb1|intros j; by apply Hcols]|].
  split; [exact Hw2|].
  do 6 (split; [done|]).
  split; [exact Hflags|].
  intros i h Hh Hsat. pose proof (Hoff i h Hh Hsat) as Hi.
  split; [done|]. split; [by apply Hb1|intros j; by apply Hcols].
Qed.

(** A model of three features and two hidden units. On the sample of
    feature 1, unit 0 is active and unit 1 is clamped at zero. *)
Definition tiny_model : NnueModel :=
  {| input_size := 3; hidden_size := 2;
     w1 := [[1; 2]; [3; -4]; [5; 6]]; b1 := [0; 0];
     w2 := [0.5; 0.25]; b2 := 0 |}.

(** A model of three features and three hidden units. On the sample of
    feature 1 the sums are 3, -4 and 200: unit 0 is active, unit 1 is
    clamped at zero and unit 2 is saturated at the cap. *)
Definition capped_model : NnueModel :=
  {| input_size := 3; hidden_size := 3;
     w1 := [[1; 2; 3]; [3; -4; 200]; [5; 6; 7]]; b1 := [0; 0; 0];
     w2 := [0.5; 0.25; 0.125]; b2 := 0 |}.

(** The step on [capped_model] changes row 1 in its column 0 alone: rows 0
    and 2 stay, and so do [b1] and the column of [w1] of the clamped unit
    and of the saturated one, and [w2[1]]; [w2[2]], of the saturated unit,
    is updated. *)
Lemma train_sample_frame_witness :
  let m' := (train_sample capped_model [1%Z] 1 0.5 100).1 in
  forward capped_model [1%Z]
  = Ok (17.375, [3; 0; RELU_CAP], [true; false; false]) /\
  w1 m' !! 0%nat = Some [1; 2; 3] /\
  w1 m' !! 2%nat = Some [5; 6; 7] /\
  b1 m' !! 1%nat = Some 0 /\
  b1 m' !! 2%nat = Some 0 /\
  cell (w1 m') 1 1 = Some (-4) /\
  cell (w1 m') 1 2 = Some 200 /\
  w2 m' !! 1%nat = Some 0.25 /\
  w2 m' !! 2%nat ≠ Some 0.125.
Proof.
  cbv zeta.
  pose proof (train_sample_frame capped_model [1%Z] 1 0.5 100) as H.
  cbv zeta in H.
  change (forward capped_model [1%Z])
    with (Ok (A := float * list float * list bool)
             (17.375, [3; 0; RELU_CAP], [true; false; false])) in H.
  cbv beta iota in H.
  destruct H as (Hrows & _ & _ & Hw2 & _ & _ & _ & _ & _ & _ & _ & Hoff).
  split; [reflexivity|].
  destruct (Hoff 1%nat 0 eq_refl (or_introl eq_refl)) as (_ & Hb1 & Hc1).
  destruct (Hoff 2%nat RELU_CAP eq_refl (or_intror eq_refl)) as (_ & Hb2 & Hc2).
  split; [|split; [|split; [|split; [|split; [|split; [|split]]]]]].
  - rewrite Hrows; [reflexivity|].
    intros f Hf%list_elem_of_singleton. by subst f.
  - rewrite Hrows; [reflexivity|].
    intros f Hf%list_elem_of_singleton. by subst f.
  - rewrite Hb1. reflexivity.
  - rewrite Hb2. reflexivity.
  - rewrite Hc1. reflexivity.
  - rewrite Hc2. reflexivity.
  - rewrite (Hw2 1%nat 0 eq_refl eq_refl). reflexivity.
  - vm_compute. discriminate.
Defined.

End ModelFacts.

(** * Facts about the rounding of [SpecFloat]

    The specification of the floating-point operations rounds by shifting
    a mantissa right ([shr]) to the exponent of its format ([fexp]).  *)

Module SpecFloatFacts.

Lemma digits2_pos_bounds (m : positive) :
  2 ^ (Z.pos (digits2_pos m) - 1) <= Z.pos m < 2 ^ Z.pos (digits2_pos m).
Proof.
  induction m as [p IH|p IH|]; cbn [digits2_pos].
  - rewrite Pos2Z.inj_succ, Z.pow_succ_r by lia.
    replace (Z.succ (Z.pos (digits2_pos p)) - 1) with (Z.succ (Z.pos (digits2_pos p) - 1)) by lia.
    rewrite Z.pow_succ_r by lia. lia.
  - rewrite Pos2Z.inj_succ, Z.pow_succ_r by lia.
    replace (Z.succ (Z.pos (digits2_pos p)) - 1) with (Z.succ (Z.pos (digits2_pos p) - 1)) by lia.
    rewrite Z.pow_succ_r by lia. lia.
  - cbn. lia.
Qed.

Lemma Zdigits2_nonneg (m : Z) : 0 <= Zdigits2 m.
Proof. destruct m; cbn; lia. Qed.

Lemma Zdigits2_bounds (m : Z) :
  0 < m -> 2 ^ (Zdigits2 m - 1) <= m < 2 ^ Zdigits2 m.
Proof. destruct m as [|p|p]; [lia| |lia]. intros _. apply digits2_pos_bounds. Qed.

Lemma Zdigits2_pos (m : Z) : 0 < m -> 0 < Zdigits2 m.
Proof. destruct m; cbn; lia. Qed.

Lemma Zdigits2_unique (m d : Z) :
  2 ^ (d - 1) <= m < 2 ^ d -> 0 < d -> Zdigits2 m = d.
Proof.
  intros [Hlo Hhi] Hd.
  assert (0 < m) as Hm by (pose proof (Z.pow_pos_nonneg 2 (d - 1)); lia).
  pose proof (Zdigits2_bounds m Hm) as [Hlo' Hhi'].
  pose proof (Zdigits2_pos m Hm) as Hd'.
  destruct (Z.lt_trichotomy (Zdigits2 m) d) as [Hlt|[Heq|Hgt]]; [|done|].
  - assert (2 ^ Zdigits2 m <= 2 ^ (d - 1)) by (apply Z.pow_le_mono_r; lia). lia.
  - assert (2 ^ d <= 2 ^ (Zdigits2 m - 1)) by (apply Z.pow_le_mono_r; lia). lia.
Qed.

(** Halving keeps all digits but the last. *)
Lemma Zdigits2_div_pow (m k : Z) :
  0 < m -> 0 <= k < Zdigits2 m -> Zdigits2 (m / 2 ^ k) = Zdigits2 m - k.
Proof.
  intros Hm Hk. pose proof (Zdigits2_bounds m Hm) as [Hlo Hhi].
  assert (0 < 2 ^ k) by (apply Z.pow_pos_nonneg; lia).
  apply Zdigits2_unique; [|lia]. split.
  - apply Z.div_le_lower_bound; [done|].
    rewrite <- Z.pow_add_r by lia. by replace (k + (Zdigits2 m - k - 1)) with (Zdigits2 m - 1) by lia.
  - apply Z.div_lt_upper_bound; [done|].
    rewrite <- Z.pow_add_r by lia. by replace (k + (Zdigits2 m - k)) with (Zdigits2 m) by lia.
Qed.

Lemma div_pow_small (m k : Z) : 0 <= m -> Zdigits2 m <= k -> m / 2 ^ k = 0.
Proof.
  intros Hm Hk. destruct (Z.eq_dec m 0) as [->|Hne].
  - apply Z.div_0_l. pose proof (Zdigits2_nonneg 0). 
    assert (0 < 2 ^ k) by (apply Z.pow_pos_nonneg; cbn in Hk; lia). lia.
  - pose proof (Zdigits2_bounds m ltac:(lia)) as [_ Hhi].
    pose proof (Zdigits2_pos m ltac:(lia)).
    apply Z.div_small. split; [done|].
    assert (2 ^ Zdigits2 m <= 2 ^ k) by (apply Z.pow_le_mono_r; lia). lia.
Qed.

(** Adding one adds at most one digit. *)
Lemma Zdigits2_succ (m : Z) :
  0 <= m -> Zdigits2 (m + 1) = Zdigits2 m \/ Zdigits2 (m + 1) = Zdigits2 m + 1.
Proof.
  intros Hm. destruct (Z.eq_dec m 0) as [->|Hne]; [by right|].
  pose proof (Zdigits2_bounds m ltac:(lia)) as [Hlo Hhi].
  pose proof (Zdigits2_pos m ltac:(lia)).
  destruct (Z.eq_dec (m + 1) (2 ^ Zdigits2 m)) as [Heq|Hlt].
  - right. apply Zdigits2_unique; [|lia]. rewrite Z.add_simpl_r, Heq.
    rewrite Z.pow_add_r by lia. lia.
  - left. apply Zdigits2_unique; lia.
Qed.

(** *** Shifting *)

Lemma iter_pos_nat {A} (f : A -> A) (p : positive) (x : A) :
  SpecFloat.iter_pos f p x = Nat.iter (Pos.to_nat p) f x.
Proof.
  revert x. induction p as [p IH|p IH|]; intros x; cbn [SpecFloat.iter_pos].
  - rewrite !IH, Pos2Nat.inj_xI.
    replace (S (2 * Pos.to_nat p)) with (Pos.to_nat p + (Pos.to_nat p + 1))%nat by lia.
    by rewrite !Nat.iter_add.
  - rewrite !IH, Pos2Nat.inj_xO.
    replace (2 * Pos.to_nat p)%nat with (Pos.to_nat p + Pos.to_nat p)%nat by lia.
    by rewrite Nat.iter_add.
  - done.
Qed.

Lemma shr_1_m (r : shr_record) : 0 <= shr_m r -> shr_m (shr_1 r) = shr_m r / 2.
Proof.
  destruct r as [m b s]. cbn [shr_m]. intros Hm.
  destruct m as [|[p|p|]|p]; cbn [shr_1 shr_m]; [done| | |done|lia].
  - apply Z.div_unique with 1; lia.
  - apply Z.div_unique with 0; lia.
Qed.

Lemma shr_1_r (r : shr_record) : 0 <= shr_m r -> shr_r (shr_1 r) = Z.odd (shr_m r).
Proof.
  destruct r as [m b s]. cbn [shr_m]. intros Hm.
  destruct m as [|[p|p|]|p]; cbn [shr_1 shr_r]; try done; lia.
Qed.

Lemma shr_iter_m (n : nat) (r : shr_record) :
  0 <= shr_m r -> shr_m (Nat.iter n shr_1 r) = shr_m r / 2 ^ Z.of_nat n.
Proof.
  intros Hm. induction n as [|n IH].
  - cbn. by rewrite Z.div_1_r.
  - change (Nat.iter (S n) shr_1 r) with (shr_1 (Nat.iter n shr_1 r)).
    rewrite shr_1_m; rewrite IH.
    + rewrite Nat2Z.inj_succ, Z.pow_succ_r by lia.
      rewrite Z.div_div by (try apply Z.pow_pos_nonneg; lia).
      f_equal. lia.
    + apply Z.div_pos; [done|]. apply Z.pow_pos_nonneg; lia.
Qed.

Lemma shr_iter_r (n : nat) (r : shr_record) :
  0 <= shr_m r ->
  shr_r (Nat.iter (S n) shr_1 r) = Z.odd (shr_m r / 2 ^ Z.of_nat n).
Proof.
  intros Hm. change (Nat.iter (S n) shr_1 r) with (shr_1 (Nat.iter n shr_1 r)).
  rewrite shr_1_r; rewrite shr_iter_m by done; [done|].
  apply Z.div_pos; [done|]. apply Z.pow_pos_nonneg; lia.
Qed.

Lemma shr_m_of_loc (m : Z) (l : location) : shr_m (shr_record_of_loc m l) = m.
Proof. by destruct l as [|[]]. Qed.

(** The mantissa and the exponent [shr] returns. *)
Lemma shr_spec (mrs : shr_record) (e n : Z) :
  0 <= shr_m mrs ->
  shr_m (shr mrs e n).1 = shr_m mrs / 2 ^ Z.max 0 n /\
  (shr mrs e n).2 = e + Z.max 0 n.
Proof.
  intros Hm. destruct n as [|p|p]; cbn [shr fst snd].
  - cbn. rewrite Z.div_1_r. lia.
  - rewrite iter_pos_nat, shr_iter_m by done.
    rewrite positive_nat_Z. by replace (Z.max 0 (Z.pos p)) with (Z.pos p) by lia.
  - cbn. rewrite Z.div_1_r. lia.
Qed.

(** *** Rounding yields a value of the format *)

Section Format.

Variables prec emax : Z.
Hypothesis prec_pos : 0 < prec.

Abbreviation F := (fexp prec emax).

Lemma fexp_succ (x : Z) : F x <= F (x + 1) <= F x + 1.
Proof. unfold fexp. lia. Qed.

Lemma fexp_above (x : Z) : x <= F x -> F x = SpecFloat.emin prec emax.
Proof. unfold fexp. lia. Qed.

Lemma fexp_emin (x : Z) : x <= SpecFloat.emin prec emax + 1 -> F x = SpecFloat.emin prec emax.
Proof. unfold fexp. lia. Qed.

Lemma shr_fexp_spec (m e : Z) (l : location) :
  0 <= m ->
  shr_m (shr_fexp prec emax m e l).1 = m / 2 ^ Z.max 0 (F (Zdigits2 m + e) - e) /\
  (shr_fexp prec emax m e l).2 = e + Z.max 0 (F (Zdigits2 m + e) - e).
Proof.
  intros Hm. unfold shr_fexp.
  pose proof (shr_spec (shr_record_of_loc m l) e (F (Zdigits2 m + e) - e)) as H.
  rewrite shr_m_of_loc in H. by apply H.
Qed.

Lemma round_nearest_even_cases (m : Z) (l : location) :
  round_nearest_even m l = m \/ round_nearest_even m l = m + 1.
Proof. destruct l as [|[]]; cbn; try destruct (Z.even m); auto. Qed.

(** A mantissa at the exponent of its format, rounded and shifted once
    more, is a value of the format. *)
Lemma binary_round_aux_valid (s : bool) (m e : Z) (l : location) :
  0 <= m -> e <= F (Zdigits2 m + e) ->
  SpecFloat.valid_binary prec emax (binary_round_aux prec emax s m e l) = true.
Proof.
  intros Hm He. unfold binary_round_aux.
  pose proof (shr_fexp_spec m e l Hm) as [Hm1 He1].
  destruct (shr_fexp prec emax m e l) as [mrs1 e1]. cbn [fst snd] in Hm1, He1.
  set (m2 := round_nearest_even (shr_m mrs1) (loc_of_shr_record mrs1)).
  assert (0 <= shr_m mrs1) as Hm1pos.
  { rewrite Hm1. apply Z.div_pos; [done|]. apply Z.pow_pos_nonneg; lia. }
  assert (0 <= m2) as Hm2pos.
  { destruct (round_nearest_even_cases (shr_m mrs1) (loc_of_shr_record mrs1));
      unfold m2; lia. }
  pose proof (shr_fexp_spec m2 e1 loc_Exact Hm2pos) as [Hm3 He3].
  destruct (shr_fexp prec emax m2 e1 loc_Exact) as [mrs3 e3].
  cbn [fst snd] in Hm3, He3.
  destruct (shr_m mrs3) as [|p|p] eqn:Hp; [done| |done].
  destruct (e3 <=? emax - prec) eqn:Hb; [|done].
  cbn. unfold bounded, canonical_mantissa. rewrite Hb, andb_true_r.
  apply Z.eqb_eq.
  enough (forall q, q = Z.pos p -> F (Zdigits2 q + e3) = e3) as Hq
    by exact (Hq _ eq_refl).
  intros q Hq. rewrite Hm3 in Hq. assert (0 < q) as Hqpos by lia.
  clear Hp Hm3 p. rename Hq into Hm3.
  (* the exponent after the first shift is that of the format *)
  assert (e1 = F (Zdigits2 m + e)) as He1' by lia.
  (* the rounded mantissa has the digits of the format, or one more *)
  assert (e1 <= F (Zdigits2 m2 + e1) <= e1 + 1) as Hk2.
  { assert (Zdigits2 m2 = Zdigits2 (shr_m mrs1)
            \/ Zdigits2 m2 = Zdigits2 (shr_m mrs1) + 1) as Hd2.
    { unfold m2.
      destruct (round_nearest_even_cases (shr_m mrs1) (loc_of_shr_record mrs1))
        as [->| ->]; [by left|by apply Zdigits2_succ]. }
    destruct (Z_lt_le_dec (Z.max 0 (F (Zdigits2 m + e) - e)) (Zdigits2 m))
      as [Hlt|Hge].
    - assert (0 < m) as Hmpos by (destruct m; cbn in Hlt; lia).
      assert (Zdigits2 (shr_m mrs1) + e1 = Zdigits2 m + e) as Hx.
      { rewrite Hm1, Zdigits2_div_pow by lia. lia. }
      pose proof (fexp_succ (Zdigits2 m + e)).
      destruct Hd2 as [-> | ->].
      + rewrite Hx. lia.
      + replace (Zdigits2 (shr_m mrs1) + 1 + e1) with (Zdigits2 m + e + 1) by lia.
        lia.
    - assert (shr_m mrs1 = 0) as Hz by (rewrite Hm1; by apply div_pow_small).
      rewrite Hz in Hd2. cbn in Hd2.
      assert (e1 = SpecFloat.emin prec emax) as Hmin.
      { rewrite He1'. apply fexp_above. lia. }
      rewrite (fexp_emin (Zdigits2 m2 + e1)) by lia. lia. }
  destruct (Z.eq_dec (F (Zdigits2 m2 + e1)) e1) as [Heq|Hne].
  - (* no second shift *)
    rewrite Heq, Z.sub_diag in Hm3, He3. cbn in Hm3, He3.
    rewrite Z.div_1_r in Hm3. rewrite Hm3. replace e3 with e1 by lia. done.
  - (* a second shift by one *)
    replace (Z.max 0 (F (Zdigits2 m2 + e1) - e1)) with 1 in Hm3, He3 by lia.
    assert (1 < Zdigits2 m2) as Hd.
    { destruct (Z_lt_le_dec 1 (Zdigits2 m2)) as [|Hle]; [done|].
      rewrite Hm3, div_pow_small in Hqpos; lia. }
    assert (0 < m2) as Hm2 by (destruct m2; cbn in Hd; lia).
    rewrite Hm3, Zdigits2_div_pow by lia.
    replace (Zdigits2 m2 - 1 + e3) with (Zdigits2 m2 + e1) by lia. lia.
Qed.

Lemma iter_xO_pow (m d : positive) :
  Z.pos (Pos.iter xO m d) = Z.pos m * 2 ^ Z.pos d.
Proof.
  induction d as [|d IH] using Pos.peano_ind.
  - cbn. lia.
  - rewrite Pos.iter_succ, Pos2Z.inj_xO, IH, Pos2Z.inj_succ, Z.pow_succ_r by lia.
    lia.
Qed.

Lemma Zdigits2_mul_pow (m k : Z) :
  0 < m -> 0 <= k -> Zdigits2 (m * 2 ^ k) = Zdigits2 m + k.
Proof.
  intros Hm Hk. pose proof (Zdigits2_bounds m Hm) as [Hlo Hhi].
  pose proof (Zdigits2_pos m Hm).
  assert (0 < 2 ^ k) by (apply Z.pow_pos_nonneg; lia).
  apply Zdigits2_unique; [|lia]. split.
  - replace (Zdigits2 m + k - 1) with (Zdigits2 m - 1 + k) by lia.
    rewrite Z.pow_add_r by lia. nia.
  - rewrite Z.pow_add_r by lia. nia.
Qed.

(** The mantissa [shl_align] returns is at or above the exponent of its
    format, with the value kept. *)
Lemma shl_align_fexp_spec (m : positive) (e : Z) :
  let '(mz, ez) := shl_align m e (F (Z.pos (digits2_pos m) + e)) in
  ez <= F (Zdigits2 (Z.pos mz) + ez) /\
  ez <= e /\ Z.pos mz = Z.pos m * 2 ^ (e - ez).
Proof.
  unfold shl_align.
  destruct (F (Z.pos (digits2_pos m) + e) - e) as [|d|d] eqn:Hd.
  - rewrite Z.sub_diag. cbn [Zdigits2 Z.pow]. lia.
  - rewrite Z.sub_diag. cbn [Zdigits2 Z.pow]. lia.
  - rewrite iter_xO_pow.
    replace (e - F (Z.pos (digits2_pos m) + e)) with (Z.pos d) by lia.
    split; [|lia].
    rewrite Zdigits2_mul_pow by lia. cbn [Zdigits2].
    replace (Z.pos (digits2_pos m) + Z.pos d + F (Z.pos (digits2_pos m) + e))
      with (Z.pos (digits2_pos m) + e) by lia.
    lia.
Qed.

Lemma binary_round_valid (s : bool) (m : positive) (e : Z) :
  SpecFloat.valid_binary prec emax (binary_round prec emax s m e) = true.
Proof.
  unfold binary_round. pose proof (shl_align_fexp_spec m e) as H.
  destruct (shl_align m e _) as [mz ez]. destruct H as (H & _ & _).
  by apply binary_round_aux_valid.
Qed.

(** *** What rounding returns

    For a positive mantissa that has digits below the exponent of its format:
    the quotient, or its successor when the first digit shifted out is a
    one, then shifted once more when the successor has a digit too many. *)

Lemma round_up_bit (mrs : shr_record) :
  round_nearest_even (shr_m mrs) (loc_of_shr_record mrs) = shr_m mrs \/
  (round_nearest_even (shr_m mrs) (loc_of_shr_record mrs) = shr_m mrs + 1 /\
   shr_r mrs = true).
Proof.
  destruct mrs as [m [|] [|]]; cbn; try destruct (Z.even m); auto.
Qed.

Lemma shr_r_spec (m e : Z) (p : positive) :
  0 <= m ->
  shr_r (shr (shr_record_of_loc m loc_Exact) e (Z.pos p)).1
  = Z.odd (m / 2 ^ (Z.pos p - 1)).
Proof.
  intros Hm. cbn [shr fst shr_record_of_loc]. rewrite iter_pos_nat.
  destruct (Pos.to_nat p) as [|n] eqn:Hn; [lia|].
  rewrite shr_iter_r by done. cbn [shr_m]. do 3 f_equal. lia.
Qed.

Lemma binary_round_aux_shape (s : bool) (m e : Z) :
  0 <= m -> 0 < F (Zdigits2 m + e) - e ->
  exists m2 k2,
    (m2 = m / 2 ^ (F (Zdigits2 m + e) - e) \/
     (m2 = m / 2 ^ (F (Zdigits2 m + e) - e) + 1 /\
      Z.odd (m / 2 ^ (F (Zdigits2 m + e) - e - 1)) = true)) /\
    (k2 = 0 \/ k2 = 1) /\
    binary_round_aux prec emax s m e loc_Exact
    = match m2 / 2 ^ k2 with
      | Z0 => S754_zero s
      | Z.pos q =>
          if F (Zdigits2 m + e) + k2 <=? emax - prec
          then S754_finite s q (F (Zdigits2 m + e) + k2)
          else S754_infinity s
      | Z.neg _ => S754_nan
      end.
Proof.
  intros Hm Hk. set (k := F (Zdigits2 m + e) - e) in *.
  unfold binary_round_aux.
  pose proof (shr_fexp_spec m e loc_Exact Hm) as [Hm1 He1].
  assert (shr_r (shr_fexp prec emax m e loc_Exact).1 = Z.odd (m / 2 ^ (k - 1)))
    as Hr1.
  { unfold shr_fexp. fold k. destruct k as [|p|p]; [lia| |lia].
    by apply shr_r_spec. }
  fold k in Hm1, He1. replace (Z.max 0 k) with k in Hm1, He1 by lia.
  destruct (shr_fexp prec emax m e loc_Exact) as [mrs1 e1].
  cbn [fst snd] in Hm1, He1, Hr1.
  set (m2 := round_nearest_even (shr_m mrs1) (loc_of_shr_record mrs1)).
  assert (0 <= shr_m mrs1) as Hm1pos.
  { rewrite Hm1. apply Z.div_pos; [done|]. apply Z.pow_pos_nonneg; lia. }
  assert (m2 = m / 2 ^ k \/ (m2 = m / 2 ^ k + 1 /\ Z.odd (m / 2 ^ (k - 1)) = true))
    as Hm2.
  { unfold m2. destruct (round_up_bit mrs1) as [->|[-> Hr]]; [by left|right].
    by rewrite <- Hm1, <- Hr1. }
  assert (0 <= m2) as Hm2pos by lia.
  pose proof (shr_fexp_spec m2 e1 loc_Exact Hm2pos) as [Hm3 He3].
  destruct (shr_fexp prec emax m2 e1 loc_Exact) as [mrs3 e3].
  cbn [fst snd] in Hm3, He3.
  assert (e1 = F (Zdigits2 m + e)) as He1' by lia.
  (* as in [binary_round_aux_valid]: at most one digit too many *)
  assert (e1 <= F (Zdigits2 m2 + e1) <= e1 + 1) as Hk2.
  { assert (Zdigits2 m2 = Zdigits2 (m / 2 ^ k)
            \/ Zdigits2 m2 = Zdigits2 (m / 2 ^ k) + 1) as Hd2.
    { destruct Hm2 as [->|[-> _]]; [by left|]. apply Zdigits2_succ. lia. }
    destruct (Z_lt_le_dec k (Zdigits2 m)) as [Hlt|Hge].
    - assert (0 < m) as Hmpos by (destruct m; cbn in Hlt; lia).
      assert (Zdigits2 (m / 2 ^ k) + e1 = Zdigits2 m + e) as Hx.
      { rewrite Zdigits2_div_pow by lia. lia. }
      pose proof (fexp_succ (Zdigits2 m + e)).
      destruct Hd2 as [-> | ->].
      + rewrite Hx. lia.
      + replace (Zdigits2 (m / 2 ^ k) + 1 + e1) with (Zdigits2 m + e + 1) by lia.
        lia.
    - assert (m / 2 ^ k = 0) as Hz by (by apply div_pow_small).
      rewrite Hz in Hd2. cbn in Hd2.
      assert (e1 = SpecFloat.emin prec emax) as Hmin.
      { rewrite He1'. apply fexp_above. lia. }
      rewrite (fexp_emin (Zdigits2 m2 + e1)) by lia. lia. }
  exists m2, (F (Zdigits2 m2 + e1) - e1).
  split; [done|]. split; [lia|].
  replace (Z.max 0 (F (Zdigits2 m2 + e1) - e1)) with (F (Zdigits2 m2 + e1) - e1)
    in Hm3, He3 by lia.
  rewrite <- Hm3. replace (F (Zdigits2 m + e) + (F (Zdigits2 m2 + e1) - e1))
    with e3 by lia.
  done.
Qed.

(** A mantissa already at the exponent of its format is kept. *)
Lemma binary_round_aux_canonical (s : bool) (m : positive) (e : Z) :
  F (Zdigits2 (Z.pos m) + e) = e -> e <= emax - prec ->
  binary_round_aux prec emax s (Z.pos m) e loc_Exact = S754_finite s m e.
Proof.
  intros Hc He. unfold binary_round_aux, shr_fexp.
  rewrite Hc, Z.sub_diag. cbn [shr shr_record_of_loc shr_m loc_of_shr_record
                                round_nearest_even].
  rewrite Hc, Z.sub_diag. cbn [shr shr_record_of_loc shr_m].
  apply Z.leb_le in He. by rewrite He.
Qed.

End Format.

End SpecFloatFacts.

(** * Facts about the weight file *)

Module SnnueFacts.

Import PyList PyListFacts Snnue SpecFloatFacts.

(** The bytes of a list of binary32 values. *)
Definition encode_f32s (qs : list spec_float) : list byte :=
  concat ((fun q => le_bytes4 (bits_of_f32 q)) <$> qs).

Lemma Z_of_byte_of_Z (z : Z) : Z_of_byte (byte_of_Z z) = z mod 256.
Proof.
  unfold Z_of_byte, byte_of_Z.
  assert (0 <= z mod 256 < 256) as Hr by (apply Z.mod_pos_bound; lia).
  destruct (Byte.of_N (Z.to_N (z mod 256))) as [b|] eqn:Hb.
  - cbn. apply Byte.to_of_N in Hb. rewrite Hb. lia.
  - apply Byte.of_N_None_iff in Hb. lia.
Qed.

Lemma le_bytes4_inv (b : Z) :
  0 <= b < 4294967296 ->
  Z_of_le_bytes4 (byte_of_Z b) (byte_of_Z (b / 256)) (byte_of_Z (b / 65536))
    (byte_of_Z (b / 16777216)) = b.
Proof.
  intros Hb. unfold Z_of_le_bytes4. rewrite !Z_of_byte_of_Z.
  replace (b / 65536) with (b / 256 / 256)
    by (rewrite Z.div_div by lia; done).
  replace (b / 16777216) with (b / 256 / 256 / 256)
    by (rewrite !Z.div_div by lia; done).
  assert (b / 256 / 256 / 256 < 256).
  { rewrite !Z.div_div by lia. apply Z.div_lt_upper_bound; lia. }
  assert (0 <= b / 256 / 256 / 256) by (repeat apply Z.div_pos; lia).
  rewrite (Z.mod_small (b / 256 / 256 / 256)) by lia.
  pose proof (Z.div_mod b 256 ltac:(lia)).
  pose proof (Z.div_mod (b / 256) 256 ltac:(lia)).
  pose proof (Z.div_mod (b / 256 / 256) 256 ltac:(lia)).
  lia.
Qed.

(** What validity says of a finite binary32 value. *)
Lemma valid_f32_finite (m : positive) (e : Z) :
  bounded 24 128 m e = true ->
  -149 <= e <= 104 /\ Z.pos m < 16777216 /\ (Z.pos m < 8388608 -> e = -149).
Proof.
  unfold bounded, canonical_mantissa. intros H.
  apply andb_prop in H as [Hc Hb]. apply Z.eqb_eq in Hc. apply Z.leb_le in Hb.
  pose proof (digits2_pos_bounds m) as [Hlo Hhi].
  set (d := Z.pos (digits2_pos m)) in *.
  unfold fexp, SpecFloat.emin in Hc. cbn in Hb.
  assert (d <= 24) by lia.
  assert (2 ^ d <= 2 ^ 24) by (apply Z.pow_le_mono_r; lia).
  change (2 ^ 24) with 16777216 in *.
  repeat split; try lia.
  intros Hsub. destruct (Z.eq_dec d 24) as [Heq|Hne]; [|lia].
  rewrite Heq in Hlo. change (2 ^ (24 - 1)) with 8388608 in Hlo. lia.
Qed.

Lemma bits_of_f32_range (q : spec_float) :
  SpecFloat.valid_binary 24 128 q = true -> 0 <= bits_of_f32 q < 4294967296.
Proof.
  destruct q as [s|s| |s m e]; cbn [SpecFloat.valid_binary bits_of_f32];
    intros H; [destruct s; cbn; lia..|cbn; lia|].
  apply valid_f32_finite in H as (He & Hm & Hsub).
  destruct (Z.ltb_spec (Z.pos m) 8388608); destruct s; cbn [sign_bit]; lia.
Qed.

Lemma f32_of_bits_of_f32 (q : spec_float) :
  SpecFloat.valid_binary 24 128 q = true -> f32_of_bits (bits_of_f32 q) = q.
Proof.
  destruct q as [s|s| |s m e]; cbn [SpecFloat.valid_binary bits_of_f32];
    intros H; [destruct s; reflexivity..|reflexivity|].
  apply valid_f32_finite in H as (He & Hm & Hsub).
  unfold f32_of_bits.
  destruct (Z.ltb_spec (Z.pos m) 8388608) as [Hlt|Hge].
  - specialize (Hsub Hlt). subst e.
    assert ((sign_bit s + Z.pos m) / 8388608 = (if s then 256 else 0)) as ->.
    { symmetry. apply Z.div_unique with (Z.pos m); destruct s; cbn; lia. }
    assert ((sign_bit s + Z.pos m) mod 8388608 = Z.pos m) as ->.
    { symmetry. apply Z.mod_unique with (if s then 256 else 0);
        destruct s; cbn; lia. }
    assert ((2147483648 <=? sign_bit s + Z.pos m) = s) as ->.
    { destruct s; cbn [sign_bit]; [apply Z.leb_le|apply Z.leb_gt]; lia. }
    by destruct s.
  - set (b := sign_bit s + (e + 150) * 8388608 + (Z.pos m - 8388608)).
    assert (b / 8388608 = (if s then 256 else 0) + (e + 150)) as ->.
    { symmetry. apply Z.div_unique with (Z.pos m - 8388608);
        unfold b; destruct s; cbn [sign_bit]; lia. }
    assert (b mod 8388608 = Z.pos m - 8388608) as ->.
    { symmetry. apply Z.mod_unique with ((if s then 256 else 0) + (e + 150));
        unfold b; destruct s; cbn [sign_bit]; lia. }
    assert (((if s then 256 else 0) + (e + 150)) mod 256 = e + 150) as ->.
    { symmetry. apply Z.mod_unique with (if s then 1 else 0); destruct s; lia. }
    assert ((2147483648 <=? b) = s) as ->.
    { unfold b. destruct s; cbn [sign_bit]; [apply Z.leb_le|apply Z.leb_gt]; lia. }
    destruct (Z.eqb_spec (e + 150) 0); [lia|].
    destruct (Z.eqb_spec (e + 150) 255); [lia|].
    replace (Z.pos m - 8388608 + 8388608) with (Z.pos m) by lia.
    f_equal. lia.
Qed.

(** The value [pack] rounds to is a binary32 value. *)
Lemma f32_of_float_valid (x : float) (q : spec_float) :
  f32_of_float x = Ok q -> SpecFloat.valid_binary 24 128 q = true.
Proof.
  unfold f32_of_float. destruct (Prim2SF x) as [s|s| |s m e] eqn:Hx;
    try (intros [= <-]; reflexivity).
  pose proof (binary_round_valid 24 128 ltac:(lia) s m e) as Hv.
  destruct (binary_round 24 128 s m e); intros [= <-]; done.
Qed.

Lemma decode_encode_f32s (qs : list spec_float) :
  Forall (fun q => SpecFloat.valid_binary 24 128 q = true) qs ->
  decode_f32s (encode_f32s qs) = Some qs.
Proof.
  induction 1 as [|q qs Hq _ IH]; [done|].
  unfold encode_f32s in *. cbn [fmap list_fmap concat le_bytes4 app decode_f32s].
  rewrite IH. cbn. rewrite le_bytes4_inv by (by apply bits_of_f32_range).
  by rewrite f32_of_bits_of_f32.
Qed.

Lemma length_encode_f32s (qs : list spec_float) :
  length (encode_f32s qs) = (4 * length qs)%nat.
Proof.
  unfold encode_f32s. induction qs as [|q qs IH]; [done|].
  cbn [fmap list_fmap concat le_bytes4 app length]. rewrite IH. lia.
Qed.

Lemma encode_f32s_app (qs1 qs2 : list spec_float) :
  encode_f32s (qs1 ++ qs2) = encode_f32s qs1 ++ encode_f32s qs2.
Proof. unfold encode_f32s. by rewrite fmap_app, concat_app. Qed.

(** *** The stages of the write *)

Lemma write_f_fits (x : float) (q : spec_float) (buf : list byte) :
  f32_of_float x = Ok q -> write_f x buf = (buf ++ encode_f32s [q], Ok ()).
Proof.
  intros Hq. unfold write_f, pack_f. rewrite Hq. reflexivity.
Qed.

Lemma write_floats_fits (xs : list float) (qs : list spec_float) :
  Forall2 (fun x q => f32_of_float x = Ok q) xs qs ->
  forall buf, write_floats xs buf = (buf ++ encode_f32s qs, Ok ()).
Proof.
  unfold write_floats. induction 1 as [|x q xs qs Hq _ IH]; intros buf.
  - cbn. by rewrite app_nil_r.
  - cbn [for_each_st]. rewrite (write_f_fits x q buf Hq), IH.
    by rewrite <- app_assoc, <- encode_f32s_app.
Qed.

Lemma write_rows_fits (rows : list (list float)) :
  forall (qs : list spec_float) (buf : list byte),
    Forall2 (fun x q => f32_of_float x = Ok q) (concat rows) qs ->
    for_each_st rows write_floats buf = (buf ++ encode_f32s qs, Ok ()).
Proof.
  induction rows as [|row rows IH]; intros qs buf H.
  - cbn in H. apply Forall2_nil_inv_l in H as ->. cbn. by rewrite app_nil_r.
  - cbn in H. apply Forall2_app_inv_l in H as (q1 & q2 & H1 & H2 & ->).
    cbn [for_each_st]. rewrite (write_floats_fits row q1 H1), (IH q2) by done.
    by rewrite <- app_assoc, <- encode_f32s_app.
Qed.








Lemma and_then_ok {S} (c1 c2 : S -> S * result unit) (s s1 : S) :
  c1 s = (s1, Ok ()) -> and_then c1 c2 s = c2 s1.
Proof. unfold and_then. by intros ->. Qed.


(** The double rounds to a binary32 value without overflow. *)
Definition fits32 (x : float) : bool :=
  match f32_of_float x with Ok _ => true | Err _ => false end.

(** The binary32 values of the doubles before the first that overflows. *)
Fixpoint fit_prefix (xs : list float) : list spec_float :=
  match xs with
  | [] => []
  | x :: rest =>
      match f32_of_float x with
      | Ok q => q :: fit_prefix rest
      | Err _ => []
      end
  end.

(** The parameters in the order of the file. *)
Definition parameters (w1 : list (list float)) (b1 w2 : list float) (b2 : float)
  : list float :=
  concat w1 ++ b1 ++ w2 ++ [b2].

Definition fits16 (v : Z) : bool := (0 <=? v) && (v <=? 65535).

(** The eight bytes of the four 16-bit fields. *)
Definition fields (input_size hidden_size : Z) : list byte :=
  le_bytes2 input_size ++ le_bytes2 hidden_size ++ le_bytes2 VERSION
  ++ le_bytes2 FLAGS.

Lemma f32_of_float_error (x : float) (e : py_exn) :
  f32_of_float x = Err e -> e = OverflowError.
Proof.
  unfold f32_of_float. destruct (Prim2SF x) as [?|?| |s m ex]; try discriminate.
  destruct (binary_round 24 128 s m ex); try discriminate. by intros [= <-].
Qed.

Lemma fit_prefix_app (xs ys : list float) :
  fit_prefix (xs ++ ys)
  = if forallb fits32 xs then fit_prefix xs ++ fit_prefix ys else fit_prefix xs.
Proof.
  induction xs as [|x xs IH]; [done|]. cbn [app fit_prefix forallb].
  unfold fits32 at 1. destruct (f32_of_float x) as [q|]; cbn [andb]; [|done].
  rewrite IH. by destruct (forallb fits32 xs).
Qed.

Lemma write_floats_run (xs : list float) (buf : list byte) :
  write_floats xs buf
  = (buf ++ encode_f32s (fit_prefix xs),
     if forallb fits32 xs then Ok () else Err OverflowError).
Proof.
  unfold write_floats. revert buf.
  induction xs as [|x xs IH]; intros buf; cbn [for_each_st fit_prefix forallb].
  - by rewrite app_nil_r.
  - unfold write_f, pack_f, fits32 at 1.
    destruct (f32_of_float x) as [q|e] eqn:Hq; cbn.
    + rewrite IH. rewrite <- app_assoc. done.
    + rewrite (f32_of_float_error _ _ Hq). by rewrite app_nil_r.
Qed.

Lemma write_f_run (x : float) (buf : list byte) :
  write_f x buf
  = (buf ++ encode_f32s (fit_prefix [x]),
     if forallb fits32 [x] then Ok () else Err OverflowError).
Proof.
  unfold write_f, pack_f, fits32, fit_prefix, forallb.
  destruct (f32_of_float x) as [q|e] eqn:Hq; cbn.
  - done.
  - rewrite (f32_of_float_error _ _ Hq). by rewrite app_nil_r.
Qed.

Lemma write_rows_run (rows : list (list float)) (buf : list byte) :
  for_each_st rows write_floats buf
  = (buf ++ encode_f32s (fit_prefix (concat rows)),
     if forallb fits32 (concat rows) then Ok () else Err OverflowError).
Proof.
  revert buf. induction rows as [|row rows IH]; intros buf; cbn [for_each_st concat].
  - cbn. by rewrite app_nil_r.
  - rewrite write_floats_run, fit_prefix_app, forallb_app.
    destruct (forallb fits32 row); cbn [andb]; [|done].
    rewrite IH, encode_f32s_app. by rewrite <- app_assoc.
Qed.

Lemma pack_HHHH_run (a b c d : Z) :
  pack_HHHH a b c d
  = if fits16 a && fits16 b && fits16 c && fits16 d
    then Ok (le_bytes2 a ++ le_bytes2 b ++ le_bytes2 c ++ le_bytes2 d)
    else Err StructError.
Proof.
  unfold pack_HHHH, pack_H, fits16.
  destruct ((0 <=? a) && (a <=? 65535)); cbn; [|done].
  destruct ((0 <=? b) && (b <=? 65535)); cbn; [|done].
  destruct ((0 <=? c) && (c <=? 65535)); cbn; [|done].
  by destruct ((0 <=? d) && (d <=? 65535)).
Qed.

(** The body of the write, in closed form. *)
Lemma write_body_run (input_size hidden_size : Z) (w1 : list (list float))
  (b1 w2 : list float) (b2 : float) :
  write_body input_size hidden_size w1 b1 w2 b2
  = if fits16 input_size && fits16 hidden_size then
      let ps := parameters w1 b1 w2 b2 in
      let buf := MAGIC ++ fields input_size hidden_size
                 ++ encode_f32s (fit_prefix ps) in
      if forallb fits32 ps then check_length input_size hidden_size buf
      else (buf, Err OverflowError)
    else (MAGIC, Err StructError).
Proof.
  unfold write_body, parameters.
  rewrite (and_then_ok _ _ [] MAGIC eq_refl).
  unfold and_then at 1. unfold write_header. rewrite pack_HHHH_run.
  change (fits16 VERSION) with true. change (fits16 FLAGS) with true.
  rewrite !andb_true_r.
  destruct (fits16 input_size && fits16 hidden_size); [|done].
  fold (fields input_size hidden_size). cbv zeta.
  unfold and_then at 1. rewrite write_rows_run.
  rewrite !fit_prefix_app, !forallb_app.
  destruct (forallb fits32 (concat w1)); cbn [andb];
    [|by rewrite <- !app_assoc].
  unfold and_then at 1. rewrite write_floats_run.
  destruct (forallb fits32 b1); cbn [andb];
    [|by rewrite encode_f32s_app, <- !app_assoc].
  unfold and_then at 1. rewrite write_floats_run.
  destruct (forallb fits32 w2); cbn [andb];
    [|by rewrite !encode_f32s_app, <- !app_assoc].
  unfold and_then at 1. rewrite write_f_run.
  destruct (forallb fits32 [b2]);
    by rewrite !encode_f32s_app, <- !app_assoc.
Qed.

Lemma fit_prefix_all (xs : list float) :
  forallb fits32 xs = true ->
  Forall2 (fun x q => f32_of_float x = Ok q) xs (fit_prefix xs).
Proof.
  induction xs as [|x xs IH]; cbn [forallb fit_prefix]; [constructor|].
  unfold fits32 at 1. destruct (f32_of_float x) as [q|] eqn:Hq; [|done].
  cbn. intros H. constructor; [done|by apply IH].
Qed.

Lemma fit_prefix_short (xs : list float) :
  forallb fits32 xs = false -> (length (fit_prefix xs) < length xs)%nat.
Proof.
  induction xs as [|x xs IH]; cbn [forallb fit_prefix]; [done|].
  unfold fits32 at 1. destruct (f32_of_float x) as [q|]; cbn; [|lia].
  intros H. specialize (IH H). lia.
Qed.

Lemma forallb_fits32 (xs : list float) :
  forallb fits32 xs = true <-> Forall (fun x => exists q, f32_of_float x = Ok q) xs.
Proof.
  rewrite forallb_forall, Forall_forall. unfold fits32.
  split; intros H x Hx.
  - apply list_elem_of_In in Hx. specialize (H x Hx).
    destruct (f32_of_float x) as [q|]; [by exists q|done].
  - apply list_elem_of_In in Hx. destruct (H x Hx) as [q ->]. done.
Qed.

Lemma fits16_range (v : Z) : fits16 v = true <-> 0 <= v <= 65535.
Proof. unfold fits16. rewrite andb_true_iff, !Z.leb_le. lia. Qed.

Lemma length_fields (a b : Z) : length (fields a b) = 8%nat.
Proof. reflexivity. Qed.

Lemma length_written (a b : Z) (qs : list spec_float) :
  Z.of_nat (length (MAGIC ++ fields a b ++ encode_f32s qs))
  = 12 + Z.of_nat (length qs) * 4.
Proof.
  rewrite !length_app, length_fields, length_encode_f32s.
  change (length MAGIC) with 4%nat. lia.
Qed.

(** The write, in closed form, on a path with a directory part that names
    no directory. *)
Lemma write_snnue_run (fs : disk) (path : string)
  (input_size hidden_size : Z) (w1 : list (list float)) (b1 w2 : list float)
  (b2 : float) :
  has_dirname path = true -> names_directory path = false ->
  let ps := parameters w1 b1 w2 b2 in
  write_snnue fs path input_size hidden_size w1 b1 w2 b2
  = if fits16 input_size && fits16 hidden_size then
      (<[path := MAGIC ++ fields input_size hidden_size
                 ++ encode_f32s (fit_prefix ps)]> fs,
       if forallb fits32 ps then
         if Z.of_nat (length ps) =? float_count input_size hidden_size
         then Ok () else Err ValueError
       else Err OverflowError)
    else (<[path := MAGIC]> fs, Err StructError).
Proof.
  intros Hd Hn ps. unfold write_snnue. rewrite Hd, Hn. cbn [negb].
  rewrite write_body_run. fold ps. cbv zeta.
  destruct (fits16 input_size && fits16 hidden_size); [|done].
  destruct (forallb fits32 ps) eqn:Hfit; [|done].
  unfold check_length. rewrite length_written.
  pose proof (Forall2_length _ _ _ (fit_prefix_all _ Hfit)) as Hlen.
  rewrite <- Hlen. unfold byte_length.
  destruct (Z.eqb_spec (12 + Z.of_nat (length ps) * 4)
              (12 + float_count input_size hidden_size * 4)) as [Heq|Hne];
    destruct (Z.eqb_spec (Z.of_nat (length ps))
                (float_count input_size hidden_size)); try lia; done.
Qed.

(** With sizes and parameters that fit, and as many parameters as the
    sizes ask for, the block writes the header and the parameters and
    returns. *)
Lemma write_body_returns (input_size hidden_size : Z) (w1 : list (list float))
  (b1 w2 : list float) (b2 : float) :
  let ps := parameters w1 b1 w2 b2 in
  fits16 input_size && fits16 hidden_size = true ->
  forallb fits32 ps = true ->
  Z.of_nat (length ps) = float_count input_size hidden_size ->
  write_body input_size hidden_size w1 b1 w2 b2
  = (MAGIC ++ fields input_size hidden_size ++ encode_f32s (fit_prefix ps), Ok ()).
Proof.
  intros ps Hsizes Hfit Hcount. rewrite write_body_run. fold ps. cbv zeta.
  rewrite Hsizes, Hfit. unfold check_length. rewrite length_written.
  rewrite <- (Forall2_length _ _ _ (fit_prefix_all _ Hfit)), Hcount.
  unfold byte_length.
  by rewrite (proj2 (Z.eqb_eq _ _)) by lia.
Qed.

(** C1, as amended. A write that returns leaves at the path a file of
    exactly the expected length. On a path whose directory can be made and
    that names no directory, the file holds the bytes the block wrote,
    whatever the outcome; when every write was done (both sizes fit 16 bits
    and every parameter rounds to a binary32 value) these are the 12 bytes
    of the header and 4 for each parameter, and if their number differs from
    the expected total the write raises [ValueError]: the file stays at the
    path with all those bytes. [ValueError] is raised in no other case. *)
Theorem write_snnue_outcome (fs : disk) (path : string)
  (input_size hidden_size : Z) (w1 : list (list float)) (b1 w2 : list float)
  (b2 : float) :
  let ps := parameters w1 b1 w2 b2 in
  let out := write_snnue fs path input_size hidden_size w1 b1 w2 b2 in
  let all_written :=
    (0 <= input_size <= 65535 /\ 0 <= hidden_size <= 65535) /\
    Forall (fun x => exists q, f32_of_float x = Ok q) ps in
  (out.2 = Ok () ->
   exists bytes, out.1 !! path = Some bytes /\
     Z.of_nat (length bytes) = byte_length input_size hidden_size) /\
  (has_dirname path = true -> names_directory path = false ->
   exists bytes,
     out.1 !! path = Some bytes /\
     write_body input_size hidden_size w1 b1 w2 b2 = (bytes, out.2) /\
     (all_written ->
      Z.of_nat (length bytes) = 12 + 4 * Z.of_nat (length ps) /\
      (Z.of_nat (length bytes) ≠ byte_length input_size hidden_size ->
       out.2 = Err ValueError))) /\
  (out.2 = Err ValueError ->
   all_written /\
   exists bytes,
     out.1 !! path = Some bytes /\
     Z.of_nat (length bytes) = 12 + 4 * Z.of_nat (length ps) /\
     Z.of_nat (length bytes) ≠ byte_length input_size hidden_size).
Proof.
  cbv zeta.
  assert (((0 <= input_size <= 65535 /\ 0 <= hidden_size <= 65535) /\
           Forall (fun x => exists q, f32_of_float x = Ok q)
             (parameters w1 b1 w2 b2))
          <-> (fits16 input_size && fits16 hidden_size = true /\
               forallb fits32 (parameters w1 b1 w2 b2) = true)) as Hall.
  { by rewrite andb_true_iff, !fits16_range, forallb_fits32. }
  unfold write_snnue.
  destruct (has_dirname path); cbn [negb fst snd];
    [|split; [discriminate|split; discriminate]].
  destruct (names_directory path); cbn [fst snd];
    [split; [discriminate|split; discriminate]|].
  rewrite write_body_run. cbv zeta.
  set (ps := parameters w1 b1 w2 b2) in *. revert Hall.
  destruct (fits16 input_size && fits16 hidden_size); cbn [fst snd]; intros Hall;
    [|rewrite (lookup_insert_eq fs path);
      split; [discriminate|split; [|discriminate]];
      intros _ _; exists MAGIC; split; [done|]; split; [done|];
      intros [[=] _]%Hall].
  revert Hall.
  destruct (forallb fits32 ps) eqn:Hfit; cbn [fst snd]; intros Hall;
    [|rewrite (lookup_insert_eq fs path);
      split; [discriminate|split; [|discriminate]];
      intros _ _; eexists; split; [done|]; split; [done|];
      intros [_ [=]]%Hall].
  pose proof (Forall2_length _ _ _ (fit_prefix_all _ Hfit)) as Hlen.
  pose proof (length_written input_size hidden_size (fit_prefix ps)) as Hw.
  rewrite <- Hlen in Hw.
  unfold check_length.
  destruct (Z.eqb_spec
              (Z.of_nat (length (MAGIC ++ fields input_size hidden_size
                                 ++ encode_f32s (fit_prefix ps))))
              (byte_length input_size hidden_size)) as [Heq|Hne];
    cbn [fst snd]; rewrite (lookup_insert_eq fs path).
  - split; [intros _; eexists; split; [done|]; exact Heq|].
    split; [|discriminate].
    intros _ _. eexists. split; [done|]. split; [done|].
    intros _. split; [lia|]. intros Hne. by destruct Hne.
  - split; [discriminate|]. split.
    + intros _ _. eexists. split; [done|]. split; [done|].
      intros _. split; [lia|done].
    + intros _. split; [by apply Hall|]. eexists. split; [done|].
      split; [lia|done].
Qed.

(** With no row in [w1] all 129 parameters given are written, 528 bytes
    with the header, against the 197136 expected for 768 by 64: the write
    raises [ValueError] and the 528 bytes stay at the path. *)
Lemma write_snnue_outcome_witness :
  let out := write_snnue ∅ "weights/w.snnue" 768 64 []
               (replicate 64 0%float) (replicate 64 0%float) 0%float in
  out.2 = Err ValueError /\
  exists bytes, out.1 !! "weights/w.snnue" = Some bytes /\
                Z.of_nat (length bytes) = 528.
Proof.
  cbv zeta.
  destruct (write_snnue_outcome ∅ "weights/w.snnue" 768 64 []
              (replicate 64 0%float) (replicate 64 0%float) 0%float)
    as (_ & Hleft & _).
  cbv zeta in Hleft.
  destruct (Hleft eq_refl eq_refl) as (bytes & Hfile & _ & Hall).
  destruct Hall as [Hlen Herr].
  { split; [lia|]. apply forallb_fits32. vm_compute. reflexivity. }
  change (length (parameters [] (replicate 64 0%float) (replicate 64 0%float)
                    0%float)) with 129%nat in Hlen.
  split.
  - apply Herr. rewrite Hlen. vm_compute. discriminate.
  - exists bytes. split; [exact Hfile|]. rewrite Hlen. reflexivity.
Defined.

(** C1 as stated fails: with no row in [w1] the count is 528, not the
    197136 expected; the write raises, and the 528 bytes stay at a path
    that held no file before: the file has not the expected length, and it
    is there. *)
Lemma write_snnue_counterexample :
  let out := write_snnue ∅ "weights/w.snnue" 768 64 []
               (replicate 64 0%float) (replicate 64 0%float) 0%float in
  (∅ : disk) !! "weights/w.snnue" = None /\
  out.2 = Err ValueError /\
  (exists bytes, out.1 !! "weights/w.snnue" = Some bytes /\
                 length bytes = 528%nat) /\
  ~ ((exists bytes, out.1 !! "weights/w.snnue" = Some bytes /\
                    Z.of_nat (length bytes) = byte_length 768 64)
     \/ out.1 !! "weights/w.snnue" = None).
Proof.
  cbv zeta.
  assert (write_snnue ∅ "weights/w.snnue" 768 64 []
            (replicate 64 0%float) (replicate 64 0%float) 0%float
          = (<["weights/w.snnue" :=
                 (write_body 768 64 [] (replicate 64 0%float)
                    (replicate 64 0%float) 0%float).1]> ∅, Err ValueError))
    as -> by (vm_compute; reflexivity).
  cbn [fst snd]. rewrite lookup_insert_eq.
  split; [reflexivity|]. split; [reflexivity|]. split.
  - eexists. split; [reflexivity|]. vm_compute. reflexivity.
  - intros [(bytes & [= <-] & Hlen)|[=]]. vm_compute in Hlen. discriminate.
Qed.

Lemma length_concat_rows {A} (rows : list (list A)) (n : nat) :
  Forall (fun row => length row = n) rows ->
  length (concat rows) = (length rows * n)%nat.
Proof.
  induction 1 as [|row rows Hrow _ IH]; [done|].
  cbn. rewrite length_app, IH, Hrow. lia.
Qed.

(** The 12 bytes before the floats: the magic token and the four 16-bit
    fields 768, 64, 1, 0. *)
Definition header_768_64 : list byte :=
  ["S"; "N"; "N"; "1"; "000"; "003"; "@"; "000"; "001"; "000"; "000"; "000"]%byte.

Lemma header_bytes : write_header 768 64 MAGIC = (header_768_64, Ok ()).
Proof. vm_compute. reflexivity. Qed.

(** C5, as amended. For parameters of the shapes 768 x 64, 64, 64 whose
    values all round to binary32 values [qs] without overflow, the write
    succeeds; the file is 12 + (768*64 + 64 + 64 + 1) * 4 bytes long, and
    the bytes after the 12-byte header, read as consecutive 4-byte
    little-endian floats, are the rounded parameters in the order [w1]
    row-major, [b1], [w2], [b2]. *)
Theorem write_snnue_layout (w1 : list (list float)) (b1 w2 : list float)
  (b2 : float) (qs : list spec_float) :
  length w1 = 768%nat -> Forall (fun row => length row = 64%nat) w1 ->
  length b1 = 64%nat -> length w2 = 64%nat ->
  Forall2 (fun x q => f32_of_float x = Ok q) (concat w1 ++ b1 ++ w2 ++ [b2]) qs -> 
    exists bytes,
    write_body 768 64 w1 b1 w2 b2 = (bytes, Ok ()) /\
    (forall (fs : disk) (path : string),
       has_dirname path = true -> names_directory path = false ->
       write_snnue fs path 768 64 w1 b1 w2 b2 = (<[path := bytes]> fs, Ok ())) /\
    Z.of_nat (length bytes) = 12 + (768 * 64 + 64 + 64 + 1) * 4 /\
    take 12 bytes = header_768_64 /\
    decode_f32s (drop 12 bytes) = Some qs.
Proof.
  intros Hw1 Hrows Hb1 Hw2 Hq.
  pose proof (Forall2_length _ _ _ Hq) as Hlen.
  rewrite !length_app, (length_concat_rows w1 64 Hrows), Hw1, Hb1, Hw2 in Hlen.
  cbn [length] in Hlen.
  assert (Forall (fun q => SpecFloat.valid_binary 24 128 q = true) qs) as Hvalid.
  { apply Forall_forall. intros q Hin.
    apply list_elem_of_lookup in Hin as [i Hi].
    destruct (Forall2_lookup_r _ _ _ i q Hq Hi) as (x & _ & Hx).
    by apply f32_of_float_valid in Hx. }
  apply Forall2_app_inv_l in Hq as (q1 & qr & H1 & Hq & ->).
  apply Forall2_app_inv_l in Hq as (q2 & qr' & H2 & Hq & ->).
  apply Forall2_app_inv_l in Hq as (q3 & q4 & H3 & H4 & ->).
  assert (write_body 768 64 w1 b1 w2 b2
          = (header_768_64 ++ encode_f32s (q1 ++ q2 ++ q3 ++ q4), Ok ())) as Hbody.
  { apply Forall2_cons_inv_l in H4 as (q & qn & Hq4 & Hnil & ->).
    apply Forall2_nil_inv_l in Hnil as ->.
    unfold write_body.
    rewrite (and_then_ok _ _ [] MAGIC eq_refl).
    rewrite (and_then_ok _ _ MAGIC header_768_64 header_bytes).
    rewrite (and_then_ok _ _ _ _ (write_rows_fits w1 q1 _ H1)).
    rewrite (and_then_ok _ _ _ _ (write_floats_fits b1 q2 H2 _)).
    rewrite (and_then_ok _ _ _ _ (write_floats_fits w2 q3 H3 _)).
    rewrite (and_then_ok _ _ _ _ (write_f_fits b2 q _ Hq4)).
    rewrite <- !app_assoc, <- !encode_f32s_app.
    unfold check_length. rewrite length_app, length_encode_f32s.
    change (length header_768_64) with 12%nat. unfold byte_length, float_count.
    destruct (Z.eqb_spec (Z.of_nat (12 + 4 * length (q1 ++ q2 ++ q3 ++ [q]))) (12 + (768 * 64 + 64 + 64 + 1) * 4)) as [|Hne]; [done|].
    lia. }
  exists (header_768_64 ++ encode_f32s (q1 ++ q2 ++ q3 ++ q4)).
  split; [done|]. split; [|split; [|split]].
  - intros fs path Hd Hn. unfold write_snnue. by rewrite Hd, Hn, Hbody.
  - rewrite length_app, length_encode_f32s. change (length header_768_64) with 12%nat. lia.
  - reflexivity.
  - change (drop 12 (header_768_64 ++ ?l)) with l.
    by apply decode_encode_f32s.
Qed.
Lemma zeros_quantize (xs : list float) :
  Forall (fun x => x = 0%float) xs ->
  Forall2 (fun x q => f32_of_float x = Ok q) xs
    (replicate (length xs) (S754_zero false)).
Proof. induction 1 as [|x xs -> _ IH]; cbn; by constructor. Qed.

(** A parameter set of the right shapes, all zeros: 197136 bytes. *)
Lemma write_snnue_layout_witness :
  exists bytes,
    write_body 768 64 (replicate 768 (replicate 64 0%float))
      (replicate 64 0%float) (replicate 64 0%float) 0%float = (bytes, Ok ()) /\
    Z.of_nat (length bytes) = 197136.
Proof.
  destruct (write_snnue_layout (replicate 768 (replicate 64 0%float))
              (replicate 64 0%float) (replicate 64 0%float) 0%float
              (replicate
                 (length (concat (replicate 768 (replicate 64 0%float))
                          ++ replicate 64 0%float ++ replicate 64 0%float
                          ++ [0%float]))
                 (S754_zero false)))
    as (bytes & Hb & _ & Hl & _).
  - apply length_replicate.
  - apply Forall_replicate. apply length_replicate.
  - apply length_replicate.
  - apply length_replicate.
  - apply zeros_quantize.
    apply Forall_app_2; [|apply Forall_app_2; [|apply Forall_app_2]].
    + apply Forall_concat, Forall_replicate. by apply Forall_replicate.
    + by apply Forall_replicate.
    + by apply Forall_replicate.
    + by constructor.
  - exists bytes. split; [exact Hb | exact Hl].
Defined.

(** C5 as stated fails on a parameter too large for a binary32 value: the
    write raises [OverflowError] at the first float and leaves the 12 bytes
    of the header. *)
Lemma write_snnue_layout_counterexample :
  let w1 := (0x1p128%float :: replicate 63 0%float)
            :: replicate 767 (replicate 64 0%float) in
  let b := replicate 64 0%float in
  length w1 = 768%nat /\
  forallb (fun row => (length row =? 64)%nat) w1 = true /\
  length b = 64%nat /\
  write_snnue ∅ "weights/w.snnue" 768 64 w1 b b 0%float
  = ({[ "weights/w.snnue" := header_768_64 ]}, Err OverflowError) /\
  Z.of_nat (length header_768_64) ≠ 12 + (768 * 64 + 64 + 64 + 1) * 4.
Proof.
  cbv zeta.
  split; [vm_compute; reflexivity|]. split; [vm_compute; reflexivity|].
  split; [vm_compute; reflexivity|]. split; [vm_compute; reflexivity|].
  vm_compute. discriminate.
Qed.

End SnnueFacts.

(** * Facts about the splitter *)

Module CutoffFacts.

Import PyList Split SpecFloatFacts.

(** The mantissa of the double nearest to 0.9: ten times it is
    [9 * 2^53 + 2]. *)
Definition m9 : Z := 8106479329266893.

(** The arithmetic of [int(G * 0.9)]: the exact product [G * P * m9], cut
    to 53 digits by [K] and rounded to [m2], then truncated at [T]. *)
Lemma cutoff_arith (G P K2 T m2 : Z) :
  0 < G -> 8 <= P -> G * P < 2 ^ 53 ->
  0 < K2 <= 2 ^ 52 -> 0 < T -> T * (2 * K2) = 2 ^ 53 * P ->
  m2 = G * P * m9 / (2 * K2) \/
  (m2 = G * P * m9 / (2 * K2) + 1 /\ Z.odd (G * P * m9 / K2) = true) ->
  m2 / T = 9 * G / 10.
Proof.
  intros HG HP HGP HK HT HTK Hm2.
  set (M := G * P * m9) in *. set (N := 9 * G / 10).
  pose proof (Z.div_mod (9 * G) 10 ltac:(lia)) as Hdm. fold N in Hdm.
  pose proof (Z.mod_pos_bound (9 * G) 10 ltac:(lia)) as Hrho.
  set (rho := (9 * G) mod 10) in *.
  change (2 ^ 53) with 9007199254740992 in *.
  change (2 ^ 52) with 4503599627370496 in *.
  assert (10 * M = (10 * N + rho) * P * 9007199254740992 + 2 * (G * P)) as H10M.
  { unfold M, m9. nia. }
  set (m1 := M / (2 * K2)) in *.
  pose proof (Z.div_mod M (2 * K2) ltac:(lia)) as Hm1. fold m1 in Hm1.
  pose proof (Z.mod_pos_bound M (2 * K2) ltac:(lia)) as Hr1.
  set (r1 := M mod (2 * K2)) in *.
  assert (N * T <= m1) as Hlow.
  { destruct (Z_le_gt_dec (N * T) m1) as [|Hgt]; [done|exfalso].
    assert (2 * K2 * (m1 + 1) <= 2 * K2 * (N * T)) by (apply Z.mul_le_mono_nonneg_l; lia).
    assert (2 * K2 * (N * T) = N * (9007199254740992 * P)) by (rewrite <- HTK; ring).
    nia. }
  assert (m1 < (N + 1) * T) as Hup.
  { destruct (Z_lt_le_dec m1 ((N + 1) * T)) as [|Hge]; [done|exfalso].
    assert (2 * K2 * ((N + 1) * T) <= 2 * K2 * m1) by (apply Z.mul_le_mono_nonneg_l; lia).
    assert (2 * K2 * ((N + 1) * T) = (N + 1) * (9007199254740992 * P)) by (rewrite <- HTK; ring).
    nia. }
  assert (N * T <= m2 < (N + 1) * T) as Hm2b.
  { destruct Hm2 as [->|[-> Hodd]]; [lia|]. split; [lia|].
    destruct (Z_lt_le_dec (m1 + 1) ((N + 1) * T)) as [|Hge]; [done|exfalso].
    (* the digit shifted out is a one: [M] is at least [K2 * (2 * m1 + 1)] *)
    assert (M / K2 = 2 * m1 + 1) as Hhalf.
    { unfold m1. replace (2 * K2) with (K2 * 2) by lia.
      rewrite <- Z.div_div by lia.
      pose proof (Z.div_mod (M / K2) 2 ltac:(lia)) as Hd2.
      rewrite <- Z.bit0_mod, Z.bit0_odd, Hodd in Hd2. cbn in Hd2. lia. }
    pose proof (Z.div_mod M K2 ltac:(lia)) as HdK.
    pose proof (Z.mod_pos_bound M K2 ltac:(lia)) as HrK.
    rewrite Hhalf in HdK.
    assert (K2 * (2 * ((N + 1) * T) - 1) <= K2 * (2 * m1 + 1))
      by (apply Z.mul_le_mono_nonneg_l; lia).
    assert (K2 * (2 * ((N + 1) * T) - 1)
            = (N + 1) * (9007199254740992 * P) - K2) by (rewrite <- HTK; ring).
    nia. }
  symmetry. apply Z.div_unique with (m2 - N * T); lia.
Qed.

Lemma digits_below (g : Z) (k : Z) :
  0 < g -> 0 <= k -> g < 2 ^ k -> Zdigits2 g <= k.
Proof.
  intros Hg Hk Hlt. pose proof (Zdigits2_bounds g Hg) as [Hlo _].
  destruct (Z_le_gt_dec (Zdigits2 g) k) as [|Hgt]; [done|exfalso].
  assert (2 ^ k <= 2 ^ (Zdigits2 g - 1)) by (apply Z.pow_le_mono_r; lia). lia.
Qed.

(** The double of a length below [2^50]: the length shifted to 53 digits. *)
Lemma float_of_len_SF (n : nat) :
  (0 < n)%nat -> Z.of_nat n < 2 ^ 50 ->
  exists mz : positive,
    Z.pos mz = Z.of_nat n * 2 ^ (53 - Zdigits2 (Z.of_nat n)) /\
    Prim2SF (float_of_len n)
    = S754_finite false mz (Zdigits2 (Z.of_nat n) - 53).
Proof.
  intros Hn Hlt. unfold float_of_len. rewrite of_uint63_spec.
  rewrite Uint63.of_Z_spec, Z.mod_small
    by (change wB with (2 ^ 63); change (2 ^ 50) with 1125899906842624 in Hlt;
        change (2 ^ 63) with 9223372036854775808; lia).
  pose proof (digits_below (Z.of_nat n) 50 ltac:(lia) ltac:(lia) Hlt) as Hd.
  destruct (Z.of_nat n) as [|g|g] eqn:Hg; [lia| |lia].
  cbn [binary_normalize Zdigits2] in *. unfold binary_round, shl_align.
  set (d := Z.pos (digits2_pos g)) in *.
  assert (fexp prec emax (d + 0) = d - 53) as HF
    by (unfold fexp, SpecFloat.emin, prec, emax; lia).
  rewrite HF. destruct (d - 53 - 0) as [|q|q] eqn:Hq; [lia|lia|].
  exists (Pos.iter xO g q). split.
  { rewrite iter_xO_pow. by replace (53 - d) with (Z.pos q) by lia. }
  apply binary_round_aux_canonical; [|unfold prec, emax; lia].
  rewrite iter_xO_pow, Zdigits2_mul_pow by lia. cbn [Zdigits2]. fold d.
  unfold fexp, SpecFloat.emin, prec, emax. lia.
Qed.

Lemma nine_tenths_SF :
  Prim2SF nine_tenths = S754_finite false 8106479329266893 (-53).
Proof. reflexivity. Qed.

(** [int(n * 0.9)] is the floor of nine tenths of [n], for every length
    below [2^50]. *)
Lemma cutoff_of_floor (n : nat) :
  Z.of_nat n < 2 ^ 50 -> cutoff_of n = Ok (9 * Z.of_nat n / 10).
Proof.
  intros Hlt. unfold cutoff_of, py_int_of_float.
  rewrite mul_spec, nine_tenths_SF.
  destruct (Nat.eq_dec n 0%nat) as [->|Hn0]; [reflexivity|].
  destruct (float_of_len_SF n ltac:(lia) Hlt) as (mz & Hmz & ->).
  set (G := Z.of_nat n) in *. set (d := Zdigits2 G) in *.
  assert (0 < G) as HG by lia.
  pose proof (digits_below G 50 HG ltac:(lia) Hlt) as Hd.
  pose proof (Zdigits2_pos G HG) as Hdpos. fold d in Hdpos.
  pose proof (Zdigits2_bounds G HG) as [HGlo HGhi]. fold d in HGlo, HGhi.
  set (P := 2 ^ (53 - d)) in *.
  assert (8 <= P) as HP.
  { unfold P. change 8 with (2 ^ 3). apply Z.pow_le_mono_r; lia. }
  assert (2 ^ 52 <= G * P < 2 ^ 53) as HA.
  { assert (2 ^ (d - 1) * P = 2 ^ 52) as <-
      by (unfold P; rewrite <- Z.pow_add_r by lia; f_equal; lia).
    assert (2 ^ d * P = 2 ^ 53) as <-
      by (unfold P; rewrite <- Z.pow_add_r by lia; f_equal; lia).
    split; [apply Z.mul_le_mono_nonneg_r|apply Z.mul_lt_mono_pos_r]; lia. }
  unfold SF64mul, SFmul. cbn [xorb].
  rewrite Pos2Z.inj_mul, Hmz. fold m9.
  set (M := G * P * m9).
  assert (2 ^ 104 <= M < 2 ^ 106) as HM.
  { unfold M, m9. change (2 ^ 52) with 4503599627370496 in HA.
    change (2 ^ 53) with 9007199254740992 in HA.
    change (2 ^ 104) with 20282409603651670423947251286016.
    change (2 ^ 106) with 81129638414606681695789005144064. nia. }
  assert (0 < M) as HMpos by (change (2 ^ 104) with 20282409603651670423947251286016 in HM; lia).
  assert (Zdigits2 M = 105 \/ Zdigits2 M = 106) as HdM.
  { destruct (Z_lt_le_dec M (2 ^ 105)) as [Hlt'|Hge'].
    - left. apply Zdigits2_unique; [|lia]. change (105 - 1) with 104. lia.
    - right. apply Zdigits2_unique; [|lia]. change (106 - 1) with 105. lia. }
  set (E := d - 53 + -53).
  assert (fexp prec emax (Zdigits2 M + E) = Zdigits2 M + E - 53) as HF
    by (unfold fexp, SpecFloat.emin, prec, emax, E; lia).
  destruct (binary_round_aux_shape prec emax ltac:(unfold prec; lia) false M E
              ltac:(lia) ltac:(rewrite HF; lia))
    as (m2 & k2 & Hm2 & Hk2 & ->).
  rewrite HF in *.
  replace (Zdigits2 M + E - 53 - E) with (Zdigits2 M - 53) in Hm2 by lia.
  replace (Zdigits2 M - 53 - 1) with (Zdigits2 M - 54) in Hm2 by lia.
  set (K2 := 2 ^ (Zdigits2 M - 54)) in *.
  assert (2 ^ (Zdigits2 M - 53) = 2 * K2) as HK.
  { unfold K2. replace (Zdigits2 M - 53) with (Z.succ (Zdigits2 M - 54)) by lia.
    rewrite Z.pow_succ_r by lia. done. }
  rewrite HK in Hm2.
  assert (0 < K2 <= 2 ^ 52) as HK2.
  { unfold K2. split; [apply Z.pow_pos_nonneg; lia|].
    apply Z.pow_le_mono_r; lia. }
  set (T := 2 ^ (159 - Zdigits2 M - d)).
  assert (0 < T) as HT by (apply Z.pow_pos_nonneg; lia).
  assert (T * (2 * K2) = 2 ^ 53 * P) as HTK.
  { rewrite <- HK. unfold T, P. rewrite <- !Z.pow_add_r by lia. f_equal. lia. }
  pose proof (cutoff_arith G P K2 T m2 HG HP ltac:(lia) HK2 HT HTK Hm2) as Hres.
  (* the rounded mantissa is far from zero *)
  assert (2 ^ 51 <= m2) as Hm2lo.
  { assert (2 ^ 51 <= M / (2 * K2)); [|lia].
    apply Z.div_le_lower_bound; [lia|].
    change (2 ^ 51) with 2251799813685248.
    change (2 ^ 52) with 4503599627370496 in HK2.
    change (2 ^ 104) with 20282409603651670423947251286016 in HM. lia. }
  assert (2 ^ 50 <= m2 / 2 ^ k2) as Hm3lo.
  { apply Z.div_le_lower_bound; [destruct Hk2 as [->| ->]; done|].
    change (2 ^ 51) with 2251799813685248 in Hm2lo.
    change (2 ^ 50) with 1125899906842624. destruct Hk2 as [->| ->]; cbn; lia. }
  change (2 ^ 50) with 1125899906842624 in Hm3lo.
  destruct (m2 / 2 ^ k2) as [|q|q] eqn:Hq; [lia| |lia].
  assert ((Zdigits2 M + E - 53 + k2 <=? emax - prec) = true) as ->
    by (apply Z.leb_le; unfold emax, prec, E; lia).
  assert ((0 <=? Zdigits2 M + E - 53 + k2) = false) as ->
    by (apply Z.leb_gt; unfold E; lia).
  f_equal. rewrite <- Hres, <- Hq.
  rewrite Z.div_div by (try apply Z.pow_pos_nonneg; lia).
  rewrite <- Z.pow_add_r by (unfold E; lia).
  unfold T. do 2 f_equal. unfold E. lia.
Qed.

End CutoffFacts.

(** * Facts about the shuffle *)

Module PyRandomFacts.

Import PyRandom.

Lemma swap_Permutation {A} (x : list A) (i j : nat) : swap x i j ≡ₚ x.
Proof.
  unfold swap. destruct (x !! i) as [a|] eqn:Hi; [|done].
  destruct (x !! j) as [b|] eqn:Hj; [|done].
  by apply Permutation_insert_swap.
Qed.

Lemma shuffle_from_Permutation `{Generator} {A} (i : nat) :
  forall (x : list A) (g : rng), (shuffle_from i x g).1 ≡ₚ x.
Proof.
  induction i as [|i IH]; intros x g; cbn [shuffle_from]; [done|].
  destruct (randbelow g (S (S i))) as [j g']. rewrite IH.
  apply swap_Permutation.
Qed.

(** Whatever the generator draws, a shuffle permutes. *)
Lemma shuffle_Permutation `{Generator} {A} (x : list A) (g : rng) :
  (shuffle x g).1 ≡ₚ x.
Proof. apply shuffle_from_Permutation. Qed.

(** A linear congruential generator, for the examples; the theorems hold of
    every generator. *)
Definition lcg_step (g : Z) : Z :=
  (g * 6364136223846793005 + 1442695040888963407) mod 18446744073709551616.

#[export] Instance lcg : Generator := {|
  rng := Z;
  Random seed := seed mod 18446744073709551616;
  rng_random g :=
    ((PrimFloat.of_uint63 (Uint63.of_Z (g / 2048 mod 9007199254740992))
      / 0x1p53)%float, lcg_step g);
  randbelow g n := (Z.to_nat (g / 65536 mod Z.of_nat n), lcg_step g)
|}.

#[export] Instance lcg_laws : GeneratorLaws lcg.
Proof.
  constructor. intros g n Hn. cbn.
  pose proof (Z.mod_pos_bound (g / 65536) (Z.of_nat n) ltac:(lia)). lia.
Qed.

End PyRandomFacts.

Module SplitFacts.

Import PyList PyRandom PyRandomFacts Loader Split CutoffFacts.

(** Two iteration orders for the examples: first occurrence first, and
    last. *)
#[export] Instance first_seen : SetOrder := {| set_iter := remove_dups |}.

#[export] Instance first_seen_laws : SetOrderLaws first_seen.
Proof.
  constructor; cbn; [apply NoDup_remove_dups|apply elem_of_remove_dups].
Qed.

Definition last_seen : SetOrder := {| set_iter l := reverse (remove_dups l) |}.

Lemma last_seen_laws : SetOrderLaws last_seen.
Proof.
  constructor; cbn.
  - intros l. rewrite reverse_Permutation. apply NoDup_remove_dups.
  - intros l x. rewrite elem_of_reverse. apply elem_of_remove_dups.
Qed.

(** [sorted] does away with the iteration order of the set. *)
Lemma sorted_set_iter (O1 O2 : SetOrder) `{!SetOrderLaws O1} `{!SetOrderLaws O2}
  (l : list Z) :
  sorted (@set_iter O1 l) = sorted (@set_iter O2 l).
Proof.
  unfold sorted. apply (Sorted_unique Z.le).
  - apply Sorted_merge_sort. apply _.
  - apply Sorted_merge_sort. apply _.
  - rewrite !merge_sort_Permutation.
    apply NoDup_Permutation; [apply set_iter_NoDup..|].
    intros x. by rewrite !set_iter_elem.
Qed.

Section Split.

Context `{G : Generator} `{O : SetOrder} `{!SetOrderLaws O}.

(** The games of a split, in shuffled order. *)
Definition shuffled_games (samples : list Sample) (seed : Z) : list Z :=
  (shuffle (sorted (set_iter (gameId <$> samples))) (Random seed)).1.

Lemma shuffled_games_Permutation (samples : list Sample) (seed : Z) :
  shuffled_games samples seed ≡ₚ set_iter (gameId <$> samples).
Proof.
  unfold shuffled_games, sorted.
  by rewrite shuffle_Permutation, merge_sort_Permutation.
Qed.

Lemma shuffled_games_NoDup (samples : list Sample) (seed : Z) :
  NoDup (shuffled_games samples seed).
Proof. rewrite shuffled_games_Permutation. apply set_iter_NoDup. Qed.

Lemma shuffled_games_elem (samples : list Sample) (seed : Z) (g : Z) :
  g ∈ shuffled_games samples seed <-> exists s, s ∈ samples /\ gameId s = g.
Proof.
  rewrite shuffled_games_Permutation, set_iter_elem, list_elem_of_fmap.
  split; intros (s & ? & ?); exists s; done.
Qed.

Lemma shuffled_games_length (samples : list Sample) (seed : Z) :
  (length (shuffled_games samples seed) <= length samples)%nat.
Proof.
  rewrite <- (length_fmap gameId samples).
  apply submseteq_length, NoDup_submseteq; [apply shuffled_games_NoDup|].
  intros g Hg. apply shuffled_games_elem in Hg as (s & Hs & <-).
  by apply list_elem_of_fmap_2.
Qed.

Lemma filter_partition {A} (f : A -> bool) (l : list A) :
  filter (fun x => f x = true) l ++ filter (fun x => f x = false) l ≡ₚ l.
Proof.
  induction l as [|x l IH]; [done|].
  destruct (f x) eqn:Hx.
  - rewrite filter_cons_True, filter_cons_False by congruence. cbn. by f_equiv.
  - rewrite filter_cons_False, filter_cons_True by congruence.
    rewrite <- Permutation_middle. by f_equiv.
Qed.

(** C6. For a sample list of fewer than [2^50] entries, the splitter takes
    the distinct game identifiers in shuffled order, puts the first
    [floor(0.9 * G)] of the [G] games in the training group, sends every
    sample of such a game to the train set and every other sample to the
    validation set; the two sets partition the samples and share no game. *)
Theorem split_by_game_spec (samples : list Sample) (seed : Z) :
  Z.of_nat (length samples) < 2 ^ 50 ->
  let games := shuffled_games samples seed in
  let train_games := take (Z.to_nat (9 * Z.of_nat (length games) / 10)) games in
  NoDup games /\
  (forall g, g ∈ games <-> exists s, s ∈ samples /\ gameId s = g) /\
  exists train val,
    split_by_game samples seed = Ok (train, val) /\
    train = filter (fun s => gameId s ∈ train_games) samples /\
    val = filter (fun s => gameId s ∉ train_games) samples /\
    train ++ val ≡ₚ samples /\
    (forall s t, s ∈ train -> t ∈ val -> gameId s ≠ gameId t).
Proof.
  intros Hlen games train_games.
  split; [apply shuffled_games_NoDup|]. split; [apply shuffled_games_elem|].
  pose proof (shuffled_games_length samples seed) as Hle. fold games in Hle.
  assert (cutoff_of (length games) = Ok (9 * Z.of_nat (length games) / 10))
    as Hcut by (apply cutoff_of_floor; lia).
  assert (0 <= 9 * Z.of_nat (length games) / 10) as Hnn
    by (apply Z.div_pos; lia).
  exists (filter (fun s => in_games train_games s = true) samples),
         (filter (fun s => in_games train_games s = false) samples).
  split; [|split; [|split; [|split]]].
  - unfold split_by_game. fold (shuffled_games samples seed). fold games.
    rewrite Hcut. cbn. unfold py_take.
    destruct (Z.ltb_spec (9 * Z.of_nat (length games) / 10) 0); [lia|done].
  - apply list_filter_iff. intros s. unfold in_games.
    by rewrite bool_decide_eq_true.
  - apply list_filter_iff. intros s. unfold in_games.
    by rewrite bool_decide_eq_false.
  - apply filter_partition.
  - intros s t Hs Ht Heq.
    apply list_elem_of_filter in Hs as [Hs _].
    apply list_elem_of_filter in Ht as [Ht _]. unfold in_games in *.
    apply bool_decide_eq_true in Hs. apply bool_decide_eq_false in Ht.
    by rewrite Heq in Hs.
Qed.

(** A list whose samples all belong to one game. *)
Lemma single_game_games (samples : list Sample) (seed g : Z) :
  samples ≠ [] -> (forall s, s ∈ samples -> gameId s = g) ->
  shuffled_games samples seed = [g].
Proof.
  intros Hne Hall.
  pose proof (shuffled_games_NoDup samples seed) as Hnd.
  pose proof (shuffled_games_elem samples seed) as Hel.
  destruct samples as [|s0 samples]; [done|].
  destruct (shuffled_games (s0 :: samples) seed) as [|a [|b l]] eqn:Hg.
  - exfalso. eapply not_elem_of_nil, (Hel (gameId s0)). exists s0. split; [left|done].
  - f_equal. destruct (proj1 (Hel a) ltac:(left)) as (s & Hs & <-). by apply Hall.
  - exfalso. apply NoDup_cons in Hnd as [Hnd _]. apply Hnd.
    destruct (proj1 (Hel a) ltac:(left)) as (s & Hs & <-).
    destruct (proj1 (Hel b) ltac:(right; left)) as (t & Ht & <-).
    rewrite (Hall s Hs), (Hall t Ht). left.
Qed.

Lemma split_single_game (samples : list Sample) (seed g : Z) :
  samples ≠ [] -> (forall s, s ∈ samples -> gameId s = g) ->
  split_by_game samples seed = Ok ([], samples).
Proof.
  intros Hne Hall. unfold split_by_game.
  fold (shuffled_games samples seed).
  rewrite (single_game_games samples seed g Hne Hall).
  change (cutoff_of (length [g])) with (Ok (A := Z) 0). cbn.
  change (take (Z.to_nat 0) [g]) with (@nil Z).
  clear. induction samples as [|s samples IH]; [done|].
  rewrite filter_cons_False, filter_cons_True by done.
  by injection IH as -> ->.
Qed.

End Split.

(** Twelve samples of ten games. *)
Definition sample_of_game (g : Z) : Sample :=
  {| features := []; label := 0; label16 := None; gameId := g |}.

Definition twelve_samples : list Sample :=
  sample_of_game <$> [1; 2; 3; 4; 5; 6; 7; 8; 9; 10; 3; 7].

(** On the twelve samples the split returns, partitions, and keeps the
    games apart. *)
Lemma split_by_game_spec_witness :
  exists train val,
    split_by_game (H := lcg) (H0 := first_seen) twelve_samples 1337
    = Ok (train, val) /\
    train ++ val ≡ₚ twelve_samples /\
    (forall s t, s ∈ train -> t ∈ val -> gameId s ≠ gameId t).
Proof.
  destruct (split_by_game_spec (G := lcg) (O := first_seen) twelve_samples 1337
              ltac:(vm_compute; reflexivity))
    as (_ & _ & train & val & Hrun & _ & _ & Hperm & Hapart).
  exists train, val. split; [exact Hrun|]. split; [exact Hperm|exact Hapart].
Defined.

End SplitFacts.

(** * The order of the doubles *)

Module FloatOrder.

(** A key whose lexicographic order is the order of the doubles; NaN has
    none. *)
Definition key (x : spec_float) : option (Z * Z * Z) :=
  match x with
  | S754_nan => None
  | S754_zero _ => Some (0, 0, 0)
  | S754_infinity s => Some (if s then -2 else 2, 0, 0)
  | S754_finite s m e =>
      Some (if s then (-1, - e, - Z.pos m) else (1, e, Z.pos m))
  end.

Definition lex_lt (a b : Z * Z * Z) : Prop :=
  let '(a1, a2, a3) := a in
  let '(b1, b2, b3) := b in
  a1 < b1 \/ (a1 = b1 /\ (a2 < b2 \/ (a2 = b2 /\ a3 < b3))).

Lemma SFltb_key (x y : spec_float) :
  SFltb x y = true <->
  exists a b, key x = Some a /\ key y = Some b /\ lex_lt a b.
Proof.
  unfold SFltb.
  destruct x as [sx|sx| |sx mx ex], y as [sy|sy| |sy my ey]; cbn [SFcompare key];
    try (split; [discriminate|intros (a & b & Ha & Hb & _); discriminate]);
    try (destruct sx); try (destruct sy);
    try (split; [intros _; do 2 eexists; do 2 (split; [reflexivity|]); cbn; lia
                |reflexivity]);
    try (split; [discriminate
                |intros (a & b & [= <-] & [= <-] & Hl); cbn in Hl; lia]).
  - destruct (Z.compare_spec ex ey) as [->|Hlt|Hgt].
    + change (Pos.compare_cont Eq mx my) with (Pos.compare mx my).
      destruct (Pos.compare_spec mx my) as [->|Hm|Hm]; cbn;
        (split; [try discriminate; intros _; do 2 eexists;
                 do 2 (split; [reflexivity|]); cbn; lia
                |try reflexivity;
                 intros (a & b & [= <-] & [= <-] & Hl); cbn in Hl; lia]).
    + split; [discriminate|intros (a & b & [= <-] & [= <-] & Hl); cbn in Hl; lia].
    + split; [intros _; do 2 eexists; do 2 (split; [reflexivity|]); cbn; lia
             |reflexivity].
  - destruct (Z.compare_spec ex ey) as [->|Hlt|Hgt].
    + change (Pos.compare_cont Eq mx my) with (Pos.compare mx my).
      destruct (Pos.compare_spec mx my) as [->|Hm|Hm]; cbn;
        (split; [try discriminate; intros _; do 2 eexists;
                 do 2 (split; [reflexivity|]); cbn; lia
                |try reflexivity;
                 intros (a & b & [= <-] & [= <-] & Hl); cbn in Hl; lia]).
    + split; [intros _; do 2 eexists; do 2 (split; [reflexivity|]); cbn; lia
             |reflexivity].
    + split; [discriminate|intros (a & b & [= <-] & [= <-] & Hl); cbn in Hl; lia].
Qed.

Local Open Scope float_scope.

Lemma ltb_irrefl (x : float) : (x <? x) = false.
Proof.
  destruct (x <? x) eqn:H; [|done]. rewrite ltb_spec in H.
  apply SFltb_key in H as (a & b & Ha & Hb & Hl).
  rewrite Ha in Hb. injection Hb as <-.
  destruct a as [[a1 a2] a3]. cbn in Hl. lia.
Qed.

Lemma ltb_trans (x y z : float) :
  (x <? y) = true -> (y <? z) = true -> (x <? z) = true.
Proof.
  rewrite !ltb_spec. intros H1 H2.
  apply SFltb_key in H1 as (a & b & Ha & Hb & Hab).
  apply SFltb_key in H2 as (b' & c & Hb' & Hc & Hbc).
  rewrite Hb in Hb'. injection Hb' as <-.
  apply SFltb_key. exists a, c. split; [done|]. split; [done|].
  destruct a as [[a1 a2] a3], b as [[b1 b2] b3], c as [[c1 c2] c3].
  cbn in *. lia.
Qed.

(** What is strictly below some double is strictly below [+infinity]. *)
Lemma ltb_below_infinity (x y : float) :
  (x <? y) = true -> (x <? infinity) = true.
Proof.
  rewrite !ltb_spec. change (Prim2SF infinity) with (S754_infinity false).
  intros H. apply SFltb_key in H as (a & b & Ha & Hb & Hl).
  apply SFltb_key. exists a, (2, 0, 0)%Z. split; [done|]. split; [done|].
  destruct (Prim2SF x) as [sx|sx| |sx mx ex], (Prim2SF y) as [sy|sy| |sy my ey];
    cbn [key] in Ha, Hb; try discriminate;
    injection Ha as <-; injection Hb as <-;
    try (destruct sx); try (destruct sy); cbn in *; lia.
Qed.

End FloatOrder.

(** * Facts about the training loop *)

Module TrainerFacts.

Import PyList Model Trainer FloatOrder.

Local Open Scope float_scope.

Section LoopFacts.

Context {Params Snap : Type}.
Variable learn_epoch : Params -> result (Params * float).
Variable validation_loss : Params -> result float.
Variable snapshot : Params -> Snap.
Variable restore : Snap -> Params -> Params.
Variables patience minEpochs : Z.

Abbreviation step :=
  (epoch_step learn_epoch validation_loss snapshot patience minEpochs).
Abbreviation run :=
  (run_epochs learn_epoch validation_loss snapshot patience minEpochs).

(** The parameters after [k] epochs of training. *)
Fixpoint after_epochs (k : nat) (m : Params) : result Params :=
  match k with
  | O => Ok m
  | S k' => m' ← after_epochs k' m; '(m'', _) ← learn_epoch m'; Ok m''
  end.

(** The states from which the loop starts an epoch. *)
Inductive reachable (m0 : Params) : LoopState -> Prop :=
| reach_start : reachable m0 (loop_start patience m0)
| reach_step (epoch : Z) (st st' : LoopState) :
    reachable m0 st -> step epoch st = Ok (st', false) -> reachable m0 st'.

(** What one epoch does to the state. *)
Definition step_effect (epoch : Z) (st st' : LoopState) (stop : bool) : Prop :=
  exists m train_loss val_loss,
    learn_epoch (model st) = Ok (m, train_loss) /\
    validation_loss m = Ok val_loss /\
    model st' = m /\
    history st' = history st ++ [(epoch + 1, train_loss, val_loss)%Z] /\
    if val_loss <? best_val st then
      patience_left st' = patience /\ best_val st' = val_loss /\
      best_epoch st' = (epoch + 1)%Z /\
      best_snapshot st' = Some (snapshot m) /\ stop = false
    else
      best_val st' = best_val st /\ best_epoch st' = best_epoch st /\
      best_snapshot st' = best_snapshot st /\
      if (minEpochs <=? epoch + 1)%Z then
        patience_left st' = (patience_left st - 1)%Z /\
        stop = (patience_left st' <=? 0)%Z
      else
        patience_left st' = patience_left st /\ stop = false.

Lemma step_spec (epoch : Z) (st st' : LoopState) (stop : bool) :
  step epoch st = Ok (st', stop) -> step_effect epoch st st' stop.
Proof.
  unfold epoch_step, step_effect.
  destruct (learn_epoch (model st)) as [[m tl]|] eqn:Hl; [|discriminate]. cbn.
  destruct (validation_loss m) as [v|] eqn:Hv; [|discriminate]. cbn.
  intros Hrun. exists m, tl, v. do 2 (split; [done|]).
  destruct (v <? best_val st).
  - by injection Hrun as <- <-.
  - destruct (minEpochs <=? epoch + 1)%Z; by injection Hrun as <- <-.
Qed.

(** With a patience of at least one, the counter is at least one whenever
    an epoch starts. *)
Lemma reachable_patience (m0 : Params) (st : LoopState) :
  (1 <= patience)%Z -> reachable m0 st -> (1 <= patience_left st)%Z.
Proof.
  intros Hp. induction 1 as [|epoch st st' _ IH Hstep]; [done|].
  apply step_spec in Hstep as (m & tl & v & _ & _ & _ & _ & Hcase).
  destruct (v <? best_val st).
  - destruct Hcase as (-> & _). done.
  - destruct Hcase as (_ & _ & _ & Hcase).
    destruct (minEpochs <=? epoch + 1)%Z; destruct Hcase as [Hl Hs]; [|lia].
    symmetry in Hs. apply Z.leb_gt in Hs. lia.
Qed.

Lemma stop_iff_zero (m0 : Params) (epoch : Z) (st st' : LoopState) (stop : bool) :
  (1 <= patience)%Z -> reachable m0 st -> step epoch st = Ok (st', stop) ->
  (stop = true <-> patience_left st' = 0%Z).
Proof.
  intros Hp Hr Hstep. pose proof (reachable_patience m0 st Hp Hr) as Hl.
  apply step_spec in Hstep as (m & tl & v & _ & _ & _ & _ & Hcase).
  destruct (v <? best_val st).
  - destruct Hcase as (-> & _ & _ & _ & ->). split; [done|lia].
  - destruct Hcase as (_ & _ & _ & Hcase).
    destruct (minEpochs <=? epoch + 1)%Z; destruct Hcase as [Hl' ->].
    + rewrite Z.leb_le. lia.
    + split; [done|lia].
Qed.

(** What holds of the state after [k] epochs from [m0]. *)
Record loop_inv (m0 : Params) (k : nat) (st : LoopState) : Prop := {
  inv_model : after_epochs k m0 = Ok (model st);
  inv_length : length (history st) = k;
  inv_least : forall e tl v, (e, tl, v) ∈ history st -> (v <? best_val st) = false;
  inv_best :
    match best_snapshot st with
    | Some s =>
        exists kb mb tl,
          best_epoch st = Z.of_nat kb /\ (1 <= kb <= k)%nat /\
          after_epochs kb m0 = Ok mb /\ s = snapshot mb /\
          (best_epoch st, tl, best_val st) ∈ history st /\
          (best_val st <? infinity) = true
    | None => best_val st = infinity
    end;
  inv_history : forall j e tl v,
    history st !! j = Some (e, tl, v) ->
    e = (Z.of_nat j + 1)%Z /\
    exists mj mj',
      after_epochs j m0 = Ok mj /\ learn_epoch mj = Ok (mj', tl) /\
      validation_loss mj' = Ok v
}.

Lemma loop_inv_start (m0 : Params) : loop_inv m0 0 (loop_start patience m0).
Proof.
  constructor; cbn; try done. intros e tl v Hin. by apply elem_of_nil in Hin.
Qed.

Lemma loop_inv_step (m0 : Params) (k : nat) (st st' : LoopState) (stop : bool) :
  loop_inv m0 k st -> step (Z.of_nat k) st = Ok (st', stop) ->
  loop_inv m0 (S k) st'.
Proof.
  intros [Hmodel Hlen Hleast Hbest Hentries] Hstep.
  apply step_spec in Hstep as (m & tl & v & Hlearn & Hval & Hm & Hhist & Hcase).
  assert (after_epochs (S k) m0 = Ok m) as Hafter.
  { cbn [after_epochs]. rewrite Hmodel. cbn. by rewrite Hlearn. }
  constructor.
  - by rewrite Hm.
  - rewrite Hhist, length_app, Hlen. cbn. lia.
  - intros e tl' v' Hin. rewrite Hhist in Hin.
    apply elem_of_app in Hin as [Hin|Hin%list_elem_of_singleton].
    + specialize (Hleast e tl' v' Hin).
      destruct (v <? best_val st) eqn:Himp.
      * destruct Hcase as (_ & -> & _).
        destruct (v' <? v) eqn:Hlt; [|done].
        by rewrite (ltb_trans v' v (best_val st) Hlt Himp) in Hleast.
      * destruct Hcase as (-> & _). done.
    + injection Hin as -> -> ->. destruct (v <? best_val st) eqn:Himp.
      * destruct Hcase as (_ & -> & _). apply ltb_irrefl.
      * destruct Hcase as (-> & _). done.
  - destruct (v <? best_val st) eqn:Himp.
    + destruct Hcase as (_ & -> & -> & -> & _).
      exists (S k), m, tl. split; [lia|]. split; [lia|]. split; [done|].
      split; [done|]. split; [|by eapply ltb_below_infinity].
      rewrite Hhist. apply elem_of_app. right. left.
    + destruct Hcase as (-> & -> & -> & _).
      destruct (best_snapshot st) as [s|]; [|done].
      destruct Hbest as (kb & mb & tlb & ? & ? & ? & ? & Hin & ?).
      exists kb, mb, tlb. split; [done|]. split; [lia|]. split; [done|].
      split; [done|]. split; [|done]. rewrite Hhist. apply elem_of_app. by left.
  - intros j e tl' v' Hj. rewrite Hhist in Hj.
    destruct (decide (j < length (history st))%nat) as [Hlt|Hge].
    + rewrite lookup_app_l in Hj by done. by apply Hentries.
    + rewrite lookup_app_r in Hj by lia.
      destruct (j - length (history st))%nat as [|d] eqn:Hd; [|done].
      injection Hj as <- <- <-.
      assert (j = k) as -> by lia. split; [done|].
      exists (model st), m. done.
Qed.

(** The loop from epoch [k]: where it ends, the invariant holds of the
    epochs run, the flag tells whether the counter ran out, and without a
    stop every epoch was run. *)
Lemma run_spec (m0 : Params) (n : nat) :
  forall (k : nat) (st st' : LoopState) (stopped : bool),
    loop_inv m0 k st -> reachable m0 st ->
    run (Z.of_nat <$> seq k n) st = Ok (st', stopped) ->
    exists k', loop_inv m0 k' st' /\
      (stopped = false -> k' = (k + n)%nat) /\
      ((1 <= patience)%Z -> (stopped = true <-> patience_left st' = 0%Z)).
Proof.
  induction n as [|n IH]; intros k st st' stopped Hinv Hreach Hrun.
  - cbn in Hrun. injection Hrun as <- <-. exists k. split; [done|].
    split; [lia|]. intros Hp. pose proof (reachable_patience m0 st Hp Hreach).
    split; [done|lia].
  - cbn [seq fmap list_fmap run_epochs] in Hrun.
    destruct (step (Z.of_nat k) st) as [[st1 stop]|] eqn:Hstep; [|discriminate].
    cbn in Hrun. pose proof (loop_inv_step m0 k st st1 stop Hinv Hstep) as Hinv1.
    destruct stop.
    + injection Hrun as <- <-. exists (S k). split; [done|]. split; [done|].
      intros Hp. by apply (stop_iff_zero m0 (Z.of_nat k) st).
    + destruct (IH (S k) st1 st' stopped Hinv1
                  (reach_step m0 _ _ _ Hreach Hstep) Hrun)
        as (k' & Hinv' & Hk' & Hstop).
      exists k'. split; [done|]. split; [|done]. intros Hs. rewrite (Hk' Hs). lia.
Qed.

(** The loop from its start, for any learner: how it ends. *)
Lemma loop_outcome (epochs : Z) (m0 : Params) (st : LoopState) (stopped : bool) :
  training_loop learn_epoch validation_loss snapshot patience minEpochs
    epochs m0 = Ok (st, stopped) ->
  loop_inv m0 (length (history st)) st /\
  (stopped = false -> length (history st) = Z.to_nat epochs) /\
  ((1 <= patience)%Z -> (stopped = true <-> patience_left st = 0%Z)).
Proof.
  intros Hrun. unfold training_loop, range in Hrun.
  destruct (run_spec m0 _ 0 _ st stopped (loop_inv_start m0) (reach_start m0) Hrun)
    as (k' & Hinv & Hk' & Hstop).
  pose proof (inv_length _ _ _ Hinv) as Hlen. rewrite Hlen.
  split; [done|]. split; [|done]. intros Hs. rewrite (Hk' Hs). lia.
Qed.

End LoopFacts.

(** The snapshot of a model, restored into any model of the loop, gives the
    four parameters the snapshot was taken of. *)
Lemma restore_snapshot_parameters (mb m : NnueModel) :
  let final := restore_snapshot (take_snapshot mb) m in
  w1 final = w1 mb /\ b1 final = b1 mb /\ w2 final = w2 mb /\ b2 final = b2 mb /\
  input_size final = input_size m /\ hidden_size final = hidden_size m.
Proof. by repeat split. Qed.

(** C3, as amended. The loop of [main], with its snapshot and its
    restoration, for any learner and any validation losses. The counter is
    decremented only on an epoch whose validation loss is not strictly below
    the best so far and whose number is at least [minEpochs]; it is reset to
    [patience] on every strict improvement; the loop stops exactly when a
    decrement leaves the counter at or below zero, which for a patience of
    at least one is exactly when the counter reaches zero. At the end, when
    some epoch improved on [+infinity], [w1], [b1], [w2] and [b2] of the
    final model are those of the model after the epoch [best_epoch], whose
    validation loss is below [+infinity] and no epoch run is strictly below;
    when none did, the final model is the live one. *)
Theorem early_stopping
  (learn_epoch : NnueModel -> result (NnueModel * float))
  (validation_loss : NnueModel -> result float)
  (patience minEpochs epochs : Z) (m0 : NnueModel) :
  (forall epoch st st' stop,
     epoch_step learn_epoch validation_loss take_snapshot patience minEpochs
       epoch st = Ok (st', stop) ->
     step_effect learn_epoch validation_loss take_snapshot patience minEpochs
       epoch st st' stop) /\
  (forall epoch st st' stop,
     (1 <= patience)%Z ->
     reachable learn_epoch validation_loss take_snapshot patience minEpochs
       m0 st ->
     epoch_step learn_epoch validation_loss take_snapshot patience minEpochs
       epoch st = Ok (st', stop) ->
     (stop = true <-> patience_left st' = 0%Z)) /\
  (forall st stopped,
     training_loop learn_epoch validation_loss take_snapshot patience minEpochs
       epochs m0 = Ok (st, stopped) ->
     let final := final_model restore_snapshot st in
     ((1 <= patience)%Z -> (stopped = true <-> patience_left st = 0%Z)) /\
     (stopped = false -> length (history st) = Z.to_nat epochs) /\
     after_epochs learn_epoch (length (history st)) m0 = Ok (model st) /\
     (forall e tl v, (e, tl, v) ∈ history st -> (v <? best_val st) = false) /\
     input_size final = input_size (model st) /\
     hidden_size final = hidden_size (model st) /\
     match best_snapshot st with
     | Some _ =>
         exists kb mb tl,
           best_epoch st = Z.of_nat kb /\
           (1 <= kb <= length (history st))%nat /\
           after_epochs learn_epoch kb m0 = Ok mb /\
           (best_epoch st, tl, best_val st) ∈ history st /\
           (best_val st <? infinity) = true /\
           w1 final = w1 mb /\ b1 final = b1 mb /\
           w2 final = w2 mb /\ b2 final = b2 mb
     | None =>
         final = model st /\ best_val st = infinity /\
         forall e tl v, (e, tl, v) ∈ history st -> (v <? infinity) = false
     end).
Proof.
  split; [apply step_spec|]. split; [apply stop_iff_zero|].
  intros st stopped Hrun final.
  destruct (loop_outcome _ _ _ _ _ _ _ _ _ Hrun)
    as ([Hmodel Hlen Hleast Hbest _] & Hall & Hstop).
  split; [done|]. split; [done|]. split; [done|]. split; [done|].
  subst final. unfold final_model.
  destruct (best_snapshot st) as [s|].
  - destruct Hbest as (kb & mb & tl & Hkb & Hrange & Hmb & -> & Hin & Hlt).
    destruct (restore_snapshot_parameters mb (model st))
      as (? & ? & ? & ? & ? & ?).
    split; [done|]. split; [done|].
    exists kb, mb, tl. by repeat (split; [done|]).
  - split; [done|]. split; [done|]. split; [done|]. split; [done|].
    intros e tl v Hin. rewrite <- Hbest. by eapply Hleast.
Qed.

(** *** The loop on a scripted learner

    A learner that appends the number of the epoch to [b1] and stores it in
    [b2], and whose validation loss after epoch [k] is the [k]-th of a
    list. *)

Definition scripted_start : NnueModel :=
  {| input_size := 0; hidden_size := 0; w1 := []; b1 := []; w2 := []; b2 := 0 |}.

Definition scripted_learn (m : NnueModel) : result (NnueModel * float) :=
  Ok (set_b2 (b2 m + 1) (set_b1 (b1 m ++ [b2 m + 1]) m), 0).

Definition scripted_loss (losses : list float) (m : NnueModel) : result float :=
  of_option IndexError (losses !! (length (b1 m) - 1)%nat).

Definition scripted_loop (losses : list float) (patience minEpochs epochs : Z)
  : result (LoopState (P := NnueModel) (S := Snapshot) * bool) :=
  training_loop scripted_learn (scripted_loss losses) take_snapshot patience
    minEpochs epochs scripted_start.

(** Two improving epochs, then a plateau: with a patience of 2 and 3 minimum
    epochs the loop halts after epoch 4, with the counter at zero. The live
    model is the one of epoch 4; the final one has the parameters of
    epoch 2. *)
Lemma early_stopping_witness :
  exists st,
    scripted_loop [3; 2; 2; 2; 2; 2] 2 3 6 = Ok (st, true) /\
    patience_left st = 0%Z /\
    length (history st) = 4%nat /\
    b1 (model st) = [1; 2; 3; 4] /\ b2 (model st) = 4 /\
    b1 (final_model restore_snapshot st) = [1; 2] /\
    b2 (final_model restore_snapshot st) = 2.
Proof.
  destruct (scripted_loop [3; 2; 2; 2; 2; 2] 2 3 6) as [[st stopped]|] eqn:Hrun;
    [|exfalso; vm_compute in Hrun; discriminate].
  destruct (early_stopping scripted_learn (scripted_loss [3; 2; 2; 2; 2; 2])
              2 3 6 scripted_start) as (_ & _ & Hend).
  specialize (Hend st stopped Hrun). cbv zeta in Hend.
  destruct Hend as (Hstop & _ & Hlive & _ & _ & _ & Hbest).
  assert (stopped = true /\ patience_left st = 0%Z /\
          length (history st) = 4%nat /\ best_epoch st = 2%Z /\
          is_Some (best_snapshot st)) as (-> & Hleft & Hlen & Hbe & [s Hs]).
  { vm_compute in Hrun. injection Hrun as <- <-. by repeat split. }
  exists st. split; [reflexivity|]. split; [exact Hleft|]. split; [exact Hlen|].
  rewrite Hlen in Hlive. injection Hlive as <-.
  split; [reflexivity|]. split; [reflexivity|].
  rewrite Hs in Hbest. destruct Hbest as (kb & mb & tl & Hkb & _ & Hmb & _ & _ & _ & Hb1 & _ & Hb2).
  rewrite Hbe in Hkb. assert (kb = 2%nat) as -> by lia.
  injection Hmb as <-. split; [exact Hb1|exact Hb2].
Defined.

(** C3 as stated fails for a patience of zero: after the first epoch the
    counter is at zero and the loop goes on, through all three epochs. It
    also fails when no loss is below [+infinity]: no snapshot is taken, and
    the final parameters are those of the last epoch. *)
Lemma early_stopping_counterexample :
  (exists st,
     epoch_step scripted_learn (scripted_loss [3; 2; 1]) take_snapshot 0 5 0
       (loop_start 0 scripted_start) = Ok (st, false) /\
     patience_left st = 0%Z) /\
  (exists st,
     scripted_loop [3; 2; 1] 0 5 3 = Ok (st, false) /\
     patience_left st = 0%Z /\ length (history st) = 3%nat) /\
  (exists st,
     scripted_loop [nan; infinity] 2 5 2 = Ok (st, false) /\
     best_snapshot st = None /\
     final_model restore_snapshot st = model st /\ b2 (model st) = 2).
Proof.
  split; [|split]; eexists; (split; [vm_compute; reflexivity|]);
    repeat split.
Qed.

End TrainerFacts.

(** * Facts about the loader *)

Module LoaderFacts.

Import PyList PyRandom PyRandomFacts Loader.











(** A dataset of one row, evaluated at 120 centipawns in a game the
    engine plays as the second side. *)
Definition one_row : Row :=
  {| row_gameId := Some 1; row_runId := Some "run-a";
     row_timeoutNearby := false; row_evalCp := Some (PyInt 120);
     row_mateIn := None;
     row_fen := Some "rnbqkbnr/pppppppp/8/8/8/8/PPPPPPPP/RNBQKBNR w KQkq - 0 1";
     row_evalCp16 := Some (PyInt 118) |}.

Definition one_row_files : Files :=
  {| run_summary := fun _ => None;
     annotated := fun run_id game_id =>
       if String.eqb run_id "run-a" && (game_id =? 1)
       then Some (Some "b") else None |}.


End LoaderFacts.

(** * Facts about the run *)

Module PipelineFacts.

Import PyList PyRandom PyRandomFacts Loader Split SplitFacts Model Trainer
  TrainerFacts FloatOrder Snnue SnnueFacts Pipeline.

Lemma restore_take_snapshot (m : NnueModel) :
  restore_snapshot (take_snapshot m) m = m.
Proof. by destruct m. Qed.

(** An epoch over no samples returns the model it was given. *)
Lemma train_epoch_nil (lr delta : float) (m : NnueModel) :
  train_epoch [] lr delta m = Ok (m, (0 / float_of_len 1)%float).
Proof. reflexivity. Qed.

Lemma after_epochs_fixed {Params : Type}
  (learn : Params -> result (Params * float)) (m : Params) (loss : float) :
  learn m = Ok (m, loss) -> forall k, after_epochs learn k m = Ok m.
Proof.
  intros Hfix. induction k as [|k IH]; [done|].
  cbn [after_epochs]. rewrite IH. cbn. by rewrite Hfix.
Qed.

(** With an empty train set the fit ends on the parameters it began with. *)
Lemma fit_nil `{Generator} (args : Args) (val : list Sample)
  (st : LoopState) (stopped : bool) :
  fit args [] val = Ok (st, stopped) ->
  model st = init_model INPUT_SIZE HIDDEN_SIZE (arg_seed args) /\
  final_model restore_snapshot st
  = init_model INPUT_SIZE HIDDEN_SIZE (arg_seed args).
Proof.
  unfold fit. intros Hrun.
  set (m0 := init_model INPUT_SIZE HIDDEN_SIZE (arg_seed args)) in *.
  set (learn := train_epoch [] (arg_lr args) (arg_huberDelta args)) in *.
  destruct (loop_outcome _ _ _ _ _ _ _ _ _ Hrun) as ([Hmodel _ _ Hbest _] & _).
  pose proof (after_epochs_fixed learn m0 _ (train_epoch_nil _ _ m0)) as Hfix.
  rewrite Hfix in Hmodel. injection Hmodel as Hmodel.
  split; [done|]. unfold final_model.
  destruct (best_snapshot st) as [s|]; [|done].
  destruct Hbest as (kb & mb & _ & _ & _ & Hmb & -> & _).
  rewrite Hfix in Hmb. injection Hmb as <-.
  rewrite <- Hmodel. apply restore_take_snapshot.
Qed.

(** C10. When every sample of a non-empty list belongs to one game, the
    cutoff [int(1 * 0.9)] is 0: the train set is empty and the validation
    set holds every sample. An epoch over the empty train set returns the
    model unchanged, and the fit ends on the initial parameters. *)
Theorem split_single_game_no_training `{Generator} `{O : SetOrder}
  `{!SetOrderLaws O} (samples : list Sample) (seed g : Z) :
  samples ≠ [] -> (forall s, s ∈ samples -> gameId s = g) ->
  cutoff_of 1 = Ok 0 /\
  split_by_game samples seed = Ok ([], samples) /\
  (forall lr delta m, exists loss, train_epoch [] lr delta m = Ok (m, loss)) /\
  (forall args st stopped,
     fit args [] samples = Ok (st, stopped) ->
     model st = init_model INPUT_SIZE HIDDEN_SIZE (arg_seed args) /\
     final_model restore_snapshot st
     = init_model INPUT_SIZE HIDDEN_SIZE (arg_seed args)).
Proof.
  intros Hne Hall. split; [reflexivity|].
  split; [by apply (split_single_game samples seed g)|]. split.
  - intros lr delta m. eexists. apply train_epoch_nil.
  - intros args st stopped. apply fit_nil.
Qed.

(** The split does not depend on the iteration order of the set. *)
Lemma split_by_game_order `{Generator} (O1 O2 : SetOrder)
  `{!SetOrderLaws O1} `{!SetOrderLaws O2} (samples : list Sample) (seed : Z) :
  @split_by_game _ O1 samples seed = @split_by_game _ O2 samples seed.
Proof.
  unfold split_by_game. by rewrite (sorted_set_iter O1 O2).
Qed.

(** ** Two runs *)

(** The parameters after [k] epochs of a run: those the loop holds when
    epoch [k + 1] starts. *)
Definition trajectory `{Generator} (args : Args) (train : list Sample) (k : nat)
  : result NnueModel :=
  after_epochs (train_epoch train (arg_lr args) (arg_huberDelta args)) k
    (init_model INPUT_SIZE HIDDEN_SIZE (arg_seed args)).

(** A run that returns [out] after writing [bytes], stage by stage, under
    the iteration order [O] of its sets. *)
Definition returns `{Generator} (O : SetOrder) (args : Args) (inputs : Inputs)
  (out : Outcome) (bytes : list byte) : Prop :=
  exists timeout_map skipped stats st,
    in_summary inputs = Some timeout_map /\
    load_samples (in_rows inputs) (in_files inputs) timeout_map
      (arg_maxSamples args) (arg_seed args)
    = Ok (out_samples out, skipped, stats) /\
    @split_by_game _ O (out_samples out) (arg_seed args)
    = Ok (out_train out, out_val out) /\
    fit args (out_train out) (out_val out) = Ok (st, out_stopped_early out) /\
    out_history out = history st /\
    out_best_epoch out = best_epoch st /\
    out_best_val out = best_val st /\
    out_model out = final_model restore_snapshot st /\
    has_dirname (arg_out args) = true /\
    names_directory (arg_out args) = false /\
    write_body INPUT_SIZE HIDDEN_SIZE (w1 (out_model out)) (b1 (out_model out))
      (w2 (out_model out)) (b2 (out_model out)) = (bytes, Ok ()).

Lemma after_epochs_prefix {Params : Type}
  (learn : Params -> result (Params * float)) (m0 : Params) (n : nat) :
  forall m, after_epochs learn n m0 = Ok m ->
  forall k, (k <= n)%nat -> exists mk, after_epochs learn k m0 = Ok mk.
Proof.
  induction n as [|n IH]; intros m Hn k Hk.
  - assert (k = 0%nat) as -> by lia. by exists m.
  - destruct (decide (k = S n)) as [->|Hne]; [by exists m|].
    cbn [after_epochs] in Hn.
    destruct (after_epochs learn n m0) as [mn|] eqn:Hmn; [|discriminate].
    apply (IH mn eq_refl). lia.
Qed.

(** A run returns [out] exactly when its stages do, and it leaves at the
    output path the bytes of the block. *)
Lemma main_returns `{Generator} (O : SetOrder) (args : Args) (inputs : Inputs)
  (fs : disk) (out : Outcome) :
  ((@main _ O args inputs fs).2 = Ok out <->
   exists bytes, returns O args inputs out bytes) /\
  (forall bytes,
     returns O args inputs out bytes ->
     (@main _ O args inputs fs).1 !! arg_out args = Some bytes).
Proof.
  unfold main, returns. split; [split|].
  - destruct (in_summary inputs) as [timeout_map|]; [|discriminate].
    destruct (load_samples _ _ _ _ _) as [[[samples skipped] stats]|] eqn:Hload;
      [|discriminate].
    destruct (split_by_game samples (arg_seed args)) as [[train val]|] eqn:Hsplit;
      [|discriminate].
    destruct (fit args train val) as [[st stopped]|] eqn:Hfit; [|discriminate].
    unfold write_snnue.
    destruct (has_dirname (arg_out args)); cbn [negb]; [|discriminate].
    destruct (names_directory (arg_out args)); [discriminate|].
    destruct (write_body _ _ _ _ _ _) as [buf [[]|e]] eqn:Hbody; cbn [fst snd];
      [|discriminate].
    intros [= <-]. cbn. exists buf.
    exists timeout_map, skipped, stats, st. by repeat (split; [done|]).
  - intros (bytes & timeout_map & skipped & stats & st & -> & Hload & Hsplit
            & Hfit & Hh & Hbe & Hbv & Hm & Hd & Hn & Hbody).
    rewrite Hload, Hsplit, Hfit. cbv zeta. rewrite <- Hm.
    unfold write_snnue. rewrite Hd, Hn. cbn [negb]. rewrite Hbody. cbn [fst snd].
    f_equal. destruct out; cbn in *. by subst.
  - intros bytes (timeout_map & skipped & stats & st & -> & Hload & Hsplit
                  & Hfit & Hh & Hbe & Hbv & Hm & Hd & Hn & Hbody).
    rewrite Hload, Hsplit, Hfit. cbv zeta. rewrite <- Hm.
    unfold write_snnue. rewrite Hd, Hn. cbn [negb]. rewrite Hbody. cbn [fst snd].
    by rewrite lookup_insert_eq.
Qed.

(** The epochs of a fit, against the trajectory. *)
Lemma fit_trajectory `{Generator} (args : Args) (train val : list Sample)
  (st : LoopState) (stopped : bool) :
  fit args train val = Ok (st, stopped) ->
  let n := length (history st) in
  let final := final_model restore_snapshot st in
  (stopped = false -> n = Z.to_nat (arg_epochs args)) /\
  (forall k, (k <= n)%nat -> exists mk, trajectory args train k = Ok mk) /\
  (forall k e tl v,
     history st !! k = Some (e, tl, v) ->
     e = (Z.of_nat k + 1)%Z /\
     exists mk mk',
       trajectory args train k = Ok mk /\
       train_epoch train (arg_lr args) (arg_huberDelta args) mk = Ok (mk', tl) /\
       trajectory args train (S k) = Ok mk' /\
       evaluate mk' val (arg_huberDelta args) = Ok v) /\
  exists kf mf,
    (kf <= n)%nat /\ trajectory args train kf = Ok mf /\
    w1 final = w1 mf /\ b1 final = b1 mf /\ w2 final = w2 mf /\ b2 final = b2 mf /\
    (((1 <= kf)%nat /\ best_epoch st = Z.of_nat kf /\
      (exists tl, (best_epoch st, tl, best_val st) ∈ history st) /\
      forall e tl v, (e, tl, v) ∈ history st -> (v <? best_val st)%float = false)
     \/ (kf = n /\
         forall e tl v, (e, tl, v) ∈ history st -> (v <? infinity)%float = false)).
Proof.
  intros Hrun n final. unfold fit in Hrun.
  destruct (loop_outcome _ _ _ _ _ _ _ _ _ Hrun)
    as ([Hmodel _ Hleast Hbest Hentries] & Hall & _).
  fold n in Hmodel, Hall. unfold trajectory.
  split; [done|]. split; [by eapply after_epochs_prefix|]. split.
  - intros k e tl v Hk. destruct (Hentries k e tl v Hk) as (-> & mk & mk' & Hmk & Hl & Hv).
    split; [done|]. exists mk, mk'. split; [done|]. split; [done|]. split; [|done].
    cbn [after_epochs]. rewrite Hmk. cbn. by rewrite Hl.
  - subst final. unfold final_model.
    destruct (best_snapshot st) as [s|].
    + destruct Hbest as (kb & mb & tl & Hkb & Hrange & Hmb & -> & Hin & _).
      exists kb, mb. split; [lia|]. split; [done|].
      do 4 (split; [done|]). left. split; [lia|]. split; [done|].
      split; [by exists tl|done].
    + exists n, (model st). split; [done|]. split; [done|].
      do 4 (split; [done|]). right. split; [done|].
      intros e tl v Hin. rewrite <- Hbest. by eapply Hleast.
Qed.

(** C9. Two runs on the same input files, seed and hyperparameters, whatever
    the iteration orders of their sets and whatever their disks held before,
    end alike: the same exception, or the same outcome. A run returns
    exactly when its stages do: the outcome holds the samples in the order
    the seeded shuffle of the loader left them, the split of these by the
    seed, which is the same under both iteration orders, the history, best
    epoch and early-stop flag of the fit on that split, and the final
    parameters; both runs leave at the output path the bytes of these
    parameters. The parameters follow one trajectory, a function of the
    hyperparameters, the seed and the train set: every epoch of the history
    starts from the trajectory's model and ends on its next one, and the
    final parameters are those of the trajectory at the best epoch (at the
    last epoch when no loss was below [+infinity]). *)
Theorem main_reproducible `{Generator} (O1 O2 : SetOrder)
  `{!SetOrderLaws O1} `{!SetOrderLaws O2} (args : Args) (inputs : Inputs)
  (fs1 fs2 : disk) :
  let run1 := @main _ O1 args inputs fs1 in
  let run2 := @main _ O2 args inputs fs2 in
  run1.2 = run2.2 /\
  ((run1.1 = fs1 /\ run2.1 = fs2) \/
   exists bytes,
     run1.1 !! arg_out args = Some bytes /\ run2.1 !! arg_out args = Some bytes) /\
  (forall out bytes,
     returns O1 args inputs out bytes <-> returns O2 args inputs out bytes) /\
  (forall out,
     run1.2 = Ok out <-> exists bytes, returns O1 args inputs out bytes) /\
  (forall out bytes,
     returns O1 args inputs out bytes ->
     run1.1 !! arg_out args = Some bytes /\
     run2.1 !! arg_out args = Some bytes) /\
  (forall out,
     run1.2 = Ok out ->
     let n := length (out_history out) in
     let train := out_train out in
     (out_stopped_early out = false -> n = Z.to_nat (arg_epochs args)) /\
     (forall k, (k <= n)%nat -> exists mk, trajectory args train k = Ok mk) /\
     (forall k e tl v,
        out_history out !! k = Some (e, tl, v) ->
        e = (Z.of_nat k + 1)%Z /\
        exists mk mk',
          trajectory args train k = Ok mk /\
          train_epoch train (arg_lr args) (arg_huberDelta args) mk = Ok (mk', tl) /\
          trajectory args train (S k) = Ok mk' /\
          evaluate mk' (out_val out) (arg_huberDelta args) = Ok v) /\
     exists kf mf,
       (kf <= n)%nat /\ trajectory args train kf = Ok mf /\
       w1 (out_model out) = w1 mf /\ b1 (out_model out) = b1 mf /\
       w2 (out_model out) = w2 mf /\ b2 (out_model out) = b2 mf /\
       (((1 <= kf)%nat /\ out_best_epoch out = Z.of_nat kf /\
         (exists tl, (out_best_epoch out, tl, out_best_val out) ∈ out_history out) /\
         forall e tl v, (e, tl, v) ∈ out_history out ->
                        (v <? out_best_val out)%float = false)
        \/ (kf = n /\
            forall e tl v, (e, tl, v) ∈ out_history out ->
                           (v <? infinity)%float = false))).
Proof.
  intros run1 run2.
  assert (forall out bytes,
            returns O1 args inputs out bytes <-> returns O2 args inputs out bytes)
    as Horder.
  { intros out bytes. unfold returns.
    by setoid_rewrite (split_by_game_order O1 O2). }
  assert (run1.2 = run2.2 /\
          ((run1.1 = fs1 /\ run2.1 = fs2) \/
           exists bytes,
             run1.1 !! arg_out args = Some bytes /\
             run2.1 !! arg_out args = Some bytes)) as [Hsame Hdisk].
  { subst run1 run2. unfold main.
    destruct (in_summary inputs) as [timeout_map|]; [|by split; [|left]].
    destruct (load_samples _ _ _ _ _) as [[[samples skipped] stats]|];
      [|by split; [|left]].
    rewrite (split_by_game_order O1 O2).
    destruct (@split_by_game _ O2 samples (arg_seed args)) as [[train val]|];
      [|by split; [|left]].
    destruct (fit args train val) as [[st stopped]|]; [|by split; [|left]].
    unfold write_snnue.
    destruct (negb (has_dirname (arg_out args))); [by split; [|left]|].
    destruct (names_directory (arg_out args)); [by split; [|left]|].
    destruct (write_body _ _ _ _ _ _) as [buf [[]|e]]; cbn [fst snd];
      (split; [done|right; exists buf; by rewrite !lookup_insert_eq]). }
  split; [done|]. split; [done|]. split; [done|].
  split; [intros out; apply (main_returns O1)|]. split.
  - intros out bytes Hret. split.
    + by apply (proj2 (main_returns O1 args inputs fs1 out)).
    + apply (proj2 (main_returns O2 args inputs fs2 out)). by apply Horder.
  - intros out Hrun n train.
    apply (proj1 (main_returns O1 args inputs fs1 out)) in Hrun
      as (bytes & tm & sk & stats & st & _ & _ & _ & Hfit & Hh & Hbe & Hbv & Hm & _).
    subst n train. rewrite Hh, Hbe, Hbv, Hm.
    exact (fit_trajectory _ _ _ _ _ Hfit).
Qed.

(** Two samples of game 5: nothing to train on. *)
Lemma split_single_game_no_training_witness :
  split_by_game (H := lcg) (H0 := first_seen)
    [sample_of_game 5; sample_of_game 5] 1337
  = Ok ([], [sample_of_game 5; sample_of_game 5]).
Proof.
  refine (proj1 (proj2 (split_single_game_no_training (H := lcg) (O := first_seen)
                          [sample_of_game 5; sample_of_game 5] 1337 5 _ _))).
  - discriminate.
  - intros s Hs. apply elem_of_cons in Hs as [->|Hs]; [reflexivity|].
    apply list_elem_of_singleton in Hs as ->. reflexivity.
Defined.

(** ** A run of two games

    A generator on machine integers, for the example run; the theorems hold
    of every generator. *)
Definition lcg63_step (g : int) : int :=
  (g * 6364136223846793005 + 1442695040888963407)%uint63.

Definition lcg63 : Generator := {|
  rng := int;
  Random seed := Uint63.of_Z seed;
  rng_random g :=
    ((PrimFloat.of_uint63 (g >> 10)%uint63 / 0x1p53)%float, lcg63_step g);
  randbelow g n :=
    (Z.to_nat (Uint63.to_Z (g >> 16)%uint63 mod Z.of_nat n), lcg63_step g)
|}.

(** A row of game [g], two kings on the board, evaluated at [cp]
    centipawns. *)
Definition game_row (g cp : Z) : Row :=
  {| row_gameId := Some g; row_runId := Some "run-a";
     row_timeoutNearby := false; row_evalCp := Some (PyInt cp);
     row_mateIn := None;
     row_fen := Some "8/8/8/8/8/8/8/K6k w - - 0 1";
     row_evalCp16 := None |}.

Definition example_args : Args :=
  {| arg_out := "weights/trained.snnue"; arg_epochs := 5; arg_lr := one_hundredth;
     arg_huberDelta := 100; arg_minEpochs := 1; arg_patience := 2;
     arg_seed := 1337; arg_maxSamples := None |}.

(** Three rows of two games, in which the engine plays the first side. *)
Definition example_inputs : Inputs :=
  {| in_rows := [game_row 1 120; game_row 2 (-40); game_row 1 30];
     in_summary := Some (Some ∅);
     in_files := {| run_summary := fun _ => None;
                    annotated := fun _ _ => Some (Some "w") |} |}.

(** The example run under the first iteration order: three samples, the
    one of game 2 to train on, and a stop after epoch 3 on the parameters
    of epoch 1, all of which fit 32 bits. *)
Lemma example_run_shape :
  match load_samples (H := lcg63) (in_rows example_inputs)
          (in_files example_inputs) (Some ∅) None 1337 with
  | Ok (samples, _, _) =>
      match @split_by_game lcg63 first_seen samples 1337 with
      | Ok (train, val) =>
          match fit (H := lcg63) example_args train val with
          | Ok (st, stopped) =>
              let m := final_model restore_snapshot st in
              let ps := parameters (w1 m) (b1 m) (w2 m) (b2 m) in
              gameId <$> samples = [2; 1; 1] /\
              gameId <$> train = [2] /\ gameId <$> val = [1; 1] /\
              Z.of_nat (length (history st)) = 3 /\
              stopped = true /\ best_epoch st = 1 /\
              (b2 (model st) =? b2 m)%float = false /\
              forallb fits32 ps = true /\
              Z.of_nat (length ps) = float_count INPUT_SIZE HIDDEN_SIZE
          | Err _ => False
          end
      | Err _ => False
      end
  | Err _ => False
  end.
Proof. vm_compute. by repeat split. Qed.

(** The example run, under either iteration order and on an empty or a
    used disk: both runs return the same outcome, after training on the
    sample of game 2 and an early stop after epoch 3, with parameters the
    trajectory went through. *)
Lemma main_reproducible_witness :
  exists out,
    (@main lcg63 first_seen example_args example_inputs ∅).2 = Ok out /\
    (@main lcg63 last_seen example_args example_inputs
       {[ "weights/trained.snnue" := [] ]}).2 = Ok out /\
    gameId <$> out_samples out = [2; 1; 1] /\
    gameId <$> out_train out = [2] /\
    gameId <$> out_val out = [1; 1] /\
    Z.of_nat (length (out_history out)) = 3 /\
    out_stopped_early out = true /\
    out_best_epoch out = 1 /\
    exists kf mf,
      trajectory (H := lcg63) example_args (out_train out) kf = Ok mf /\
      (kf <= length (out_history out))%nat /\
      b2 (out_model out) = b2 mf.
Proof.
  generalize example_run_shape.
  destruct (load_samples (H := lcg63) (in_rows example_inputs)
              (in_files example_inputs) (Some ∅) None 1337)
    as [[[samples skipped] stats]|] eqn:Hload; [|intros []].
  destruct (@split_by_game lcg63 first_seen samples 1337)
    as [[train val]|] eqn:Hsplit; [|intros []].
  destruct (fit (H := lcg63) example_args train val)
    as [[st stopped]|] eqn:Hfit; [|intros []].
  cbv zeta. intros (Hg & Ht & Hv & Hlen & -> & Hbe & _ & Hfit32 & Hcount).
  set (out := {| out_samples := samples; out_train := train; out_val := val;
                 out_history := history st; out_best_epoch := best_epoch st;
                 out_best_val := best_val st; out_stopped_early := true;
                 out_model := final_model restore_snapshot st |}).
  destruct (main_reproducible (H := lcg63) first_seen last_seen
              (SetOrderLaws1 := last_seen_laws) example_args example_inputs ∅
              {[ "weights/trained.snnue" := [] ]})
    as (Hsame & _ & _ & Hret & _ & Htraj).
  cbv zeta in Hsame, Hret, Htraj.
  assert (exists bytes,
            returns (H := lcg63) first_seen example_args example_inputs out bytes)
    as Hstages.
  { eexists. exists (Some ∅), skipped, stats, st.
    split; [reflexivity|]. split; [exact Hload|]. split; [exact Hsplit|].
    split; [exact Hfit|]. do 4 (split; [reflexivity|]).
    split; [reflexivity|]. split; [reflexivity|].
    exact (write_body_returns INPUT_SIZE HIDDEN_SIZE _ _ _ _ eq_refl Hfit32 Hcount). }
  pose proof (proj2 (Hret out) Hstages) as Hrun.
  exists out. split; [exact Hrun|].
  split; [exact (eq_trans (eq_sym Hsame) Hrun)|].
  split; [exact Hg|]. split; [exact Ht|]. split; [exact Hv|].
  split; [exact Hlen|]. split; [reflexivity|]. split; [exact Hbe|].
  destruct (Htraj out Hrun) as (_ & _ & _ & kf & mf & Hkf & Hmf & _ & _ & _ & Hb2 & _).
  exists kf, mf. split; [exact Hmf|]. split; [exact Hkf|exact Hb2].
Defined.

End PipelineFacts.

(** * The forward pass and the training pass on a model of regular shape *)

Module ForwardFacts.

Import PyStr Features PyList PyListFacts Model ModelFacts Huber Loader Trainer.

Local Open Scope float_scope.

#[local] Arguments RELU_CAP : simpl never.

(** A model of regular shape: [hidden_size] entries in [b1], in [w2] and in
    every row of [w1]. *)
Record regular (m : NnueModel) : Prop := {
  reg_hidden : (0 <= hidden_size m)%Z;
  reg_b1 : length (b1 m) = Z.to_nat (hidden_size m);
  reg_w2 : length (w2 m) = Z.to_nat (hidden_size m);
  reg_rows : Forall (fun row => length row = Z.to_nat (hidden_size m)) (w1 m)
}.

(** A subscript [w1] has a row for, counting from either end. *)
Definition subscript_ok (n : nat) (idx : Z) : Prop :=
  (- Z.of_nat n <= idx < Z.of_nat n)%Z.

(** ** Loops that keep an invariant *)

Lemma for_each_inv {X S} (I : S -> Prop) (xs : list X) (body : X -> S -> result S) :
  (forall x s, x ∈ xs -> I s -> exists s', body x s = Ok s' /\ I s') ->
  forall s, I s -> exists s', for_each xs body s = Ok s' /\ I s'.
Proof.
  induction xs as [|x xs IH]; intros Hbody s Hs; cbn.
  - by exists s.
  - destruct (Hbody x s ltac:(left) Hs) as (s1 & -> & Hs1). cbn.
    apply IH; [|done]. intros y t Hy. apply Hbody. by right.
Qed.

Lemma for_each_keeps {X S} (I : S -> Prop) (xs : list X) (body : X -> S -> result S) :
  (forall x s s', x ∈ xs -> I s -> body x s = Ok s' -> I s') ->
  forall s s', I s -> for_each xs body s = Ok s' -> I s'.
Proof.
  induction xs as [|x xs IH]; intros Hbody s s' Hs; cbn.
  - by intros [= <-].
  - destruct (body x s) as [s1|] eqn:Hb; [|discriminate]. cbn.
    apply IH; [|by eapply Hbody; [left|..]].
    intros y t t' Hy. apply Hbody. by right.
Qed.

Lemma for_each_st_inv {X S} (I : S -> Prop) (xs : list X)
  (body : X -> S -> S * result unit) :
  (forall x s, x ∈ xs -> I s -> exists s', body x s = (s', Ok ()) /\ I s') ->
  forall s, I s -> exists s', for_each_st xs body s = (s', Ok ()) /\ I s'.
Proof.
  induction xs as [|x xs IH]; intros Hbody s Hs; cbn.
  - by exists s.
  - destruct (Hbody x s ltac:(left) Hs) as (s1 & -> & Hs1).
    apply IH; [|done]. intros y t Hy. apply Hbody. by right.
Qed.

Lemma elem_of_range (n : Z) (i : nat) : i ∈ range n <-> (i < Z.to_nat n)%nat.
Proof. unfold range. rewrite elem_of_seq. lia. Qed.

Lemma py_norm_is_Some (n : nat) (idx : Z) :
  is_Some (py_norm n idx) <-> subscript_ok n idx.
Proof.
  unfold py_norm, subscript_ok.
  destruct (Z.leb_spec 0 idx); [destruct (Z.ltb_spec idx (Z.of_nat n))|
    destruct (Z.leb_spec (- Z.of_nat n) idx)];
    (split; [intros [j Hj]; first [discriminate|lia] | intros Hi; first [lia|by eexists]]).
Qed.

Lemma py_index_Some {A} (l : list A) (idx : Z) :
  subscript_ok (length l) idx -> exists a, py_index l idx = Ok a /\ a ∈ l.
Proof.
  intros H. apply py_norm_is_Some in H as [j Hj]. unfold py_index. rewrite Hj. cbn.
  destruct (lookup_lt_is_Some_2 l j (py_norm_lt _ _ _ Hj)) as [a Ha].
  exists a. rewrite Ha. split; [done|]. by eapply list_elem_of_lookup_2.
Qed.

Lemma py_index_None {A} (l : list A) (idx : Z) :
  ~ subscript_ok (length l) idx -> py_index l idx = Err IndexError.
Proof.
  intros H. unfold py_index.
  destruct (py_norm (length l) idx) as [j|] eqn:Hj; [|done].
  exfalso. apply H. apply py_norm_is_Some. by eexists.
Qed.



(** ** The forward pass never fails on a model of regular shape *)

Lemma at_index_lt {A} (l : list A) (i : nat) :
  (i < length l)%nat -> exists a, at_index l i = Ok a /\ l !! i = Some a.
Proof.
  intros Hi. destruct (lookup_lt_is_Some_2 l i Hi) as [a Ha].
  exists a. unfold at_index. by rewrite Ha.
Qed.

Lemma add_row_ok (hs : Z) (row hidden : list float) :
  length row = Z.to_nat hs -> length hidden = Z.to_nat hs ->
  exists hidden', add_row hs row hidden = Ok hidden' /\
                  length hidden' = Z.to_nat hs.
Proof.
  intros Hrow Hhid. unfold add_row.
  apply (for_each_inv (fun h => length h = Z.to_nat hs)); [|done].
  intros i h Hi%elem_of_range Hh.
  destruct (at_index_lt h i ltac:(lia)) as (a & -> & _).
  destruct (at_index_lt row i ltac:(lia)) as (b & -> & _). cbn.
  eexists. split; [done|]. by rewrite length_insert.
Qed.

#[local] Instance subscript_ok_dec (n : nat) (idx : Z) :
  Decision (subscript_ok n idx).
Proof. unfold subscript_ok. apply _. Defined.

Lemma accumulate_from (m : NnueModel) (features : list Z) :
  regular m ->
  forall hidden, length hidden = Z.to_nat (hidden_size m) ->
    if decide (Forall (subscript_ok (length (w1 m))) features) then
      exists pre,
        for_each features
          (fun idx hidden =>
             row ← py_index (w1 m) idx; add_row (hidden_size m) row hidden)
          hidden = Ok pre /\
        length pre = Z.to_nat (hidden_size m)
    else
      for_each features
        (fun idx hidden =>
           row ← py_index (w1 m) idx; add_row (hidden_size m) row hidden)
        hidden = Err IndexError.
Proof.
  intros Hreg. induction features as [|idx features IH]; intros hidden Hlen.
  - rewrite decide_True by constructor. by exists hidden.
  - cbn [for_each].
    destruct (decide (subscript_ok (length (w1 m)) idx)) as [Hidx|Hidx].
    + destruct (py_index_Some (w1 m) idx Hidx) as (row & -> & Hin). cbn.
      pose proof (reg_rows m Hreg) as Hrows. rewrite Forall_forall in Hrows.
      destruct (add_row_ok (hidden_size m) row hidden (Hrows row Hin) Hlen)
        as (h' & -> & Hlen'). cbn.
      specialize (IH h' Hlen').
      destruct (decide (Forall (subscript_ok (length (w1 m))) features)) as [Hall|Hall].
      * rewrite decide_True by (by constructor). done.
      * rewrite decide_False; [done|]. by intros [_ ?]%Forall_cons.
    + rewrite (py_index_None _ _ Hidx). cbn.
      rewrite decide_False; [done|]. by intros [? _]%Forall_cons.
Qed.

Lemma activate_ok (hs : nat) (n : nat) (pre : list float) (act0 : list bool) :
  (n <= length pre)%nat ->
  exists hidden active,
    for_each (seq 0 n) activate (pre, act0) = Ok (hidden, active).
Proof.
  intros Hn.
  destruct (for_each_inv (fun st : list float * list bool => length st.1 = length pre)
              (seq 0 n) activate) with (s := (pre, act0)) as ([h a] & Hrun & _);
    [|done|by exists h, a].
  intros i [h a] Hi%elem_of_seq Hh. cbn in Hh. cbn [activate].
  destruct (at_index_lt h i ltac:(lia)) as (z & -> & _). cbn.
  destruct (z <=? 0); [|destruct (RELU_CAP <=? z)]; eexists; (split; [done|]);
    cbn; by rewrite ?length_insert.
Qed.

Lemma output_ok (hs : Z) (hidden w2 : list float) (b2 : float) :
  (Z.to_nat hs <= length hidden)%nat -> (Z.to_nat hs <= length w2)%nat ->
  exists output,
    for_each (range hs)
      (fun i output =>
         h ← at_index hidden i;
         if negb (h =? 0) then w ← at_index w2 i; Ok (output + h * w)
         else Ok output)
      b2 = Ok output.
Proof.
  intros Hh Hw.
  destruct (for_each_inv (fun _ : float => True) (range hs)
              (fun i output =>
                 h ← at_index hidden i;
                 if negb (h =? 0) then w ← at_index w2 i; Ok (output + h * w)
                 else Ok output)) with (s := b2) as (out & Hrun & _);
    [|done|by exists out].
  intros i out Hi%elem_of_range _.
  destruct (at_index_lt hidden i ltac:(lia)) as (h & -> & _).
  destruct (at_index_lt w2 i ltac:(lia)) as (w & Hw2 & _). cbn.
  destruct (negb (h =? 0)); [rewrite Hw2|]; by eexists.
Qed.

Lemma forward_regular (m : NnueModel) (features : list Z) :
  regular m ->
  if decide (Forall (subscript_ok (length (w1 m))) features) then
    exists output hidden active, forward m features = Ok (output, hidden, active)
  else forward m features = Err IndexError.
Proof.
  intros Hreg. pose proof (accumulate_from m features Hreg (b1 m) (reg_b1 m Hreg)) as H.
  unfold forward.
  destruct (decide (Forall (subscript_ok (length (w1 m))) features));
    [|by rewrite H].
  destruct H as (pre & -> & Hpre). cbn.
  destruct (activate_ok (Z.to_nat (hidden_size m)) (Z.to_nat (hidden_size m)) pre
              (replicate (Z.to_nat (hidden_size m)) false) ltac:(lia))
    as (hidden & active & Hact).
  pose proof Hact as Hact'.
  change (seq 0 (Z.to_nat (hidden_size m))) with (range (hidden_size m)) in Hact'.
  rewrite Hact'. cbn.
  apply activate_loop in Hact as (_ & Hlh & _).
  destruct (output_ok (hidden_size m) hidden (w2 m) (b2 m)) as (output & ->).
  - lia.
  - rewrite (reg_w2 m Hreg). lia.
  - cbn. by exists output, hidden, active.
Qed.

(** X2. On a model of regular shape the forward pass returns exactly when
    every feature is a subscript [w1] has a row for (from [-len(w1)] up to
    [len(w1) - 1]: a negative feature counts rows from the end); any other
    feature makes it raise [IndexError]. [predict] returns the output of
    the forward pass, and raises with it. *)
Theorem forward_subscripts (m : NnueModel) (features : list Z) :
  regular m ->
  (Forall (subscript_ok (length (w1 m))) features ->
     exists output hidden active,
       forward m features = Ok (output, hidden, active) /\
       predict m features = Ok output) /\
  (~ Forall (subscript_ok (length (w1 m))) features ->
     forward m features = Err IndexError /\
     predict m features = Err IndexError).
Proof.
  intros Hreg. pose proof (forward_regular m features Hreg) as H.
  unfold predict. split; intros Hall.
  - rewrite decide_True in H by done. destruct H as (o & h & a & Hf).
    exists o, h, a. by rewrite Hf.
  - rewrite decide_False in H by done. by rewrite H.
Qed.

Lemma tiny_model_regular : regular tiny_model.
Proof. constructor; cbn; [lia|done|done|]. by repeat constructor. Qed.

(** [tiny_model] has three rows: feature -1 is its last row, feature 3 is
    out of range. *)
Lemma forward_subscripts_witness :
  (exists output hidden active,
     forward tiny_model [(-1)%Z] = Ok (output, hidden, active) /\
     predict tiny_model [(-1)%Z] = Ok output) /\
  forward tiny_model [3%Z] = Err IndexError.
Proof.
  split.
  - apply (proj1 (forward_subscripts tiny_model [(-1)%Z] tiny_model_regular)).
    repeat constructor; cbn; lia.
  - apply (proj2 (forward_subscripts tiny_model [3%Z] tiny_model_regular)).
    intros H%Forall_cons. destruct H as [[_ H] _]. cbn in H. lia.
Defined.

(** ** The training step never fails on a model of regular shape *)

(** [s] has the shape of [m]. *)
Record shaped (m s : NnueModel) : Prop := {
  sh_hidden : hidden_size s = hidden_size m;
  sh_rows : length (w1 s) = length (w1 m);
  sh_row : forall j, length <$> (w1 s !! j) = length <$> (w1 m !! j);
  sh_b1 : length (b1 s) = length (b1 m);
  sh_w2 : length (w2 s) = length (w2 m)
}.

Lemma frame_shaped (features : list Z) (hidden : list float) (active : list bool)
  (m s : NnueModel) :
  frame features hidden active m s -> shaped m s.
Proof. intros []. by constructor. Qed.

Lemma shaped_regular (m s : NnueModel) : regular m -> shaped m s -> regular s.
Proof.
  intros [Hh Hb Hw Hr] [Sh Sr Srow Sb Sw]. constructor; rewrite ?Sh; try congruence.
  apply Forall_forall. intros row Hin.
  apply list_elem_of_lookup in Hin as [j Hj].
  specialize (Srow j). rewrite Hj in Srow. cbn in Srow.
  destruct (w1 m !! j) as [row0|] eqn:H0; [|discriminate].
  injection Srow as ->. rewrite Forall_forall in Hr. apply Hr.
  by eapply list_elem_of_lookup_2.
Qed.

Section Step.

Variable m : NnueModel.
Variable features : list Z.
Variable hidden : list float.
Variable active : list bool.
Hypothesis Hreg : regular m.
Hypothesis Hfeat : Forall (subscript_ok (length (w1 m))) features.
Hypothesis Hhidden : length hidden = Z.to_nat (hidden_size m).
Hypothesis Hactive : length active = Z.to_nat (hidden_size m).

Abbreviation Fr := (frame features hidden active).

Lemma update_w2_ok (lr grad : float) (i : nat) (s : NnueModel) :
  (i < Z.to_nat (hidden_size m))%nat -> Fr m s ->
  exists s', update_w2 lr grad hidden i s = (s', Ok ()) /\ Fr m s'.
Proof.
  intros Hi Hs. pose proof (frame_shaped _ _ _ _ _ Hs) as Sh.
  destruct (update_w2 lr grad hidden i s) as [s' r] eqn:Hrun.
  exists s'. split.
  - f_equal. revert Hrun. unfold update_w2.
    destruct (lookup_lt_is_Some_2 hidden i ltac:(lia)) as [h ->].
    destruct (negb (h =? 0)); [|by intros [= _ <-]].
    destruct (lookup_lt_is_Some_2 (w2 s) i) as [w ->]; [|by intros [= _ <-]].
    rewrite (sh_w2 _ _ Sh), (reg_w2 m Hreg). lia.
  - eapply frame_trans; [exact Hs|]. by eapply update_w2_frame.
Qed.

Lemma update_w1_ok (i : nat) (step : float) (idx : Z) (s : NnueModel) :
  (i < Z.to_nat (hidden_size m))%nat -> active !! i = Some true ->
  idx ∈ features -> Fr m s ->
  exists s', update_w1 i step idx s = (s', Ok ()) /\ Fr m s'.
Proof.
  intros Hi Hact Hidx Hs. pose proof (frame_shaped _ _ _ _ _ Hs) as Sh.
  destruct (update_w1 i step idx s) as [s' r] eqn:Hrun.
  exists s'. split.
  - f_equal. revert Hrun. unfold update_w1.
    rewrite Forall_forall in Hfeat. specialize (Hfeat idx Hidx).
    rewrite <- (sh_rows _ _ Sh) in Hfeat.
    apply py_norm_is_Some in Hfeat as [j Hj]. rewrite Hj.
    destruct (lookup_lt_is_Some_2 (w1 s) j (py_norm_lt _ _ _ Hj)) as [row Hrow].
    rewrite Hrow.
    assert (length row = Z.to_nat (hidden_size m)) as Hlen.
    { pose proof (sh_row _ _ Sh j) as E. rewrite Hrow in E. cbn in E.
      destruct (w1 m !! j) as [row0|] eqn:H0; [|discriminate].
      injection E as ->. pose proof (reg_rows m Hreg) as Hr.
      rewrite Forall_forall in Hr. apply Hr. by eapply list_elem_of_lookup_2. }
    destruct (lookup_lt_is_Some_2 row i ltac:(lia)) as [v ->].
    by intros [= _ <-].
  - eapply frame_trans; [exact Hs|]. by eapply update_w1_frame.
Qed.

Lemma update_hidden_unit_ok (lr grad : float) (w2_snapshot : list float)
  (i : nat) (s : NnueModel) :
  length w2_snapshot = Z.to_nat (hidden_size m) ->
  (i < Z.to_nat (hidden_size m))%nat -> Fr m s ->
  exists s', update_hidden_unit lr grad w2_snapshot active features i s
             = (s', Ok ()) /\ Fr m s'.
Proof.
  intros Hsnap Hi Hs. pose proof (frame_shaped _ _ _ _ _ Hs) as Sh.
  unfold update_hidden_unit.
  destruct (lookup_lt_is_Some_2 active i ltac:(lia)) as [a Ha]. rewrite Ha.
  destruct a; [|by exists s].
  destruct (lookup_lt_is_Some_2 w2_snapshot i ltac:(lia)) as [ws ->].
  destruct (grad * ws =? 0); [by exists s|].
  destruct (lookup_lt_is_Some_2 (b1 s) i) as [b Hb].
  { rewrite (sh_b1 _ _ Sh), (reg_b1 m Hreg). lia. }
  rewrite Hb.
  apply (for_each_st_inv (Fr m)).
  - intros idx t Hidx Ht. by apply update_w1_ok.
  - eapply frame_trans; [exact Hs|]. constructor; cbn; try done.
    + by rewrite length_insert.
    + intros i' Hi'. apply list_lookup_insert_ne. intros ->. congruence.
Qed.

Lemma train_loops_ok (lr grad : float) :
  exists m1 m3,
    for_each_st (range (hidden_size m)) (update_w2 lr grad hidden) m
    = (m1, Ok ()) /\
    for_each_st (range (hidden_size (set_b2 (b2 m1 - lr * grad) m1)))
      (update_hidden_unit lr grad (w2 m) active features)
      (set_b2 (b2 m1 - lr * grad) m1) = (m3, Ok ()) /\
    Fr m m3.
Proof.
  destruct (for_each_st_inv (Fr m) (range (hidden_size m))
              (update_w2 lr grad hidden)) with (s := m) as (m1 & H1 & F1).
  { intros i s Hi%elem_of_range. by apply update_w2_ok. }
  { apply frame_refl. }
  destruct (for_each_st_inv (Fr m)
              (range (hidden_size (set_b2 (b2 m1 - lr * grad) m1)))
              (update_hidden_unit lr grad (w2 m) active features))
    with (s := set_b2 (b2 m1 - lr * grad) m1) as (m3 & H3 & F3).
  { intros i s Hi%elem_of_range. cbn in Hi.
    rewrite (fr_hidden_size _ _ _ _ _ F1) in Hi.
    apply update_hidden_unit_ok; [apply (reg_w2 m Hreg)|done]. }
  { eapply frame_trans; [exact F1|]. apply set_b2_frame. }
  by exists m1, m3.
Qed.

End Step.

(** One step on a sample whose features are all in range. *)
Lemma train_sample_regular (m : NnueModel) (features : list Z)
  (label lr delta : float) :
  regular m -> Forall (subscript_ok (length (w1 m))) features ->
  exists m' output hidden active,
    forward m features = Ok (output, hidden, active) /\
    train_sample m features label lr delta
    = (m', Ok (huber_loss (output - label) delta)) /\
    shaped m m'.
Proof.
  intros Hreg Hfeat. pose proof (forward_regular m features Hreg) as Hf.
  rewrite decide_True in Hf by done. destruct Hf as (output & hidden & active & Hf).
  pose proof (forward_stages _ _ _ _ _ Hf) as (pre & Hpre & Hact).
  pose proof (accumulate_from m features Hreg (b1 m) (reg_b1 m Hreg)) as Hacc.
  rewrite decide_True in Hacc by done. destruct Hacc as (pre' & Hpre' & Hlen).
  unfold accumulate in Hpre. rewrite Hpre' in Hpre. injection Hpre as ->.
  apply activate_loop in Hact as (_ & Hlh & Hla & _).
  rewrite length_replicate in Hla.
  destruct (train_loops_ok m features hidden active Hreg Hfeat
              ltac:(congruence) Hla lr (huber_grad (output - label) delta))
    as (m1 & m3 & H1 & H3 & F3).
  exists m3, output, hidden, active. split; [done|].
  unfold train_sample. rewrite Hf, H1, H3. split; [done|].
  by eapply frame_shaped.
Qed.

Definition in_range (m : NnueModel) (s : Sample) : Prop :=
  Forall (subscript_ok (length (w1 m))) (features s).

Lemma train_pass_regular (lr delta : float) (train : list Sample) :
  forall (m : NnueModel) (total : float),
    regular m -> Forall (in_range m) train ->
    exists m' total',
      train_pass m train lr delta total = Ok (m', total') /\ shaped m m'.
Proof.
  induction train as [|s train IH]; intros m total Hreg Hall.
  - exists m, total. split; [done|]. by constructor.
  - apply Forall_cons in Hall as [Hs Hall]. cbn [train_pass].
    destruct (train_sample_regular m (features s) (label s) lr delta Hreg Hs)
      as (m1 & output & hidden & active & _ & -> & Sh1).
    destruct (IH m1 (total + huber_loss (output - label s) delta)
                (shaped_regular _ _ Hreg Sh1)) as (m' & total' & Hrun & Sh').
    { unfold in_range in *. by rewrite (sh_rows _ _ Sh1). }
    exists m', total'. split; [done|].
    destruct Sh1, Sh'. constructor; congruence.
Qed.

Lemma evaluate_regular (m : NnueModel) (val : list Sample) (delta : float) :
  regular m -> Forall (in_range m) val -> exists loss, evaluate m val delta = Ok loss.
Proof.
  intros Hreg Hall. unfold evaluate. destruct val as [|s0 val0] eqn:E; [by eexists|].
  rewrite <- E in *. clear E s0 val0.
  destruct (for_each_inv (fun _ : float => True) val
              (fun sample total =>
                 pred ← predict m (features sample);
                 Ok (total + huber_loss (pred - label sample) delta)))
    with (s := 0) as (total & -> & _); [|done|by eexists].
  intros s total Hs _. rewrite Forall_forall in Hall.
  pose proof (forward_regular m (features s) Hreg) as Hf.
  rewrite decide_True in Hf by (by apply Hall).
  destruct Hf as (o & h & a & Hf). unfold predict. rewrite Hf. cbn. by eexists.
Qed.

(** X3. On a model of regular shape, a training step on a sample whose
    features are all in range returns the Huber loss of the error of the
    output computed before the update, and leaves a model of the same
    shape. So a whole epoch over such samples returns, with a model of the
    same shape, and the validation loss over such samples is computed: no
    [IndexError] on the way. *)
Theorem training_returns (m : NnueModel) (lr delta : float) :
  regular m ->
  (forall features label,
     Forall (subscript_ok (length (w1 m))) features ->
     exists m' output hidden active,
       forward m features = Ok (output, hidden, active) /\
       train_sample m features label lr delta
       = (m', Ok (huber_loss (output - label) delta)) /\
       regular m' /\ shaped m m') /\
  (forall train,
     Forall (in_range m) train ->
     exists m' train_loss,
       train_epoch train lr delta m = Ok (m', train_loss) /\
       regular m' /\ shaped m m') /\
  (forall val,
     Forall (in_range m) val -> exists loss, evaluate m val delta = Ok loss).
Proof.
  intros Hreg. split; [|split].
  - intros features label Hfeat.
    destruct (train_sample_regular m features label lr delta Hreg Hfeat)
      as (m' & o & h & a & Hf & Hrun & Sh).
    exists m', o, h, a. split; [done|]. split; [done|].
    split; [by eapply shaped_regular|done].
  - intros train Hall.
    destruct (train_pass_regular lr delta train m 0 Hreg Hall)
      as (m' & total & Hrun & Sh).
    unfold train_epoch. rewrite Hrun. cbn.
    do 2 eexists. split; [done|]. split; [by eapply shaped_regular|done].
  - intros val. by apply evaluate_regular.
Qed.

(** A step on [tiny_model]: the output before the update is 1.5, the label
    1, and the loss returned is that of the error 0.5. *)
Lemma training_returns_witness :
  exists m',
    train_sample tiny_model [1%Z] 1 0.5 100
    = (m', Ok (huber_loss (1.5 - 1) 100)) /\ regular m'.
Proof.
  destruct (proj1 (training_returns tiny_model 0.5 100 tiny_model_regular)
              [1%Z] 1) as (m' & o & h & a & Hf & Hrun & Hreg & _).
  - repeat constructor; cbn; lia.
  - exists m'. split; [|exact Hreg].
    injection Hf as <- _ _. exact Hrun.
Defined.

(** ** From the encoder to the model *)

Lemma valid_board_features (fen : string) (ranks : list (list ascii)) :
  board_ranks fen = Ok ranks -> forallb rank_ok ranks = true ->
  exists feats,
    fen_to_features fen = Ok feats /\ Forall (fun i => 0 <= i < 768)%Z feats.
Proof.
  intros Hb Hok. exists (spec_index <$> board_placements 0 ranks).
  assert (length ranks = 8%nat) as Hlen.
  { unfold board_ranks in Hb.
    destruct (of_option _ _) as [board|]; [|discriminate]. cbn in Hb.
    destruct (Z.eqb_spec (Z.of_nat (length (split_on "/" board))) 8);
      [|discriminate].
    injection Hb as <-. lia. }
  split.
  - unfold fen_to_features. rewrite Hb. cbn.
    by rewrite FeaturesFacts.encode_ranks_spec.
  - apply Forall_fmap, Forall_forall. intros p Hp.
    apply FeaturesFacts.board_placements_bounds in Hp as [? ?]; [|done].
    apply FeaturesFacts.spec_index_range; lia.
Qed.

(** X4. The features of a well-formed board (8 ranks of decimal digits and
    piece letters, none wider than 8 squares) are subscripts of a model with
    768 rows of regular shape: the prediction on them returns, and so does a
    training step. *)
Theorem valid_board_trains (fen : string) (ranks : list (list ascii))
  (m : NnueModel) (label lr delta : float) :
  board_ranks fen = Ok ranks -> forallb rank_ok ranks = true ->
  regular m -> length (w1 m) = 768%nat ->
  exists feats output m',
    fen_to_features fen = Ok feats /\
    predict m feats = Ok output /\
    train_sample m feats label lr delta
    = (m', Ok (huber_loss (output - label) delta)) /\
    regular m' /\ length (w1 m') = 768%nat.
Proof.
  intros Hb Hok Hreg Hlen.
  destruct (valid_board_features fen ranks Hb Hok) as (feats & Hf & Hrange).
  assert (Forall (subscript_ok (length (w1 m))) feats) as Hsub.
  { rewrite Hlen. eapply Forall_impl; [exact Hrange|].
    intros i Hi. unfold subscript_ok. cbv beta in Hi.
    change (Z.of_nat 768) with 768%Z. lia. }
  destruct (train_sample_regular m feats label lr delta Hreg Hsub)
    as (m' & output & hidden & active & Hfw & Hrun & Sh).
  exists feats, output, m'. split; [done|]. split.
  - unfold predict. by rewrite Hfw.
  - split; [done|]. split; [by eapply shaped_regular|].
    by rewrite (sh_rows _ _ Sh).
Qed.

(** The model of 768 rows and 64 hidden units with every parameter zero. *)
Definition zero_model : NnueModel :=
  {| input_size := 768; hidden_size := 64;
     w1 := replicate 768 (replicate 64 0); b1 := replicate 64 0;
     w2 := replicate 64 0; b2 := 0 |}.

Lemma zero_model_regular : regular zero_model.
Proof.
  constructor; cbn [hidden_size b1 w2 w1 zero_model].
  - lia.
  - apply length_replicate.
  - apply length_replicate.
  - apply Forall_replicate. apply length_replicate.
Qed.

(** The starting position on the zero model. *)
Lemma valid_board_trains_witness :
  exists feats output m',
    fen_to_features "rnbqkbnr/pppppppp/8/8/8/8/PPPPPPPP/RNBQKBNR w KQkq - 0 1"
    = Ok feats /\
    predict zero_model feats = Ok output /\
    length (w1 m') = 768%nat.
Proof.
  destruct (valid_board_trains
              "rnbqkbnr/pppppppp/8/8/8/8/PPPPPPPP/RNBQKBNR w KQkq - 0 1"
              (split_on "/" (list_ascii_of_string
                               "rnbqkbnr/pppppppp/8/8/8/8/PPPPPPPP/RNBQKBNR"))
              zero_model 0 0 100)
    as (feats & output & m' & Hf & Hp & _ & _ & Hl).
  - reflexivity.
  - reflexivity.
  - exact zero_model_regular.
  - apply length_replicate.
  - exists feats, output, m'. split; [exact Hf|]. split; [exact Hp|exact Hl].
Defined.

End ForwardFacts.

(** * The encoder: what an index tells, and what of the string is read *)

Module EncoderFacts.

Import PyStr Features FeaturesFacts.

#[local] Arguments piece_of_char : simpl never.
#[local] Arguments feature_index : simpl never.
#[local] Arguments isspace : simpl never.









(** ** The field the encoder reads *)

Lemma split_ws_aux_word (word rest cur : list ascii) :
  Forall (fun c => isspace c = false) word ->
  split_ws_aux cur (word ++ rest) = split_ws_aux (rev word ++ cur) rest.
Proof.
  revert cur. induction word as [|c word IH]; intros cur Hw; [done|].
  apply Forall_cons in Hw as [Hc Hw]. cbn [app split_ws_aux]. rewrite Hc.
  rewrite IH by done. cbn [rev]. by rewrite <- app_assoc.
Qed.

Lemma split_ws_aux_spaces (ws rest : list ascii) :
  Forall (fun c => isspace c = true) ws ->
  split_ws_aux [] (ws ++ rest) = split_ws_aux [] rest.
Proof.
  induction 1 as [|c ws Hc _ IH]; [done|].
  cbn [app split_ws_aux]. by rewrite Hc.
Qed.

(** The tail after the first field: nothing, or white space and whatever
    follows. *)
Definition field_end (rest : list ascii) : Prop :=
  match rest with
  | [] => True
  | c :: _ => isspace c = true
  end.

Lemma split_ws_head (ws board rest : list ascii) :
  Forall (fun c => isspace c = true) ws ->
  Forall (fun c => isspace c = false) board -> board ≠ [] ->
  field_end rest ->
  head (split_ws (ws ++ board ++ rest)) = Some board.
Proof.
  intros Hws Hb Hne Hrest. unfold split_ws.
  rewrite split_ws_aux_spaces, split_ws_aux_word by done.
  rewrite app_nil_r.
  assert (rev board ≠ []) as Hrev.
  { intros E. apply Hne. by rewrite <- (rev_involutive board), E. }
  destruct rest as [|c rest]; cbn [split_ws_aux].
  - destruct (rev board) eqn:E; [done|]. rewrite <- E. cbn.
    by rewrite rev_involutive.
  - cbn in Hrest. rewrite Hrest.
    destruct (rev board) eqn:E; [done|]. rewrite <- E. cbn.
    by rewrite rev_involutive.
Qed.

Lemma split_ws_blank (ws : list ascii) :
  Forall (fun c => isspace c = true) ws -> split_ws ws = [].
Proof.
  intros H. unfold split_ws. rewrite <- (app_nil_r ws).
  by rewrite split_ws_aux_spaces.
Qed.

Lemma length_split_on_aux (sep : ascii) (s cur : list ascii) :
  length (split_on_aux sep cur s)
  = S (length (filter (fun c => c = sep) s)).
Proof.
  revert cur. induction s as [|c s IH]; intros cur; cbn [split_on_aux]; [done|].
  destruct (Ascii.eqb_spec c sep) as [->|Hne].
  - rewrite filter_cons_True by done. cbn. by rewrite IH.
  - rewrite filter_cons_False by done. apply IH.
Qed.

(** The number of slashes of a field. *)
Definition slashes (board : list ascii) : nat :=
  length (filter (fun c => c = "/"%char) board).

(** X6. The encoder reads the first white-space-separated field of its
    string and nothing else: white space before it and every field after it
    (side to move, castling rights, en-passant square, counters) have no
    effect on the result. A string with no field at all raises
    [IndexError]; a first field that has not exactly seven slashes raises
    [ValueError], whatever its characters. *)
Theorem fen_first_field (ws board rest : list ascii) :
  Forall (fun c => isspace c = true) ws ->
  Forall (fun c => isspace c = false) board -> board ≠ [] ->
  field_end rest ->
  fen_to_features (string_of_list_ascii (ws ++ board ++ rest))
  = fen_to_features (string_of_list_ascii board) /\
  (slashes board ≠ 7%nat ->
   fen_to_features (string_of_list_ascii (ws ++ board ++ rest))
   = Err ValueError) /\
  fen_to_features (string_of_list_ascii ws) = Err IndexError.
Proof.
  intros Hws Hb Hne Hrest.
  assert (forall s, head (split_ws s) = Some board ->
            board_ranks (string_of_list_ascii s)
            = if (Z.of_nat (S (slashes board)) =? 8) then Ok (split_on "/" board)
              else Err ValueError) as Hranks.
  { intros s Hs. unfold board_ranks.
    rewrite list_ascii_of_string_of_list_ascii, Hs. cbn.
    unfold split_on. by rewrite length_split_on_aux. }
  pose proof (Hranks _ (split_ws_head ws board rest Hws Hb Hne Hrest)) as H1.
  pose proof (split_ws_head [] board [] ltac:(constructor) Hb Hne I) as H2.
  rewrite app_nil_l, app_nil_r in H2. apply Hranks in H2.
  unfold fen_to_features. rewrite H1, H2. split; [done|]. split.
  - intros Hs. destruct (Z.eqb_spec (Z.of_nat (S (slashes board))) 8); [lia|done].
  - unfold board_ranks. rewrite list_ascii_of_string_of_list_ascii.
    by rewrite split_ws_blank.
Qed.

(** The full starting position, with leading blanks, encodes as its board
    field does. *)
Lemma fen_first_field_witness :
  fen_to_features "  rnbqkbnr/pppppppp/8/8/8/8/PPPPPPPP/RNBQKBNR w KQkq - 0 1"
  = fen_to_features "rnbqkbnr/pppppppp/8/8/8/8/PPPPPPPP/RNBQKBNR".
Proof.
  refine (proj1 (fen_first_field
                   (list_ascii_of_string "  ")
                   (list_ascii_of_string "rnbqkbnr/pppppppp/8/8/8/8/PPPPPPPP/RNBQKBNR")
                   (list_ascii_of_string " w KQkq - 0 1") _ _ _ _)).
  - by repeat constructor.
  - cbn [list_ascii_of_string]. repeat (constructor; [reflexivity|]). constructor.
  - discriminate.
  - reflexivity.
Defined.

End EncoderFacts.

(** * The Huber gradient is clipped, and the loss is symmetric *)

Module HuberBounds.

Import Huber HuberFacts.

Local Open Scope float_scope.

Lemma SFabs_opp (x : spec_float) : SFabs (SFopp x) = SFabs x.
Proof. by destruct x. Qed.

Lemma abs_opp (x : float) : abs (- x) = abs x.
Proof. apply Prim2SF_inj. by rewrite !abs_spec, opp_spec, SFabs_opp. Qed.

Lemma opp_involutive (x : float) : - - x = x.
Proof.
  apply Prim2SF_inj. rewrite !opp_spec.
  destruct (Prim2SF x) as [s|s| |s m e]; cbn; by rewrite ?negb_involutive.
Qed.

Lemma SFcompare_refl (x : spec_float) : x ≠ S754_nan -> SFcompare x x = Some Eq.
Proof.
  destruct x as [s|s| |s m e]; intros Hx; cbn; try done.
  - by destruct s.
  - rewrite Z.compare_refl. change (Pos.compare_cont Eq m m) with (m ?= m)%positive.
    rewrite Pos.compare_refl. by destruct s.
Qed.

(** A double at or above zero is at or above its absolute value. *)
Lemma abs_leb_nonneg (d : float) : (0 <=? d) = true -> (abs d <=? d) = true.
Proof.
  rewrite !leb_spec, abs_spec. change (Prim2SF 0) with (S754_zero false).
  unfold SFleb.
  destruct (Prim2SF d) as [s|s| |s m e] eqn:Hd; cbn [SFabs]; try done.
  - by destruct s.
  - destruct s; [done|]. intros _.
    by rewrite (SFcompare_refl (S754_finite false m e)).
Qed.

Lemma ltb_opp_zero (x : float) : (0 <? - x) = (x <? 0).
Proof.
  rewrite !ltb_spec, opp_spec. change (Prim2SF 0) with (S754_zero false).
  unfold SFltb. by destruct (Prim2SF x) as [[]|[]| |[] m e].
Qed.

Lemma ltb_zero_opp (x : float) : (- x <? 0) = (0 <? x).
Proof. by rewrite <- ltb_opp_zero, opp_involutive. Qed.

(** X7. For a delta at or above zero the gradient never exceeds delta in
    absolute value, whatever the error: inside the band it is the error,
    outside it is [delta] or [-delta]. An error that is not a number is
    outside every band and not above zero, so its gradient is [-delta], a
    number. *)
Theorem huber_grad_clipped (error delta : float) :
  (0 <=? delta) = true ->
  (abs (huber_grad error delta) <=? delta) = true /\
  huber_grad nan delta = - delta.
Proof.
  intros Hd. unfold huber_grad. split.
  2:{ assert ((abs nan <=? delta) = false) as ->; [|reflexivity].
      rewrite leb_spec. reflexivity. }
  destruct (abs error <=? delta) eqn:Hin; [done|].
  destruct (0 <? error); [|rewrite abs_opp]; by apply abs_leb_nonneg.
Qed.

Lemma huber_grad_clipped_witness :
  (abs (huber_grad 0x1p1000 100) <=? 100) = true /\
  (abs (huber_grad (-250) 0) <=? 0) = true.
Proof.
  split.
  - apply (proj1 (huber_grad_clipped 0x1p1000 100 eq_refl)).
  - apply (proj1 (huber_grad_clipped (-250) 0 eq_refl)).
Defined.

(** ** Symmetry *)

Lemma binary_round_aux_opp (p emx : Z) (s : bool) (m e : Z) (l : location) :
  binary_round_aux p emx (negb s) m e l = SFopp (binary_round_aux p emx s m e l).
Proof.
  unfold binary_round_aux. destruct (shr_fexp p emx m e l) as [mrs' e'].
  destruct (shr_fexp p emx _ e' loc_Exact) as [mrs'' e''].
  destruct (shr_m mrs''); [done| |done]. by destruct (e'' <=? emx - p)%Z.
Qed.

Lemma SFmul_opp_r (p emx : Z) (x y : spec_float) :
  SFmul p emx x (SFopp y) = SFopp (SFmul p emx x y).
Proof.
  destruct x as [sx|sx| |sx mx ex], y as [sy|sy| |sy my ey];
    cbn [SFmul SFopp]; try done;
    rewrite <- ?negb_xorb_r; try done.
  apply binary_round_aux_opp.
Qed.

Lemma SFmul_opp_l (p emx : Z) (x y : spec_float) :
  SFmul p emx (SFopp x) y = SFopp (SFmul p emx x y).
Proof.
  destruct x as [sx|sx| |sx mx ex], y as [sy|sy| |sy my ey];
    cbn [SFmul SFopp]; try done;
    rewrite <- ?negb_xorb_l; try done.
  apply binary_round_aux_opp.
Qed.

Lemma mul_opp_r (x y : float) : x * - y = - (x * y).
Proof.
  apply Prim2SF_inj. rewrite opp_spec, !mul_spec, opp_spec.
  apply SFmul_opp_r.
Qed.

Lemma mul_opp_l (x y : float) : - x * y = - (x * y).
Proof.
  apply Prim2SF_inj. rewrite opp_spec, !mul_spec, opp_spec.
  apply SFmul_opp_l.
Qed.

(** X8. The loss of an error and of its negation are the same double, for
    every error and delta. The gradient of the negated error is the
    negated gradient whenever the error is inside the band, below zero or
    above zero. *)
Theorem huber_symmetry (error delta : float) :
  huber_loss (- error) delta = huber_loss error delta /\
  ((abs error <=? delta) = true \/ (error <? 0) = true \/ (0 <? error) = true ->
   huber_grad (- error) delta = - huber_grad error delta).
Proof.
  unfold huber_loss, huber_grad. rewrite abs_opp. split.
  - destruct (abs error <=? delta); [|done].
    by rewrite (mul_opp_r 0.5 error), mul_opp_r, mul_opp_l, opp_involutive.
  - intros H. destruct (abs error <=? delta) eqn:Hin; [done|].
    rewrite ltb_opp_zero.
    destruct H as [H|[H|H]]; [done| |].
    + rewrite H, (ltb_zero_asym _ H). by rewrite opp_involutive.
    + rewrite H. destruct (error <? 0) eqn:Hneg; [|done].
      apply ltb_zero_asym in Hneg. congruence.
Qed.

End HuberBounds.

(** * The weight file in every case: what is written, and when the write
      returns *)

Module WriterFacts.

Import PyList PyListFacts Snnue SpecFloatFacts SnnueFacts.


(** X10. What a failed write leaves at the path (a path with a directory
    part that names no directory). A size that does not fit 16 bits raises
    the error of [struct.pack] and leaves the four bytes of the magic token.
    With sizes that fit, a parameter that overflows binary32 raises
    [OverflowError] and leaves the header and the parameters before the
    first such one. With sizes and parameters that fit, a wrong number of
    parameters raises [ValueError] and leaves the header and all of them. No
    other exception is raised. *)
Theorem write_snnue_failure_modes (fs : disk) (path : string)
  (input_size hidden_size : Z) (w1 : list (list float)) (b1 w2 : list float)
  (b2 : float) :
  has_dirname path = true -> names_directory path = false ->
  let ps := parameters w1 b1 w2 b2 in
  let out := write_snnue fs path input_size hidden_size w1 b1 w2 b2 in
  let written := MAGIC ++ fields input_size hidden_size
                 ++ encode_f32s (fit_prefix ps) in
  let sizes_fit := 0 <= input_size <= 65535 /\ 0 <= hidden_size <= 65535 in
  (out.2 = Err StructError <-> ~ sizes_fit) /\
  (out.2 = Err StructError -> out.1 !! path = Some MAGIC) /\
  (out.2 = Err OverflowError <-> sizes_fit /\ forallb fits32 ps = false) /\
  (out.2 = Err OverflowError ->
     out.1 !! path = Some written /\ (length (fit_prefix ps) < length ps)%nat) /\
  (out.2 = Err ValueError <->
     sizes_fit /\ forallb fits32 ps = true /\
     Z.of_nat (length ps) ≠ float_count input_size hidden_size) /\
  (out.2 = Err ValueError ->
     out.1 !! path = Some written /\ length (fit_prefix ps) = length ps) /\
  (forall e, out.2 = Err e ->
     e = StructError \/ e = OverflowError \/ e = ValueError).
Proof.
  intros Hd Hn ps out written sizes_fit. subst out sizes_fit.
  rewrite (write_snnue_run fs path _ _ w1 b1 w2 b2 Hd Hn). cbv zeta.
  fold ps. fold written. rewrite <- !fits16_range.
  destruct (fits16 input_size); cbn [andb fst snd];
    [|rewrite (lookup_insert_eq fs path); intuition (try discriminate; try congruence; eauto)].
  destruct (fits16 hidden_size); cbn [andb fst snd];
    [|rewrite (lookup_insert_eq fs path); intuition (try discriminate; try congruence; eauto)].
  rewrite (lookup_insert_eq fs path).
  destruct (forallb fits32 ps) eqn:Hfit.
  - pose proof (Forall2_length _ _ _ (fit_prefix_all _ Hfit)) as Hlen.
    destruct (Z.eqb_spec (Z.of_nat (length ps))
                (float_count input_size hidden_size)) as [Heq|Hne].
    + intuition (try discriminate; try lia; try congruence; eauto).
    + intuition (try discriminate; try lia; try congruence; eauto).
  - pose proof (fit_prefix_short _ Hfit).
    intuition (try discriminate; try congruence; eauto).
Qed.

(** A size of 70000 does not fit: the file holds the magic token. *)
Lemma write_snnue_failure_modes_witness :
  let out := write_snnue ∅ "weights/w.snnue" 70000 64 [] [] [] 0%float in
  out.2 = Err StructError /\ out.1 !! "weights/w.snnue" = Some MAGIC.
Proof.
  cbv zeta.
  destruct (write_snnue_failure_modes ∅ "weights/w.snnue" 70000 64 [] [] []
              0%float eq_refl eq_refl) as (Hs & Hm & _).
  cbv zeta in Hs, Hm.
  assert ((write_snnue ∅ "weights/w.snnue" 70000 64 [] [] [] 0%float).2
          = Err StructError) as Hr by (apply Hs; lia).
  split; [exact Hr | exact (Hm Hr)].
Defined.

(** ** Reading the file back *)

Definition read_u16 (b0 b1 : byte) : Z := Z_of_byte b0 + 256 * Z_of_byte b1.

(** The four fields of a header that starts with the magic token. *)
Definition read_header (bs : list byte) : option (Z * Z * Z * Z) :=
  match bs with
  | m0 :: m1 :: m2 :: m3 :: a0 :: a1 :: b0 :: b1 :: c0 :: c1 :: d0 :: d1 :: _ =>
      if Byte.eqb m0 "S" && Byte.eqb m1 "N" && Byte.eqb m2 "N" && Byte.eqb m3 "1"
      then Some (read_u16 a0 a1, read_u16 b0 b1, read_u16 c0 c1, read_u16 d0 d1)
      else None
  | _ => None
  end.

Lemma read_u16_le_bytes2 (v : Z) :
  0 <= v <= 65535 -> read_u16 (byte_of_Z v) (byte_of_Z (v / 256)) = v.
Proof.
  intros Hv. unfold read_u16. rewrite !Z_of_byte_of_Z.
  assert (0 <= v / 256 < 256).
  { split; [apply Z.div_pos; lia|apply Z.div_lt_upper_bound; lia]. }
  rewrite (Z.mod_small (v / 256)) by lia.
  pose proof (Z.div_mod v 256 ltac:(lia)). lia.
Qed.

(** X11. A file the write returned on reads back: its first twelve bytes
    are the magic token and the two sizes, the version 1 and the flags 0 as
    little-endian 16-bit integers, and the bytes after them decode, four by
    four, to the binary32 roundings of the parameters in the order [w1]
    row by row, [b1], [w2], [b2]. This holds for all sizes, not only 768 and
    64. *)
Theorem write_body_round_trip (input_size hidden_size : Z)
  (w1 : list (list float)) (b1 w2 : list float) (b2 : float) (buf : list byte) :
  write_body input_size hidden_size w1 b1 w2 b2 = (buf, Ok ()) ->
  read_header buf = Some (input_size, hidden_size, VERSION, FLAGS) /\
  exists qs,
    Forall2 (fun x q => f32_of_float x = Ok q) (parameters w1 b1 w2 b2) qs /\
    decode_f32s (drop 12 buf) = Some qs /\
    Z.of_nat (length qs) = float_count input_size hidden_size.
Proof.
  rewrite write_body_run.
  destruct (fits16 input_size) eqn:Hi; cbn [andb]; [|discriminate].
  destruct (fits16 hidden_size) eqn:Hh; cbn [andb]; [|discriminate].
  cbv zeta.
  destruct (forallb fits32 (parameters w1 b1 w2 b2)) eqn:Hfit; [|discriminate].
  unfold check_length. rewrite length_written. unfold byte_length.
  destruct (Z.eqb_spec (12 + Z.of_nat (length (fit_prefix (parameters w1 b1 w2 b2))) * 4)
              (12 + float_count input_size hidden_size * 4)) as [Heq|Hne];
    [|discriminate].
  intros [= <-]. apply fits16_range in Hi, Hh. split.
  - unfold fields, le_bytes2, MAGIC. cbn [app read_header Byte.eqb andb].
    change (Byte.eqb "S" "S" && Byte.eqb "N" "N" && Byte.eqb "N" "N"
            && Byte.eqb "1" "1") with true. cbv iota.
    rewrite !read_u16_le_bytes2 by (unfold VERSION, FLAGS; lia). done.
  - pose proof (fit_prefix_all _ Hfit) as Hq.
    exists (fit_prefix (parameters w1 b1 w2 b2)). split; [done|]. split; [|lia].
    change (drop 12 (MAGIC ++ fields input_size hidden_size ++ ?l)) with l.
    apply decode_encode_f32s. apply Forall_forall. intros q Hin.
    apply list_elem_of_lookup in Hin as [i Hi'].
    destruct (Forall2_lookup_r _ _ _ i q Hq Hi') as (x & _ & Hx).
    by apply f32_of_float_valid in Hx.
Qed.

(** One input, one hidden unit: four parameters, 28 bytes. *)
Lemma write_body_round_trip_witness :
  exists buf,
    write_body 1 1 [[0.5%float]] [0.25%float] [2%float] 1%float = (buf, Ok ()) /\
    read_header buf = Some (1, 1, 1, 0) /\
    length buf = 28%nat.
Proof.
  eexists. split; [vm_compute; reflexivity|].
  split; [|reflexivity].
  refine (proj1 (write_body_round_trip 1 1 [[0.5%float]] [0.25%float] [2%float]
                   1%float _ _)).
  vm_compute. reflexivity.
Defined.

End WriterFacts.

(** * The loader: what it counts, what it caps, what its statistics bound *)

Module LoadCountFacts.

Import PyList PyRandom PyRandomFacts Loader FloatOrder.

(** The rows skipped, all four reasons together. *)
Definition skipped_total (s : Skipped) : Z :=
  timeoutGame s + timeoutNearby s + mate s + missingTimeoutSummary s.

Definition counters_nonneg (s : Skipped) : Prop :=
  0 <= timeoutGame s /\ 0 <= timeoutNearby s /\ 0 <= mate s /\
  0 <= missingTimeoutSummary s.

(** The [break]: a cap other than zero that the samples have reached. *)
Definition cap_reached (max_samples : option Z) (n : nat) : Prop :=
  exists cap, max_samples = Some cap /\ cap ≠ 0 /\ cap <= Z.of_nat n.

(** What one row does to the counts. *)
Lemma load_row_counts (files : Files) (timeout_map : option (gmap Z Z))
  (max_samples : option Z) (row : Row) (st st' : LoadState) (stop : bool) :
  load_row files timeout_map max_samples row st = Ok (st', stop) ->
  (Z.of_nat (length (samples st')) + skipped_total (skipped st')
   = Z.of_nat (length (samples st)) + skipped_total (skipped st) + 1) /\
  (counters_nonneg (skipped st) -> counters_nonneg (skipped st')) /\
  (length (samples st) <= length (samples st') <= S (length (samples st)))%nat /\
  (stop = true -> cap_reached max_samples (length (samples st'))) /\
  (stop = false -> length (samples st') = S (length (samples st)) ->
   ~ cap_reached max_samples (length (samples st'))).
Proof.
  unfold load_row.
  destruct (row_gameId row) as [game_id|]; [|discriminate]. cbn.
  destruct (row_runId row) as [run_id|]; [|discriminate].
  destruct (String.eqb run_id ""); [discriminate|].
  destruct (game_timeout files timeout_map run_id game_id (timeout_cache st))
    as [tc [t|]].
  2:{ intros [= <- <-]. unfold skipped_total, counters_nonneg. cbn.
      repeat split; try lia; try done. }
  destruct (negb (t =? 0)).
  { intros [= <- <-]. unfold skipped_total, counters_nonneg. cbn.
    repeat split; try lia; try done. }
  destruct (row_timeoutNearby row).
  { intros [= <- <-]. unfold skipped_total, counters_nonneg. cbn.
    repeat split; try lia; try done. }
  destruct (row_evalCp row) as [eval_cp|].
  2:{ intros [= <- <-]. unfold skipped_total, counters_nonneg. cbn.
      repeat split; try lia; try done. }
  destruct (row_mateIn row) as [mate_in|].
  { intros [= <- <-]. unfold skipped_total, counters_nonneg. cbn.
    repeat split; try lia; try done. }
  cbn [cache samples skipped].
  destruct (make_sample files row run_id game_id eval_cp (cache st))
    as [[s cache']|]; [|discriminate]. cbn.
  intros [= <- <-]. cbn [samples skipped]. rewrite length_app. cbn [length].
  split; [lia|]. split; [done|]. split; [lia|].
  unfold cap_reached. destruct max_samples as [cap|]; split.
  - intros H. apply andb_prop in H as [H1 H2]. apply negb_true_iff, Z.eqb_neq in H1.
    apply Z.leb_le in H2. exists cap. cbn in H2.
    split; [done|]. split; [done|lia].
  - intros H _ (cap' & [= <-] & Hne & Hle).
    apply andb_false_iff in H as [H|H].
    + apply negb_false_iff, Z.eqb_eq in H. done.
    + apply Z.leb_gt in H. cbn in H. lia.
  - discriminate.
  - intros _ _ (cap' & [=] & _).
Qed.

(** The loop over the rows, from any state: the rows it consumed, counted. *)
Lemma load_rows_counts (files : Files) (timeout_map : option (gmap Z Z))
  (max_samples : option Z) (rows : list Row) :
  forall st st',
    load_rows files timeout_map max_samples rows st = Ok st' ->
    ~ cap_reached max_samples (length (samples st)) \/ samples st = [] ->
    exists k : nat,
      (k <= length rows)%nat /\
      Z.of_nat (length (samples st')) + skipped_total (skipped st')
      = Z.of_nat (length (samples st)) + skipped_total (skipped st) + Z.of_nat k /\
      (counters_nonneg (skipped st) -> counters_nonneg (skipped st')) /\
      (k < length rows -> cap_reached max_samples (length (samples st')))%nat /\
      (forall cap, max_samples = Some cap -> 0 < cap ->
         Z.of_nat (length (samples st)) <= cap ->
         Z.of_nat (length (samples st')) <= cap).
Proof.
  induction rows as [|row rows IH]; intros st st' Hrun Hst; cbn in Hrun.
  - injection Hrun as <-. exists 0%nat. split; [done|]. split; [lia|].
    split; [done|]. split; [cbn; lia|]. by intros.
  - destruct (load_row files timeout_map max_samples row st) as [[st1 stop]|] eqn:Hrow;
      [|discriminate]. cbn in Hrun.
    destruct (load_row_counts _ _ _ _ _ _ _ Hrow) as (Hc & Hnn & Hlen & Hstop & Hgo).
    destruct stop.
    + injection Hrun as <-. exists 1%nat. cbn [length].
      split; [lia|]. split; [lia|]. split; [done|].
      split; [intros _; by apply Hstop|].
      intros cap Hcap Hpos Hle.
      assert (length (samples st1) = length (samples st)
              \/ length (samples st1) = S (length (samples st))) as [E|E] by lia.
      * lia.
      * destruct Hst as [Hst|Hst].
        -- assert (Z.of_nat (length (samples st)) < cap); [|lia].
           destruct (Z.ltb_spec (Z.of_nat (length (samples st))) cap); [done|].
           exfalso. apply Hst. exists cap. split; [done|]. split; lia.
        -- rewrite E, Hst. cbn. lia.
    + destruct (IH st1 st' Hrun) as (k & Hk & Hsum & Hnn' & Hcap & Hbound).
      { assert (length (samples st1) = length (samples st)
                \/ length (samples st1) = S (length (samples st))) as [E|E] by lia.
        - destruct Hst as [Hst|Hst]; [left; by rewrite E|right].
          rewrite Hst in E. cbn in E. by destruct (samples st1).
        - left. by apply Hgo. }
      exists (S k). cbn [length]. split; [lia|]. split; [lia|].
      split; [auto|]. split; [intros Hlt; apply Hcap; lia|].
      intros cap Hmax Hpos Hle. apply (Hbound cap Hmax Hpos).
      assert (length (samples st1) = length (samples st)
              \/ length (samples st1) = S (length (samples st))) as [E|E] by lia.
      * lia.
      * specialize (Hgo eq_refl E).
        destruct (Z.leb_spec (Z.of_nat (length (samples st1))) cap); [done|].
        exfalso. apply Hgo. exists cap. split; [done|]. split; lia.
Qed.

(** X12. Every row the loader consumed is counted once: the samples
    returned and the four skip counters add up to the number of rows read,
    and no counter is negative. The loader reads all rows unless a cap other
    than zero was reached; a positive [max_samples] bounds the number of
    samples returned, and a cap of zero is no cap. *)
Theorem load_samples_counts `{Generator} (rows : list Row) (files : Files)
  (timeout_map : option (gmap Z Z)) (max_samples : option Z) (seed : Z)
  (loaded : list Sample) (skips : Skipped) (stats : LabelStats) :
  load_samples rows files timeout_map max_samples seed
  = Ok (loaded, skips, stats) ->
  exists consumed : nat,
    (consumed <= length rows)%nat /\
    Z.of_nat (length loaded) + skipped_total skips = Z.of_nat consumed /\
    counters_nonneg skips /\
    (0 < length loaded)%nat /\
    ((consumed < length rows)%nat -> cap_reached max_samples (length loaded)) /\
    (max_samples = None \/ max_samples = Some 0 -> consumed = length rows) /\
    (forall cap, max_samples = Some cap -> 0 < cap ->
       Z.of_nat (length loaded) <= cap).
Proof.
  unfold load_samples. intros Hrun.
  destruct (load_rows files timeout_map max_samples rows initial_state)
    as [st|] eqn:Hrows; [|discriminate]. cbn in Hrun.
  destruct (Nat.eqb_spec (length (shuffle (samples st) (Random seed)).1) 0)
    as [|Hne]; [discriminate|].
  injection Hrun as <- <- _.
  assert (length (shuffle (samples st) (Random seed)).1 = length (samples st))
    as Hl by (by rewrite shuffle_Permutation).
  rewrite Hl in *.
  destruct (load_rows_counts _ _ _ _ _ _ Hrows) as (k & Hk & Hsum & Hnn & Hcap & Hb).
  { by right. }
  exists k. unfold skipped_total in *. cbn in Hsum. split; [done|]. split; [lia|].
  split; [apply Hnn; unfold counters_nonneg; cbn; lia|]. split; [lia|].
  split; [done|]. split.
  - intros Hmax. destruct (decide (k < length rows)%nat) as [Hlt|]; [|lia].
    destruct (Hcap Hlt) as (cap & Hc & Hne0 & _).
    destruct Hmax as [Hmax|Hmax]; rewrite Hmax in Hc; [discriminate|].
    by injection Hc as <-.
  - intros cap Hmax Hpos. apply (Hb cap Hmax Hpos). cbn. lia.
Qed.

(** The one-row dataset: one row read, one sample, nothing skipped. *)
Lemma load_samples_counts_witness :
  exists loaded skips stats,
    load_samples (H := lcg) [LoaderFacts.one_row] LoaderFacts.one_row_files
      (Some ∅) (Some 5) 1337 = Ok (loaded, skips, stats) /\
    Z.of_nat (length loaded) <= 5.
Proof.
  destruct (load_samples (H := lcg) [LoaderFacts.one_row]
              LoaderFacts.one_row_files (Some ∅) (Some 5) 1337)
    as [[[loaded skips] stats]|e] eqn:Hrun.
  - exists loaded, skips, stats. split; [reflexivity|].
    destruct (load_samples_counts (H := lcg) _ _ _ _ _ _ _ _ Hrun)
      as (k & _ & _ & _ & _ & _ & _ & Hcap).
    exact (Hcap 5 eq_refl ltac:(lia)).
  - exfalso. vm_compute in Hrun. discriminate.
Defined.

(** ** The label statistics *)

Local Open Scope float_scope.










(** ** Runs without a timeout summary *)

Local Open Scope Z_scope.







End LoadCountFacts.

(** * The sizes of the two sides of a split *)

Module SplitSizeFacts.

Import PyList PyRandom PyRandomFacts Loader Split CutoffFacts SplitFacts.

(** The distinct games of a list of samples. *)
Definition games_of (samples : list Sample) : list Z :=
  remove_dups (gameId <$> samples).

Lemma elem_of_games_of (samples : list Sample) (g : Z) :
  g ∈ games_of samples <-> exists s, s ∈ samples /\ gameId s = g.
Proof.
  unfold games_of. rewrite elem_of_remove_dups, list_elem_of_fmap.
  split; intros (s & ? & ?); exists s; done.
Qed.

Section Sizes.

Context `{G : Generator} `{O : SetOrder} `{!SetOrderLaws O}.

Lemma length_shuffled_games (samples : list Sample) (seed : Z) :
  length (shuffled_games samples seed) = length (games_of samples).
Proof.
  apply Permutation_length, NoDup_Permutation.
  - apply shuffled_games_NoDup.
  - apply NoDup_remove_dups.
  - intros g. by rewrite shuffled_games_elem, elem_of_games_of.
Qed.

(** The split, with the games of the training group named. *)
Lemma split_by_game_run (samples : list Sample) (seed : Z) :
  Z.of_nat (length samples) < 2 ^ 50 ->
  let games := shuffled_games samples seed in
  let cutoff := Z.to_nat (9 * Z.of_nat (length games) / 10) in
  split_by_game samples seed
  = Ok (filter (fun s => in_games (take cutoff games) s = true) samples,
        filter (fun s => in_games (take cutoff games) s = false) samples).
Proof.
  intros Hlen games cutoff.
  pose proof (shuffled_games_length samples seed) as Hle. fold games in Hle.
  assert (cutoff_of (length games) = Ok (9 * Z.of_nat (length games) / 10))
    as Hcut by (apply cutoff_of_floor; lia).
  assert (0 <= 9 * Z.of_nat (length games) / 10) as Hnn
    by (apply Z.div_pos; lia).
  unfold split_by_game. fold (shuffled_games samples seed). fold games.
  rewrite Hcut. cbn. unfold py_take.
  destruct (Z.ltb_spec (9 * Z.of_nat (length games) / 10) 0); [lia|done].
Qed.

Lemma games_of_side (samples : list Sample) (group : list Z) (b : bool) :
  forall g,
    g ∈ games_of (filter (fun s => in_games group s = b) samples) <->
    g ∈ games_of samples /\ bool_decide (g ∈ group) = b.
Proof.
  intros g. rewrite !elem_of_games_of. split.
  - intros (s & Hs & <-). apply list_elem_of_filter in Hs as [Hb Hs].
    split; [by exists s|done].
  - intros [(s & Hs & <-) Hb]. exists s. split; [|done].
    apply list_elem_of_filter. done.
Qed.

(** X15. For a sample list of fewer than [2^50] entries with [n] distinct
    games, the train set holds the samples of exactly [floor(0.9 * n)]
    games and the validation set those of the other [n - floor(0.9 * n)].
    So the validation set of a non-empty list is never empty, and the train
    set is non-empty exactly when there are at least two games. *)
Theorem split_by_game_sizes (samples : list Sample) (seed : Z) :
  Z.of_nat (length samples) < 2 ^ 50 ->
  let n := length (games_of samples) in
  exists train val,
    split_by_game samples seed = Ok (train, val) /\
    Z.of_nat (length (games_of train)) = 9 * Z.of_nat n / 10 /\
    Z.of_nat (length (games_of val)) = Z.of_nat n - 9 * Z.of_nat n / 10 /\
    (samples ≠ [] -> val ≠ []) /\
    (train ≠ [] <-> (2 <= n)%nat).
Proof.
  intros Hlen n. rewrite (split_by_game_run samples seed Hlen). cbv zeta.
  set (games := shuffled_games samples seed).
  assert (length games = n) as Hn by apply length_shuffled_games.
  rewrite Hn.
  set (cutoff := Z.to_nat (9 * Z.of_nat n / 10)).
  assert (0 <= 9 * Z.of_nat n / 10) as Hnn by (apply Z.div_pos; lia).
  assert (9 * Z.of_nat n / 10 <= Z.of_nat n) as Hcn
    by (apply Z.div_le_upper_bound; lia).
  assert (cutoff <= n)%nat as Hc by lia.
  pose proof (shuffled_games_NoDup samples seed) as Hnd. fold games in Hnd.
  assert (forall g, g ∈ games <-> g ∈ games_of samples) as Hel.
  { intros g. unfold games. by rewrite shuffled_games_elem, elem_of_games_of. }
  rewrite <- (take_drop cutoff games) in Hnd.
  apply NoDup_app in Hnd as (Hnd1 & Hdisj & Hnd2).
  set (train := filter (fun s => in_games (take cutoff games) s = true) samples).
  set (val := filter (fun s => in_games (take cutoff games) s = false) samples).
  assert (games_of train ≡ₚ take cutoff games) as Ptrain.
  { apply NoDup_Permutation; [apply NoDup_remove_dups|done|].
    intros g. unfold train. rewrite games_of_side, bool_decide_eq_true.
    split; [tauto|]. intros Hg. split; [|done].
    apply Hel. rewrite <- (take_drop cutoff games). apply elem_of_app. by left. }
  assert (games_of val ≡ₚ drop cutoff games) as Pval.
  { apply NoDup_Permutation; [apply NoDup_remove_dups|done|].
    intros g. unfold val. rewrite games_of_side, bool_decide_eq_false.
    rewrite <- Hel. rewrite <- (take_drop cutoff games) at 1.
    rewrite elem_of_app. split.
    - intros [[?|?] ?]; done.
    - intros Hg. split; [by right|]. intros Ht. by apply (Hdisj g). }
  assert (length (games_of train) = cutoff) as Ltrain.
  { rewrite Ptrain, length_take. lia. }
  assert (length (games_of val) = (n - cutoff)%nat) as Lval.
  { rewrite Pval, length_drop. lia. }
  exists train, val. split; [done|]. split; [lia|]. split; [lia|].
  assert (forall l : list Sample, l ≠ [] <-> (0 < length (games_of l))%nat)
    as Hnonempty.
  { intros [|s l]; [cbn; split; [done|lia]|]. split; [|done]. intros _.
    assert (gameId s ∈ games_of (s :: l))
      by (apply elem_of_games_of; exists s; split; [left|done]).
    destruct (games_of (s :: l)); [by apply elem_of_nil in H|cbn; lia]. }
  split.
  - intros Hne. apply Hnonempty. apply Hnonempty in Hne. fold n in Hne.
    assert (9 * Z.of_nat n / 10 < Z.of_nat n)
      by (apply Z.div_lt_upper_bound; lia).
    lia.
  - rewrite Hnonempty, Ltrain. unfold cutoff. split; intros H.
    + destruct (decide (2 <= n)%nat); [done|].
      assert (9 * Z.of_nat n / 10 = 0); [|lia].
      apply Z.div_small. lia.
    + assert (1 <= 9 * Z.of_nat n / 10); [|lia].
      apply Z.div_le_lower_bound; lia.
Qed.

End Sizes.

(** Twelve samples of ten games: nine games to train on, one to validate. *)
Lemma split_by_game_sizes_witness :
  exists train val,
    split_by_game (H := lcg) (H0 := first_seen) twelve_samples 1337
    = Ok (train, val) /\
    Z.of_nat (length (games_of train)) = 9 /\
    Z.of_nat (length (games_of val)) = 1.
Proof.
  destruct (split_by_game_sizes (G := lcg) (O := first_seen) twelve_samples 1337
              ltac:(vm_compute; reflexivity))
    as (train & val & Hrun & Ht & Hv & _).
  exists train, val. split; [exact Hrun|]. split; [exact Ht|exact Hv].
Defined.

End SplitSizeFacts.

(** * How early the loop can stop *)

Module StoppingFacts.

Import PyList Trainer FloatOrder TrainerFacts.

Local Open Scope float_scope.

Section Bounds.

Context {Params Snap : Type}.
Variable learn_epoch : Params -> result (Params * float).
Variable validation_loss : Params -> result float.
Variable snapshot : Params -> Snap.
Variables patience minEpochs : Z.

Abbreviation step :=
  (epoch_step learn_epoch validation_loss snapshot patience minEpochs).
Abbreviation run :=
  (run_epochs learn_epoch validation_loss snapshot patience minEpochs).

Abbreviation State := (LoopState (P := Params) (S := Snap)).

(** The epoch number of a history entry. *)
Definition entry_epoch (e : Z * float * float) : Z := e.1.1.

(** After [k] epochs: the history lists the epochs 1 to [k], the best epoch
    is one of them or 0, and the counter has lost at most one for each epoch
    since the best. *)
Record count_inv (k : nat) (st : State) : Prop := {
  ci_history : entry_epoch <$> history st = Z.of_nat <$> seq 1 k;
  ci_best : (0 <= best_epoch st <= Z.of_nat k)%Z;
  ci_left : (patience - (Z.of_nat k - best_epoch st) <= patience_left st)%Z
}.

Lemma count_inv_start (m0 : Params) : count_inv 0 (loop_start patience m0).
Proof. constructor; cbn; [done|lia|lia]. Qed.

Lemma count_inv_step (k : nat) (st st' : State) (stop : bool) :
  count_inv k st -> step (Z.of_nat k) st = Ok (st', stop) ->
  count_inv (S k) st' /\
  (stop = true ->
   (minEpochs <= Z.of_nat (S k))%Z /\
   (best_epoch st' + patience <= Z.of_nat (S k))%Z).
Proof.
  intros [Hh Hb Hl] Hstep.
  apply (step_spec learn_epoch validation_loss snapshot patience minEpochs)
    in Hstep as (m & tl & v & _ & _ & _ & Hhist & Hcase).
  assert (entry_epoch <$> history st' = Z.of_nat <$> seq 1 (S k)) as Hh'.
  { rewrite Hhist, fmap_app, Hh, seq_S, fmap_app. cbn. do 3 f_equal. lia. }
  destruct (v <? best_val st).
  - destruct Hcase as (Hp & _ & He & _ & ->). split; [|done].
    constructor; [done|lia|lia].
  - destruct Hcase as (_ & He & _ & Hcase).
    destruct (Z.leb_spec minEpochs (Z.of_nat k + 1)) as [Hmin|Hmin];
      destruct Hcase as [Hp ->].
    + split; [constructor; [done|lia|lia]|].
      intros Hs%Z.leb_le. lia.
    + split; [constructor; [done|lia|lia]|done].
Qed.

Lemma run_bound (n : nat) :
  forall (k : nat) (st st' : State) (stopped : bool),
    count_inv k st ->
    run (Z.of_nat <$> seq k n) st = Ok (st', stopped) ->
    exists k' : nat,
      (k <= k' <= k + n)%nat /\ count_inv k' st' /\
      (stopped = true ->
       (k < k')%nat /\ (minEpochs <= Z.of_nat k')%Z /\
       (best_epoch st' + patience <= Z.of_nat k')%Z).
Proof.
  induction n as [|n IH]; intros k st st' stopped Hinv Hrun.
  - cbn in Hrun. injection Hrun as <- <-. exists k. split; [lia|]. done.
  - cbn [seq fmap list_fmap run_epochs] in Hrun.
    destruct (step (Z.of_nat k) st) as [[st1 stop]|] eqn:Hstep; [|discriminate].
    cbn in Hrun. destruct (count_inv_step k st st1 stop Hinv Hstep) as [Hinv1 Hstop].
    destruct stop.
    + injection Hrun as <- <-. exists (S k). split; [lia|]. split; [done|].
      intros _. split; [lia|]. by apply Hstop.
    + destruct (IH (S k) st1 st' stopped Hinv1 Hrun) as (k' & Hk' & Hinv' & Hs).
      exists k'. split; [lia|]. split; [done|].
      intros Ht. destruct (Hs Ht) as (? & ? & ?). split; [lia|done].
Qed.

(** X16. The history the loop leaves lists the epochs run, numbered from 1,
    never more than [epochs] of them, and the best epoch is 0 or one of
    them. A loop that stopped early ran at least [minEpochs] epochs, and at
    least [patience] epochs after its best one. So with fewer epochs than
    [minEpochs] (the defaults are 3 and 5) the loop never stops early. *)
Theorem early_stop_bound (epochs : Z) (m0 : Params) (st : State)
  (stopped : bool) :
  training_loop learn_epoch validation_loss snapshot patience minEpochs
    epochs m0 = Ok (st, stopped) ->
  let k := Z.of_nat (length (history st)) in
  entry_epoch <$> history st = Z.of_nat <$> seq 1 (length (history st)) /\
  (0 <= k)%Z /\ (0 < epochs -> k <= epochs)%Z /\ (epochs <= 0 -> k = 0)%Z /\
  (0 <= best_epoch st <= k)%Z /\
  (stopped = true ->
   (minEpochs <= k)%Z /\ (best_epoch st + patience <= k)%Z) /\
  ((epochs < minEpochs)%Z -> stopped = false).
Proof.
  intros Hrun k. unfold training_loop, range in Hrun.
  destruct (run_bound _ 0 _ st stopped (count_inv_start m0) Hrun)
    as (k' & Hk' & [Hh Hb Hl] & Hs).
  assert (length (history st) = k') as Hlen.
  { rewrite <- (length_fmap entry_epoch), Hh, length_fmap. apply length_seq. }
  subst k. rewrite Hlen.
  split; [done|]. split; [lia|]. split; [lia|]. split; [lia|].
  split; [done|]. split; [intros Ht; by destruct (Hs Ht) as (_ & ? & ?)|].
  intros Hlt. destruct stopped; [|done]. destruct (Hs eq_refl) as (? & ? & ?). lia.
Qed.

End Bounds.

(** The scripted loop of patience 2 and 3 minimum epochs that stops after
    epoch 4: at least 3 epochs, and 2 after the best, epoch 2. *)
Lemma early_stop_bound_witness :
  exists st,
    scripted_loop [3; 2; 2; 2; 2; 2] 2 3 6 = Ok (st, true) /\
    (3 <= Z.of_nat (length (history st)))%Z /\
    (best_epoch st + 2 <= Z.of_nat (length (history st)))%Z.
Proof.
  destruct (scripted_loop [3; 2; 2; 2; 2; 2] 2 3 6) as [[st [|]]|] eqn:Hrun.
  - exists st. split; [reflexivity|].
    destruct (early_stop_bound scripted_learn (scripted_loss [3; 2; 2; 2; 2; 2])
                take_snapshot 2 3 6 scripted_start st true Hrun)
      as (_ & _ & _ & _ & _ & Hs & _).
    exact (Hs eq_refl).
  - exfalso. vm_compute in Hrun. discriminate.
  - exfalso. vm_compute in Hrun. discriminate.
Defined.

End StoppingFacts.

(** * The run: the initial model, and what a run that returns leaves *)

Module RunFacts.

Import PyList PyRandom PyRandomFacts Loader Split SplitFacts Model ModelFacts
  Trainer TrainerFacts Snnue SnnueFacts Pipeline ForwardFacts WriterFacts.

Local Open Scope float_scope.

(** ** The initial model *)







(** ** The shape of the model through the fit *)












End RunFacts.

(** * The digest covers the whole file *)

Module DigestFacts.

Import Snnue Digest.

Lemma length_CHUNK : CHUNK = Z.to_nat 8192.
Proof. reflexivity. Qed.

#[local] Opaque CHUNK.

Lemma CHUNK_pos : (0 < CHUNK)%nat.
Proof. rewrite length_CHUNK. lia. Qed.

(** The loop, for any hash object: the pieces it feeds. *)
Lemma read_chunks_pieces `{Hash} (fuel : nat) :
  forall (rest : list byte) (d : hasher),
    (length rest < fuel)%nat ->
    exists chunks,
      concat chunks = rest /\
      Forall (fun c => c ≠ [] /\ (length c <= CHUNK)%nat) chunks /\
      read_chunks fuel rest d = Some (foldl update d chunks).
Proof.
  induction fuel as [|fuel IH]; intros rest d Hlen; [lia|].
  cbn [read_chunks read].
  destruct (take CHUNK rest) as [|b chunk] eqn:Htake.
  - exists []. assert (rest = []) as ->.
    { destruct rest as [|b rest]; [done|]. pose proof CHUNK_pos.
      destruct CHUNK; [lia|]. discriminate. }
    by repeat split.
  - assert (length (drop CHUNK rest) < fuel)%nat as Hshort.
    { rewrite length_drop. pose proof CHUNK_pos.
      destruct rest; [done|]. cbn [length] in *. lia. }
    destruct (IH (drop CHUNK rest) (update d (b :: chunk)) Hshort)
      as (chunks & Hcat & Hall & Hrun).
    exists ((b :: chunk) :: chunks). split; [|split].
    + cbn [concat]. rewrite Hcat, <- Htake. apply take_drop.
    + constructor; [|done]. split; [done|].
      rewrite <- Htake, length_take. lia.
    + by rewrite Hrun.
Qed.

(** Under the law of the hash object, feeding the pieces is feeding the
    file. *)
Lemma foldl_update_concat `{H : Hash} `{!HashLaws H} (chunks : list (list byte)) :
  forall d : hasher,
    chunks ≠ [] -> foldl update d chunks = update d (concat chunks).
Proof.
  induction chunks as [|c chunks IH]; intros d Hne; [done|].
  cbn [foldl concat]. destruct chunks as [|c' chunks].
  - cbn. by rewrite app_nil_r.
  - rewrite IH by done. apply update_app.
Qed.

(** X19. [sha256_file] on a path that names no file raises
    [FileNotFoundError]. On a file it reads the content piece by piece, each
    piece non-empty and of at most 8192 bytes, the pieces together being the
    content, byte for byte and in order; given reads enough for the length of
    the file it returns the digest of the hash object fed with these pieces
    in turn: by the law of hash objects, the digest of the whole content.
    The digest of an empty file is that of the fresh hash object. *)
Theorem sha256_file_whole `{H : Hash} (fuel : nat) (fs : disk) (path : string)
  (content : list byte) :
  fs !! path = Some content -> (length content < fuel)%nat ->
  (exists chunks,
     concat chunks = content /\
     Forall (fun c => c ≠ [] /\ (length c <= Z.to_nat 8192)%nat) chunks /\
     sha256_file fuel fs path = Some (Ok (hexdigest (foldl update sha256 chunks)))) /\
  (HashLaws H -> content ≠ [] ->
   sha256_file fuel fs path = Some (Ok (hexdigest (update sha256 content)))) /\
  (content = [] -> sha256_file fuel fs path = Some (Ok (hexdigest sha256))) /\
  (forall other, fs !! other = None ->
     sha256_file fuel fs other = Some (Err FileNotFoundError)).
Proof.
  intros Hfile Hlen.
  destruct (read_chunks_pieces fuel content sha256 Hlen) as (chunks & Hcat & Hall & Hrun).
  assert (sha256_file fuel fs path
          = Some (Ok (hexdigest (foldl update sha256 chunks)))) as Hsha.
  { unfold sha256_file. rewrite Hfile, Hrun. done. }
  split; [|split; [|split]].
  - exists chunks. rewrite <- length_CHUNK. done.
  - intros Hlaws Hne. rewrite Hsha. do 3 f_equal.
    rewrite foldl_update_concat; [by rewrite Hcat|].
    intros ->. by cbn in Hcat.
  - intros ->. rewrite Hsha. destruct chunks as [|c chunks]; [done|].
    apply Forall_cons in Hall as [[Hc _] _]. cbn in Hcat.
    by destruct c.
  - intros other Hnone. unfold sha256_file. by rewrite Hnone.
Qed.

(** A hash object that keeps what it was fed and prints its length in
    unary: enough to tell digests of different lengths apart. *)
#[export] Instance keeper : Hash := {|
  hasher := list byte;
  sha256 := [];
  update d chunk := d ++ chunk;
  hexdigest d := string_of_list_ascii (replicate (length d) "x"%char)
|}.

#[export] Instance keeper_laws : HashLaws keeper.
Proof. constructor. intros d a b. cbn. by rewrite app_assoc. Qed.

(** A file of three bytes. *)
Lemma sha256_file_whole_witness :
  sha256_file (H := keeper) 4 {[ "w.snnue"%string := ["S"; "N"; "N"]%byte ]}
    "w.snnue" = Some (Ok "xxx"%string).
Proof.
  refine (proj1 (proj2 (sha256_file_whole (H := keeper) 4
                   {[ "w.snnue"%string := ["S"; "N"; "N"]%byte ]} "w.snnue"
                   ["S"; "N"; "N"]%byte _ _)) keeper_laws _).
  - reflexivity.
  - cbn. lia.
  - discriminate.
Defined.

End DigestFacts.

(** * The timeout map of a summary *)

Module SummaryFacts.

Import PyList Loader Split Summary.

(** A field that is absent, null or an integer. *)
Definition int_field (value : json) : option (option Z) :=
  match value with
  | JNull => Some None
  | JNumber (PyInt z) => Some (Some z)
  | _ => None
  end.

(** An entry that is an object whose two fields are absent, null or
    integers: the pair it contributes, if it has both. *)
Definition entry_pair (entry : json) : option (option (Z * Z)) :=
  match entry with
  | JObject members =>
      g ← int_field (default JNull (member "gameId" members));
      t ← int_field (default JNull (member "timeoutMoves" members));
      Some (match g, t with
            | Some g, Some t => Some (g, t)
            | _, _ => None
            end)
  | _ => None
  end.

(** The value the last pair of a key gives it. *)
Definition last_value (g : Z) (pairs : list (Z * Z)) : option Z :=
  snd <$> last (filter (fun p => p.1 = g) pairs).

Definition put (m : gmap Z Z) (pair : option (Z * Z)) : gmap Z Z :=
  match pair with
  | Some (g, t) => <[g := t]> m
  | None => m
  end.

Lemma add_entry_plain `{IntParser} (entry : json) (pair : option (Z * Z))
  (m : gmap Z Z) :
  entry_pair entry = Some pair -> add_entry entry m = Return (put m pair).
Proof.
  destruct entry as [| | | | |members]; try discriminate.
  cbn [entry_pair]. unfold add_entry. cbn [py_get mbind outcome_bind].
  destruct (default JNull (member "gameId" members)) as [| |[g|]| | |];
    try discriminate; cbn;
    destruct (default JNull (member "timeoutMoves" members)) as [| |[t|]| | |];
    try discriminate; cbn; by intros [= <-].
Qed.

Lemma add_entries_plain `{IntParser} (entries : list json)
  (pairs : list (option (Z * Z))) :
  Forall2 (fun entry pair => entry_pair entry = Some pair) entries pairs ->
  forall m, add_entries entries m = Return (foldl put m pairs).
Proof.
  induction 1 as [|entry pair entries pairs Hp _ IH]; intros m; [done|].
  cbn [add_entries foldl]. rewrite (add_entry_plain _ _ _ Hp). cbn. apply IH.
Qed.

Lemma lookup_foldl_put (pairs : list (option (Z * Z))) :
  forall (m : gmap Z Z) (g : Z),
    foldl put m pairs !! g
    = match last_value g (omap id pairs) with
      | Some t => Some t
      | None => m !! g
      end.
Proof.
  unfold last_value.
  induction pairs as [|pair pairs IH]; intros m g; [done|].
  destruct pair as [[g' t']|]; cbn [foldl omap list_omap put id]; rewrite IH.
  - destruct (decide (g' = g)) as [->|Hne].
    + rewrite filter_cons_True by done.
      destruct (filter (fun p => p.1 = g) (omap id pairs)) as [|q qs] eqn:E.
      * cbn. by rewrite lookup_insert_eq.
      * cbn [last fmap option_fmap option_map]. rewrite last_cons.
        by destruct (last qs).
    + rewrite filter_cons_False by done.
      destruct (snd <$> last (filter (fun p => p.1 = g) (omap id pairs)));
        [done|]. by rewrite lookup_insert_ne.
  - done.
Qed.

(** X20. What [load_timeout_map] returns for a parsed summary. A document
    that is no object has no [get]: [AttributeError]. An object whose
    [timeoutMovesPerGame] is absent or no list gives [None]. When it is a
    list of objects whose [gameId] and [timeoutMoves] are absent, null or
    integers, the result is a map in which a game has the timeout of the
    LAST entry that names it with both fields present; entries lacking
    either field add nothing. The per-run reader returns [None] for a run
    without a summary file and what [load_timeout_map] returns
    otherwise. *)
Theorem load_timeout_map_last `{IntParser} (members : list (string * json))
  (entries : list json) (pairs : list (option (Z * Z))) :
  member "timeoutMovesPerGame" members = Some (JArray entries) ->
  Forall2 (fun entry pair => entry_pair entry = Some pair) entries pairs ->
  (exists m,
     load_timeout_map (JObject members) = Return (Some m) /\
     (forall g, m !! g = last_value g (omap id pairs)) /\
     (forall summary run_id,
        summary run_id = Some (JObject members) ->
        load_timeout_map_for_run summary run_id = Return (Some m))) /\
  (forall data,
     match data with
     | JObject others =>
         match default JNull (member "timeoutMovesPerGame" others) with
         | JArray _ => True
         | _ => load_timeout_map data = Return None
         end
     | _ => load_timeout_map data = Raise AttributeError
     end) /\
  (forall summary run_id,
     summary run_id = None ->
     load_timeout_map_for_run summary run_id = Return None).
Proof.
  intros Hm Hall. split; [|split].
  - exists (foldl put ∅ pairs).
    assert (load_timeout_map (JObject members)
            = Return (Some (foldl put ∅ pairs))) as Hload.
    { unfold load_timeout_map, py_get. rewrite Hm.
      cbn [default mbind outcome_bind id]. by rewrite (add_entries_plain _ _ Hall). }
    split; [done|]. split.
    + intros g. rewrite lookup_foldl_put, lookup_empty.
      by destruct (last_value g (omap id pairs)).
    + intros summary run_id Hs. unfold load_timeout_map_for_run.
      by rewrite Hs, Hload.
  - intros [| | | | |others]; try done.
    unfold load_timeout_map. cbn [py_get mbind outcome_bind].
    by destruct (default JNull (member "timeoutMovesPerGame" others)).
  - intros summary run_id Hs. unfold load_timeout_map_for_run. by rewrite Hs.
Qed.

(** A parser of no string at all, for the example. *)
#[export] Instance no_parser : IntParser := {| int_of_str _ := Err ValueError |}.

(** Game 3 is listed twice and game 4 without its timeout: the map gives
    game 3 the later value and has no entry for game 4. *)
Definition example_summary : list (string * json) :=
  [("timeoutMovesPerGame"%string,
    JArray [JObject [("gameId"%string, JNumber (PyInt 3));
                     ("timeoutMoves"%string, JNumber (PyInt 1))];
            JObject [("gameId"%string, JNumber (PyInt 4));
                     ("timeoutMoves"%string, JNull)];
            JObject [("gameId"%string, JNumber (PyInt 3));
                     ("timeoutMoves"%string, JNumber (PyInt 7))]])].

Lemma load_timeout_map_last_witness :
  exists m,
    load_timeout_map (JObject example_summary) = Return (Some m) /\
    m !! 3 = Some 7 /\ m !! 4 = None.
Proof.
  destruct (load_timeout_map_last example_summary
              [JObject [("gameId"%string, JNumber (PyInt 3));
                        ("timeoutMoves"%string, JNumber (PyInt 1))];
               JObject [("gameId"%string, JNumber (PyInt 4));
                        ("timeoutMoves"%string, JNull)];
               JObject [("gameId"%string, JNumber (PyInt 3));
                        ("timeoutMoves"%string, JNumber (PyInt 7))]]
              [Some (3, 1); None; Some (3, 7)])
    as ((m & Hload & Hlook & _) & _).
  - reflexivity.
  - repeat constructor.
  - exists m. split; [exact Hload|]. rewrite !Hlook. split; reflexivity.
Defined.

End SummaryFacts.

(** * The piece exporter *)

Module ExporterFacts.

Import PyStr PyList Exporter.

(** ** The arguments after the double dash *)

Lemma py_list_index_first (pre post : list string) :
  "--"%string ∉ pre ->
  py_list_index "--" (pre ++ "--"%string :: post) = Ok (length pre).
Proof.
  induction pre as [|a pre IH]; intros Hpre; cbn [app py_list_index length].
  - by rewrite String.eqb_refl.
  - apply not_elem_of_cons in Hpre as [Hne Hpre].
    destruct (String.eqb_spec a "--"); [congruence|].
    by rewrite IH.
Qed.

(** X21. [sys_argv_after_double_dash] never raises. Without a ["--"] among
    the arguments it returns the empty list; with one, it returns what
    follows the FIRST ["--"], later ones included: nothing that stands
    before the first ["--"] reaches the script's parser. *)
Theorem sys_argv_after_first_double_dash (sys_argv : list string) :
  exists argv,
    sys_argv_after_double_dash sys_argv = Ok argv /\
    ("--"%string ∉ sys_argv -> argv = []) /\
    (forall pre post,
       "--"%string ∉ pre -> sys_argv = pre ++ "--"%string :: post ->
       argv = post).
Proof.
  unfold sys_argv_after_double_dash.
  destruct (decide ("--"%string ∈ sys_argv)) as [Hin|Hnot].
  - rewrite bool_decide_eq_true_2 by done.
    destruct (list_elem_of_split_l _ _ Hin) as (pre & post & -> & Hpre).
    rewrite (py_list_index_first pre post Hpre). cbn.
    assert (drop (length pre + 1) (pre ++ "--"%string :: post) = post) as ->.
    { rewrite drop_app_ge by lia.
      by replace (length pre + 1 - length pre)%nat with 1%nat by lia. }
    exists post. split; [done|]. split; [done|].
    intros pre' post' Hpre' Heq.
    assert (length pre = length pre') as Hlen.
    { destruct (Nat.lt_trichotomy (length pre) (length pre')) as [Hlt|[?|Hlt]];
        [|done|]; exfalso.
      - apply Hpre'. apply (list_elem_of_lookup_2 _ (length pre)).
        rewrite <- (lookup_app_l _ ("--"%string :: post')) by done.
        rewrite <- Heq. by rewrite list_lookup_middle.
      - apply Hpre. apply (list_elem_of_lookup_2 _ (length pre')).
        rewrite <- (lookup_app_l _ ("--"%string :: post)) by done.
        rewrite Heq. by rewrite list_lookup_middle. }
    apply app_inj_1 in Heq as [_ Heq]; [|done]. by injection Heq.
  - rewrite bool_decide_eq_false_2 by done. exists []. split; [done|].
    split; [done|]. intros pre post _ ->. exfalso. apply Hnot.
    apply elem_of_app. right. left.
Qed.

(** ** The candidates of a piece *)

Definition is_mesh (obj : Object) : bool := String.eqb (obj_type obj) "MESH".

(** [if obj not in listed: listed.append(obj)] *)
Definition add_unique (listed : list Object) (obj : Object) : list Object :=
  if existsb (same_object obj) listed then listed else listed ++ [obj].

(** The mesh objects of a list, each kept at its first occurrence. *)
Definition collect (objects : list Object) : list Object :=
  foldl add_unique [] (filter (fun o => is_mesh o = true) objects).

Definition named (piece name : string) : Prop :=
  contains piece (str_lower name) = true.

#[local] Instance named_dec (piece name : string) : Decision (named piece name).
Proof. unfold named. apply _. Defined.

(** The objects the two loops offer for a piece, in their order: those of
    the collections whose lower-cased name holds the piece's, then the
    objects whose own lower-cased name does. *)
Definition sources (piece : string) (data : BlendData) : list Object :=
  concat (coll_objects <$>
          filter (fun c => named piece (coll_name c)) (data_collections data))
  ++ filter (fun o => named piece (obj_name o)) (data_objects data).

(** The calls of [add_candidate] a state has seen, by piece. *)
Definition offered (piece : string) (calls : list (string * Object)) : list Object :=
  snd <$> filter (fun e => e.1 = piece) calls.

Definition represents (c : gmap string (list Object))
  (calls : list (string * Object)) : Prop :=
  (forall piece, piece ∈ PIECE_TYPES -> c !! piece = Some (collect (offered piece calls))) /\
  (forall key, key ∉ PIECE_TYPES -> c !! key = None).

Lemma existsb_same_object (obj : Object) (listed : list Object) :
  existsb (same_object obj) listed = true <-> obj_id obj ∈ obj_id <$> listed.
Proof.
  rewrite existsb_exists, list_elem_of_fmap. unfold same_object.
  split.
  - intros (o & Hin%list_elem_of_In & Heq%Nat.eqb_eq). by exists o.
  - intros (o & Heq & Hin%list_elem_of_In). exists o. split; [done|].
    by apply Nat.eqb_eq.
Qed.

Lemma collect_snoc (objects : list Object) (obj : Object) :
  collect (objects ++ [obj])
  = if is_mesh obj then add_unique (collect objects) obj else collect objects.
Proof.
  unfold collect. rewrite filter_app.
  destruct (is_mesh obj) eqn:Hm.
  - rewrite (filter_cons_True _ obj []) by done. cbn. by rewrite foldl_app.
  - rewrite (filter_cons_False _ obj []) by congruence. cbn. by rewrite app_nil_r.
Qed.

Lemma offered_snoc (piece piece' : string) (calls : list (string * Object))
  (obj : Object) :
  offered piece' (calls ++ [(piece, obj)])
  = if decide (piece = piece') then offered piece' calls ++ [obj]
    else offered piece' calls.
Proof.
  unfold offered. rewrite filter_app, fmap_app.
  destruct (decide (piece = piece')) as [->|Hne].
  - by rewrite (filter_cons_True _ (piece', obj) []) by done.
  - rewrite (filter_cons_False _ (piece, obj) []) by done. cbn.
    by rewrite app_nil_r.
Qed.

Lemma add_candidate_represents (piece : string) (obj : Object)
  (c : gmap string (list Object)) (calls : list (string * Object)) :
  piece ∈ PIECE_TYPES -> represents c calls ->
  exists c', add_candidate piece obj c = Ok c' /\
             represents c' (calls ++ [(piece, obj)]).
Proof.
  intros Hp [Hin Hout]. unfold add_candidate. fold (is_mesh obj).
  assert (forall c',
            (forall key, key ≠ piece -> c' !! key = c !! key) ->
            c' !! piece
            = Some (if is_mesh obj then add_unique (collect (offered piece calls)) obj
                    else collect (offered piece calls)) ->
            represents c' (calls ++ [(piece, obj)])) as Hrep.
  { intros c' Hother Hthis. split.
    - intros p' Hp'. rewrite offered_snoc.
      destruct (decide (piece = p')) as [<-|Hne].
      + by rewrite collect_snoc.
      + rewrite Hother by done. by apply Hin.
    - intros key Hkey. rewrite Hother; [by apply Hout|].
      intros ->. done. }
  destruct (is_mesh obj) eqn:Hm; cbn [negb].
  - rewrite (Hin piece Hp). cbn [of_option mbind result_bind].
    destruct (existsb (same_object obj) (collect (offered piece calls))) eqn:He.
    + exists c. split; [done|]. apply Hrep; [done|].
      rewrite (Hin piece Hp). unfold add_unique. by rewrite He.
    + eexists. split; [done|]. apply Hrep.
      * intros key Hkey. by rewrite lookup_insert_ne.
      * rewrite lookup_insert_eq. unfold add_unique. by rewrite He.
  - exists c. split; [done|]. apply Hrep; [done|]. by apply Hin.
Qed.

(** A loop whose every pass makes the calls [calls_of x]. *)
Lemma for_each_represents {X} (xs : list X)
  (body : X -> gmap string (list Object) -> result (gmap string (list Object)))
  (calls_of : X -> list (string * Object)) :
  (forall x c calls,
     x ∈ xs -> represents c calls ->
     exists c', body x c = Ok c' /\ represents c' (calls ++ calls_of x)) ->
  forall c calls,
    represents c calls ->
    exists c', for_each xs body c = Ok c' /\
               represents c' (calls ++ concat (calls_of <$> xs)).
Proof.
  induction xs as [|x xs IH]; intros Hbody c calls Hc; cbn.
  - exists c. by rewrite app_nil_r.
  - destruct (Hbody x c calls ltac:(left) Hc) as (c1 & -> & Hc1). cbn.
    destruct (IH ltac:(intros y ? ? Hy; apply Hbody; by right) c1 _ Hc1)
      as (c' & Hrun & Hc').
    exists c'. split; [done|]. by rewrite app_assoc.
Qed.

(** The calls of [for piece in PIECE_TYPES: if piece in name: ...], when
    the body makes one call for each of [objects]. *)
Definition piece_calls (name : string) (objects : list Object)
  : list (string * Object) :=
  concat ((fun piece =>
             if decide (named piece name) then (fun o => (piece, o)) <$> objects
             else []) <$> PIECE_TYPES).

Lemma for_pieces_in_represents (name : string) (objects : list Object)
  (body : string -> gmap string (list Object) -> result (gmap string (list Object))) :
  (forall piece c calls,
     piece ∈ PIECE_TYPES -> represents c calls ->
     exists c', body piece c = Ok c' /\
                represents c' (calls ++ ((fun o => (piece, o)) <$> objects))) ->
  forall c calls,
    represents c calls ->
    exists c', for_pieces_in (str_lower name) body c = Ok c' /\
               represents c' (calls ++ piece_calls name objects).
Proof.
  intros Hbody. unfold for_pieces_in, piece_calls.
  apply for_each_represents. intros piece c calls Hp Hc.
  destruct (decide (named piece name)) as [Hn|Hn]; unfold named in Hn.
  - rewrite Hn. by apply Hbody.
  - apply not_true_is_false in Hn. rewrite Hn. exists c. by rewrite app_nil_r.
Qed.

Lemma add_candidates_represents (piece : string) (objects : list Object) :
  piece ∈ PIECE_TYPES ->
  forall c calls,
    represents c calls ->
    exists c', for_each objects (add_candidate piece) c = Ok c' /\
               represents c' (calls ++ ((fun o => (piece, o)) <$> objects)).
Proof.
  intros Hp c calls Hc.
  destruct (for_each_represents objects (add_candidate piece)
              (fun o => [(piece, o)])) with (c := c) (calls := calls)
    as (c' & Hrun & Hc'); [|done|].
  - intros o c0 calls0 _ Hc0. by apply add_candidate_represents.
  - exists c'. split; [done|].
    replace ((fun o => (piece, o)) <$> objects)
      with (concat ((fun o => [(piece, o)]) <$> objects)); [done|].
    clear. induction objects as [|o objects IH]; [done|]. cbn. by rewrite IH.
Qed.

(** All the calls of [find_piece_objects]. *)
Definition all_calls (data : BlendData) : list (string * Object) :=
  concat ((fun c => piece_calls (coll_name c) (coll_objects c))
          <$> data_collections data)
  ++ concat ((fun o => piece_calls (obj_name o) [o]) <$> data_objects data).

Lemma PIECE_TYPES_NoDup : NoDup PIECE_TYPES.
Proof. apply (bool_decide_unpack (NoDup PIECE_TYPES)). by vm_compute. Qed.

Lemma offered_piece_calls (piece name : string) (objects : list Object) :
  piece ∈ PIECE_TYPES ->
  offered piece (piece_calls name objects)
  = if decide (named piece name) then objects else [].
Proof.
  unfold piece_calls. pose proof PIECE_TYPES_NoDup as Hnd. revert Hnd.
  generalize PIECE_TYPES as ps.
  induction ps as [|p ps IH]; intros Hnd Hin; [by apply elem_of_nil in Hin|].
  apply NoDup_cons in Hnd as [Hp Hnd]. cbn [fmap list_fmap concat].
  unfold offered in *. rewrite filter_app, fmap_app.
  assert (forall q os,
            snd <$> filter (fun e : string * Object => e.1 = piece)
                      ((fun o => (q, o)) <$> os)
            = if decide (q = piece) then os else []) as Hone.
  { intros q os. destruct (decide (q = piece)) as [->|Hne].
    - induction os as [|o os IHo]; [done|]. cbn [fmap list_fmap].
      rewrite filter_cons_True by done. cbn [fmap list_fmap snd]. by rewrite IHo.
    - induction os as [|o os IHo]; [done|]. cbn [fmap list_fmap].
      by rewrite filter_cons_False by done. }
  assert (forall qs,
            piece ∉ qs ->
            snd <$> filter (fun e : string * Object => e.1 = piece)
                      (concat ((fun q =>
                                  if decide (named q name)
                                  then (fun o => (q, o)) <$> objects else [])
                               <$> qs)) = []) as Hnone.
  { intros qs Hq. induction qs as [|q qs IHq]; [done|].
    apply not_elem_of_cons in Hq as [Hne Hq]. cbn [fmap list_fmap concat].
    rewrite filter_app, fmap_app, IHq by done.
    destruct (decide (named q name)); [|done].
    rewrite Hone. by rewrite decide_False by done. }
  apply elem_of_cons in Hin as [->|Hin].
  - rewrite Hnone by done. rewrite app_nil_r.
    destruct (decide (named p name)); [|done].
    rewrite Hone. by rewrite decide_True.
  - rewrite IH by done.
    assert (p ≠ piece) by (intros ->; done).
    destruct (decide (named p name)); [|done].
    rewrite Hone. by rewrite decide_False.
Qed.

Lemma offered_app (piece : string) (a b : list (string * Object)) :
  offered piece (a ++ b) = offered piece a ++ offered piece b.
Proof. unfold offered. by rewrite filter_app, fmap_app. Qed.

Lemma offered_all_calls (piece : string) (data : BlendData) :
  piece ∈ PIECE_TYPES -> offered piece (all_calls data) = sources piece data.
Proof.
  intros Hp. unfold all_calls, sources. rewrite offered_app. f_equal.
  - induction (data_collections data) as [|c cs IH]; [done|].
    cbn [fmap list_fmap concat]. rewrite offered_app, IH, offered_piece_calls by done.
    destruct (decide (named piece (coll_name c))).
    + by rewrite filter_cons_True by done.
    + by rewrite filter_cons_False by done.
  - induction (data_objects data) as [|o os IH]; [done|].
    cbn [fmap list_fmap concat]. rewrite offered_app, IH, offered_piece_calls by done.
    destruct (decide (named piece (obj_name o))).
    + by rewrite filter_cons_True by done.
    + by rewrite filter_cons_False by done.
Qed.

Lemma initial_represents :
  represents (list_to_map ((fun piece => (piece, [])) <$> PIECE_TYPES)) [].
Proof.
  split.
  - intros piece Hp. unfold PIECE_TYPES in *.
    repeat (apply elem_of_cons in Hp as [->|Hp]; [reflexivity|]).
    by apply elem_of_nil in Hp.
  - intros key Hkey. apply not_elem_of_list_to_map_1. exact Hkey.
Qed.

(** [find_piece_objects] returns, with the candidates of each piece
    collected from what the loops offer. *)
Lemma find_piece_objects_run (data : BlendData) :
  exists c,
    find_piece_objects data = Ok c /\
    (forall piece, piece ∈ PIECE_TYPES ->
       c !! piece = Some (collect (sources piece data))) /\
    (forall key, key ∉ PIECE_TYPES -> c !! key = None).
Proof.
  unfold find_piece_objects.
  destruct (for_each_represents (data_collections data)
              (fun collection c =>
                 for_pieces_in (str_lower (coll_name collection))
                   (fun piece c =>
                      for_each (coll_objects collection) (add_candidate piece) c) c)
              (fun c => piece_calls (coll_name c) (coll_objects c)))
    with (c := (list_to_map ((fun piece => (piece, [])) <$> PIECE_TYPES)
                : gmap string (list Object))) (calls := @nil (string * Object))
    as (c1 & Hrun1 & Hc1); [|apply initial_represents|].
  { intros coll c calls _ Hc. apply for_pieces_in_represents; [|done].
    intros piece c0 calls0 Hp Hc0. by apply add_candidates_represents. }
  rewrite Hrun1. cbn [mbind result_bind].
  destruct (for_each_represents (data_objects data)
              (fun obj c =>
                 for_pieces_in (str_lower (obj_name obj))
                   (fun piece c => add_candidate piece obj c) c)
              (fun o => piece_calls (obj_name o) [o]))
    with (c := c1) (calls := [] ++ concat ((fun c => piece_calls (coll_name c) (coll_objects c))
                                     <$> data_collections data))
    as (c2 & Hrun2 & [Hin Hout]); [|done|].
  { intros obj c calls _ Hc. apply for_pieces_in_represents; [|done].
    intros piece c0 calls0 Hp Hc0. by apply add_candidate_represents. }
  exists c2. split; [done|]. split; [|done].
  intros piece Hp. rewrite (Hin piece Hp). cbn [app].
  by rewrite <- (offered_all_calls piece data Hp).
Qed.

Lemma add_unique_ids (listed : list Object) (obj : Object) :
  NoDup (obj_id <$> listed) -> NoDup (obj_id <$> add_unique listed obj).
Proof.
  intros Hnd. unfold add_unique.
  destruct (existsb (same_object obj) listed) eqn:He; [done|].
  rewrite fmap_app. apply NoDup_app. split; [done|]. split.
  - intros i Hi Hobj. apply list_elem_of_singleton in Hobj as ->.
    apply existsb_same_object in Hi. congruence.
  - apply NoDup_singleton.
Qed.

Lemma add_unique_elem (listed : list Object) (obj o : Object) :
  o ∈ add_unique listed obj -> o ∈ listed \/ o = obj.
Proof.
  unfold add_unique. destruct (existsb (same_object obj) listed); [by left|].
  intros [Hx|Hx%list_elem_of_singleton]%elem_of_app; [by left|by right].
Qed.

Lemma add_unique_keeps (listed : list Object) (obj : Object) (i : nat) :
  i ∈ obj_id <$> listed -> i ∈ obj_id <$> add_unique listed obj.
Proof.
  unfold add_unique. destruct (existsb (same_object obj) listed); [done|].
  rewrite fmap_app, elem_of_app. by left.
Qed.

Lemma add_unique_has (listed : list Object) (obj : Object) :
  obj_id obj ∈ obj_id <$> add_unique listed obj.
Proof.
  unfold add_unique. destruct (existsb (same_object obj) listed) eqn:He.
  - by apply existsb_same_object.
  - rewrite fmap_app, elem_of_app. right. cbn. left.
Qed.

Lemma foldl_add_unique (objects : list Object) :
  forall listed,
    NoDup (obj_id <$> listed) ->
    NoDup (obj_id <$> foldl add_unique listed objects) /\
    (forall o, o ∈ foldl add_unique listed objects -> o ∈ listed \/ o ∈ objects) /\
    (forall i, i ∈ obj_id <$> listed ->
               i ∈ obj_id <$> foldl add_unique listed objects) /\
    (forall o, o ∈ objects -> obj_id o ∈ obj_id <$> foldl add_unique listed objects) /\
    (objects ≠ [] -> foldl add_unique listed objects ≠ []).
Proof.
  induction objects as [|obj objects IH]; intros listed Hnd; cbn [foldl].
  - split; [done|]. split; [by left|]. split; [done|].
    split; [by intros o Ho%elem_of_nil|done].
  - destruct (IH (add_unique listed obj) (add_unique_ids _ _ Hnd))
      as (Hn & Hel & Hkeep & Hhas & _).
    split; [done|]. split; [|split; [|split]].
    + intros o Ho. destruct (Hel o Ho) as [Hin|Hin]; [|right; by right].
      apply add_unique_elem in Hin as [Hx| ->]; [by left|right; left].
    + intros i Hi. by apply Hkeep, add_unique_keeps.
    + intros o [->|Ho]%elem_of_cons; [|by apply Hhas].
      apply Hkeep, add_unique_has.
    + intros _ Hnil.
      pose proof (Hkeep _ (add_unique_has listed obj)) as Hin.
      rewrite Hnil in Hin. by apply elem_of_nil in Hin.
Qed.

(** What [collect] keeps: the mesh objects, each identity once. *)
Lemma collect_spec (objects : list Object) :
  NoDup (obj_id <$> collect objects) /\
  (forall o, o ∈ collect objects -> o ∈ objects /\ obj_type o = "MESH"%string) /\
  (forall o, o ∈ objects -> obj_type o = "MESH"%string ->
             obj_id o ∈ obj_id <$> collect objects) /\
  (collect objects = [] <->
   forall o, o ∈ objects -> obj_type o ≠ "MESH"%string).
Proof.
  unfold collect.
  destruct (foldl_add_unique (filter (fun o => is_mesh o = true) objects) [])
    as (Hn & Hel & _ & Hhas & Hne); [constructor|].
  assert (forall o, is_mesh o = true <-> obj_type o = "MESH"%string) as Hmesh.
  { intros o. unfold is_mesh. apply String.eqb_eq. }
  split; [done|]. split; [|split; [|split]].
  - intros o Ho. destruct (Hel o Ho) as [Hin|Hin]; [by apply elem_of_nil in Hin|].
    apply list_elem_of_filter in Hin as [Hm Hin]. by apply Hmesh in Hm.
  - intros o Ho Hm. apply Hhas. apply list_elem_of_filter. by rewrite Hmesh.
  - intros Hnil o Ho Hm.
    pose proof (Hhas o) as Hin. rewrite Hnil in Hin.
    apply (elem_of_nil (obj_id o)), Hin, list_elem_of_filter. by rewrite Hmesh.
  - intros Hnone.
    destruct (filter (fun o => is_mesh o = true) objects) as [|o l] eqn:Hf; [done|].
    exfalso. assert (o ∈ filter (fun o => is_mesh o = true) objects) as Hin
      by (rewrite Hf; left).
    apply list_elem_of_filter in Hin as [Hm Hin]. apply (Hnone o Hin).
    by apply Hmesh.
Qed.

Lemma elem_of_concat {A} (x : A) (ls : list (list A)) :
  x ∈ concat ls <-> exists l, x ∈ l /\ l ∈ ls.
Proof.
  induction ls as [|l ls IH]; cbn.
  - split; [by intros ?%elem_of_nil|by intros (l & _ & ?%elem_of_nil)].
  - rewrite elem_of_app, IH. split.
    + intros [Hx|(l' & Hx & Hl)]; [exists l; split; [done|left]|].
      exists l'. split; [done|by right].
    + intros (l' & Hx & [->|Hl]%elem_of_cons); [by left|right; by exists l'].
Qed.

(** X22. [find_piece_objects] never raises, and its result has the six
    piece names as keys and no other. For each piece the list holds the
    mesh objects offered for it: the objects of the collections whose
    lower-cased name contains the piece's name, then the objects whose own
    lower-cased name does. Each object is listed once, objects that are no
    mesh never, and every mesh object offered is listed. *)
Theorem find_piece_objects_candidates (data : BlendData) :
  exists candidates,
    find_piece_objects data = Ok candidates /\
    (forall key, key ∉ PIECE_TYPES -> candidates !! key = None) /\
    forall piece, piece ∈ PIECE_TYPES ->
      exists listed,
        candidates !! piece = Some listed /\
        listed = collect (sources piece data) /\
        NoDup (obj_id <$> listed) /\
        (forall o, o ∈ listed ->
           obj_type o = "MESH"%string /\
           ((exists c, c ∈ data_collections data /\
                       contains piece (str_lower (coll_name c)) = true /\
                       o ∈ coll_objects c)
            \/ (o ∈ data_objects data /\
                contains piece (str_lower (obj_name o)) = true))) /\
        (forall o c, c ∈ data_collections data ->
           contains piece (str_lower (coll_name c)) = true ->
           o ∈ coll_objects c -> obj_type o = "MESH"%string ->
           obj_id o ∈ obj_id <$> listed) /\
        (forall o, o ∈ data_objects data ->
           contains piece (str_lower (obj_name o)) = true ->
           obj_type o = "MESH"%string ->
           obj_id o ∈ obj_id <$> listed).
Proof.
  destruct (find_piece_objects_run data) as (c & Hrun & Hin & Hout).
  exists c. split; [done|]. split; [done|].
  intros piece Hp. exists (collect (sources piece data)).
  split; [by apply Hin|]. split; [done|].
  destruct (collect_spec (sources piece data)) as (Hnd & Hel & Hhas & _).
  split; [done|].
  assert (forall o, o ∈ sources piece data <->
            (exists c, c ∈ data_collections data /\
                       contains piece (str_lower (coll_name c)) = true /\
                       o ∈ coll_objects c)
            \/ (o ∈ data_objects data /\
                contains piece (str_lower (obj_name o)) = true)) as Hsrc.
  { intros o. unfold sources. rewrite elem_of_app.
    assert (o ∈ concat (coll_objects <$>
                        filter (fun c => named piece (coll_name c))
                          (data_collections data))
            <-> exists c, c ∈ data_collections data /\
                          contains piece (str_lower (coll_name c)) = true /\
                          o ∈ coll_objects c) as ->.
    { rewrite elem_of_concat. split.
      - intros (l & Ho & Hl). apply list_elem_of_fmap in Hl as (c0 & -> & Hc).
        apply list_elem_of_filter in Hc as [Hn Hc]. by exists c0.
      - intros (c0 & Hc & Hn & Ho). exists (coll_objects c0). split; [done|].
        apply list_elem_of_fmap. exists c0. split; [done|].
        by apply list_elem_of_filter. }
    rewrite list_elem_of_filter. unfold named. tauto. }
  split; [|split].
  - intros o Ho. destruct (Hel o Ho) as [Hs Hm]. split; [done|]. by apply Hsrc.
  - intros o c0 Hc Hn Ho Hm. apply Hhas; [|done]. apply Hsrc. left. by exists c0.
  - intros o Ho Hn Hm. apply Hhas; [|done]. apply Hsrc. by right.
Qed.

(** ** The run of the exporter *)

(** The line of the manifest for a piece, without the comma. *)
Definition entry (piece : string) : string :=
  (quote ++ piece ++ quote ++ ": " ++ quote ++ piece ++ ".glb" ++ quote)%string.

Lemma omap_same {A B} (f g : A -> option B) (l : list A) :
  (forall a, a ∈ l -> f a = g a) -> omap f l = omap g l.
Proof.
  induction l as [|a l IH]; intros Hfg; [done|]. cbn.
  rewrite (Hfg a) by left. rewrite IH; [done|].
  intros b Hb. apply Hfg. by right.
Qed.

Lemma length_append (a b : string) :
  String.length (a ++ b) = (String.length a + String.length b)%nat.
Proof.
  induction a as [|c a IH]; [done|].
  change (String c a ++ b)%string with (String c (a ++ b)). cbn. by rewrite IH.
Qed.

Lemma append_suffix_inj (s a b : string) :
  (a ++ s = b ++ s)%string -> a = b.
Proof.
  revert b. induction a as [|c a IH]; intros [|c' b] Heq; [done|..].
  - apply (f_equal String.length) in Heq. rewrite !length_append in Heq.
    cbn in Heq. lia.
  - apply (f_equal String.length) in Heq. rewrite !length_append in Heq.
    cbn in Heq. lia.
  - change (String c (a ++ s) = String c' (b ++ s))%string in Heq.
    injection Heq as -> Heq. f_equal. by apply IH.
Qed.

(** X23. The exporter stops with [FileNotFoundError] when the blend file
    does not exist, and with [RuntimeError] exactly when no mesh object is
    offered for any piece. Otherwise it exports one file for each piece
    that has a mesh object, in the order of [PIECE_TYPES], and skips the
    others. The manifest it writes does not depend on the scene: it names
    all six files, also those of pieces that were skipped. *)
Theorem main_exports (data : BlendData) :
  let has_mesh piece :=
    exists o, o ∈ sources piece data /\ obj_type o = "MESH"%string in
  main false data = Err FileNotFoundError /\
  (main true data = Err RuntimeError <->
   forall piece, piece ∈ PIECE_TYPES -> ~ has_mesh piece) /\
  (forall e, main true data = Err e -> e = RuntimeError) /\
  (forall files text,
     main true data = Ok (files, text) ->
     text = manifest_text /\
     (forall piece, (piece ++ ".glb")%string ∈ files <->
                    piece ∈ PIECE_TYPES /\ has_mesh piece) /\
     files = omap (fun piece =>
                     match collect (sources piece data) with
                     | [] => None
                     | _ => Some (piece ++ ".glb")%string
                     end) PIECE_TYPES) /\
  (forall piece, piece ∈ PIECE_TYPES ->
     contains (entry piece) manifest_text = true).
Proof.
  intros has_mesh.
  assert (forall piece, collect (sources piece data) = [] <-> ~ has_mesh piece)
    as Hnil.
  { intros piece. destruct (collect_spec (sources piece data)) as (_ & _ & _ & Hc).
    rewrite Hc. unfold has_mesh. split.
    - intros Hno (o & Ho & Hm). by apply (Hno o).
    - intros Hno o Ho Hm. apply Hno. by exists o. }
  assert (forall piece, collect (sources piece data) ≠ [] <-> has_mesh piece)
    as Hpos.
  { intros piece. split.
    - intros Hne. destruct (collect (sources piece data)) as [|o l] eqn:Hcol;
        [done|].
      destruct (collect_spec (sources piece data)) as (_ & Hel & _).
      destruct (Hel o) as [Ho Hm]; [rewrite Hcol; left|]. by exists o.
    - intros Hm Hcol. by apply Hnil in Hcol. }
  split; [done|].
  destruct (find_piece_objects_run data) as (c & Hrun & Hin & Hout).
  unfold main. cbn [negb]. rewrite Hrun. cbn [mbind result_bind].
  assert (any_candidates c = true <->
          exists piece, piece ∈ PIECE_TYPES /\ has_mesh piece) as Hany.
  { unfold any_candidates. rewrite bool_decide_eq_true. split.
    - intros (key & objects & Hk & Hne). cbn in Hne.
      destruct (decide (key ∈ PIECE_TYPES)) as [Hp|Hp];
        [|rewrite (Hout key Hp) in Hk; discriminate].
      rewrite (Hin key Hp) in Hk. injection Hk as <-.
      exists key. split; [done|]. by apply Hpos.
    - intros (piece & Hp & Hm). exists piece, (collect (sources piece data)).
      split; [by apply Hin|]. cbn. intros Hc. by apply Hnil in Hc. }
  assert (exported_files c
          = omap (fun piece =>
                    match collect (sources piece data) with
                    | [] => None
                    | _ => Some (piece ++ ".glb")%string
                    end) PIECE_TYPES) as Hfiles.
  { unfold exported_files. apply omap_same. intros piece Hp.
    by rewrite (Hin piece Hp). }
  destruct (any_candidates c) eqn:Hc; cbn [negb].
  - apply proj1 in Hany. destruct (Hany eq_refl) as (p0 & Hp0 & Hm0).
    split; [split; [discriminate|intros Hno; by destruct (Hno p0 Hp0)]|].
    split; [discriminate|]. split.
    + intros files text [= <- <-]. split; [done|]. split; [|done].
      intros piece. rewrite Hfiles, list_elem_of_omap. split.
      * intros (p & Hp & Hsome).
        destruct (collect (sources p data)) as [|o l] eqn:Hcol; [discriminate|].
        injection Hsome as Heq. apply append_suffix_inj in Heq. subst p. split; [done|]. apply Hpos. by rewrite Hcol.
      * intros [Hp Hm]. exists piece. split; [done|].
        destruct (collect (sources piece data)) eqn:Hcol; [|done].
        by apply Hnil in Hcol.
    + intros piece Hp. unfold PIECE_TYPES in Hp.
      repeat (apply elem_of_cons in Hp as [->|Hp]; [by vm_compute|]).
      by apply elem_of_nil in Hp.
  - split.
    { split; [|done]. intros _ piece Hp Hm.
      assert (false = true) as Hf by (apply Hany; by exists piece).
      discriminate Hf. }
    split; [by intros e [= <-]|]. split; [discriminate|].
    intros piece Hp. unfold PIECE_TYPES in Hp.
    repeat (apply elem_of_cons in Hp as [->|Hp]; [by vm_compute|]).
    by apply elem_of_nil in Hp.
Qed.

End ExporterFacts.
